(** * A shallow embedding of [app.py]: text clean-up, sentence segmentation,
      heuristic scoring and summarisation

    The Python module extracts the text of a PDF page by page, cleans it
    ([_normalize_whitespace], [_strip_headers_footers]), and summarises it with
    a deterministic scorer ([_split_sentences], [_score_sentence],
    [_pick_top_sentences], [summarize_text]).

    Conventions of the embedding.
    - A Python [str] is a [list ascii]; a character is read as the code point
      of the same number, so the model covers the texts whose code points are
      below 256 (Latin-1).  The character classes of [str.isspace], [\s], [\d],
      [\w] and the case mapping of [str.lower] are those of CPython on that
      range.
    - A Python [float] is an IEEE 754 binary64 number, taken from the
      Standard Library's [SpecFloat] with [prec = 53] and [emax = 1024].
    - Every regular expression of the source is embedded as the scanner that
      computes the same matches; the pattern is quoted above each scanner.
    - An exception is a value of [exn]; code that may raise returns [Exc]. *)

From stdpp Require Import gmap.
From Stdlib Require Import Ascii String.
From Stdlib Require Import List Arith ZArith Lia Bool.
From Stdlib Require Import Sorting.Sorted Sorting.Permutation.
From Stdlib Require Import Floats.SpecFloat.
Import ListNotations.
Local Open Scope nat_scope.
Local Open Scope list_scope.

(* ================================================================== *)
(** * Part I: the embedding *)
(* ================================================================== *)

(* ================================================================== *)
(** * Characters and strings of the Python runtime *)
(* ================================================================== *)

Definition str : Type := list ascii.

(** A literal of the source, ["..."]. *)
Definition txt (s : string) : str := list_ascii_of_string s.

Definition ord (c : ascii) : N := N_of_ascii c.
Definition chr (n : N) : ascii := ascii_of_N n.

Definition LF : ascii := chr 10.
Definition CR : ascii := chr 13.
Definition TAB : ascii := chr 9.
Definition NBSP : ascii := chr 160.
Definition SPACE : ascii := chr 32.

Definition is_char (d c : ascii) : bool := Ascii.eqb c d.

Definition in_range (lo hi : N) (c : ascii) : bool :=
  (lo <=? ord c)%N && (ord c <=? hi)%N.

Definition is_code (n : N) (c : ascii) : bool := (ord c =? n)%N.

(** [str.isspace] and the class [\s]: TAB, LF, VT, FF, CR, the separators
    FS, GS, RS, US, the space, NEL (0x85) and the no-break space (0xA0). *)
Definition isspace (c : ascii) : bool :=
  in_range 9 13 c || in_range 28 32 c || is_code 133 c || is_code 160 c.

(** The class [\d]: the decimal digits. *)
Definition isdecimal (c : ascii) : bool := in_range 48 57 c.

(** [str.isalnum]: the letters, the digits and the numeric characters of
    Latin-1 (feminine and masculine ordinal, micro sign, superscripts,
    vulgar fractions, and the accented letters without the two operators
    0xD7 and 0xF7). *)
Definition isalnum (c : ascii) : bool :=
  isdecimal c || in_range 65 90 c || in_range 97 122 c
  || is_code 170 c || in_range 178 179 c || is_code 181 c
  || in_range 185 186 c || in_range 188 190 c
  || in_range 192 214 c || in_range 216 246 c || in_range 248 255 c.

(** The class [\w]: alphanumeric or underscore; [\W] is its complement. *)
Definition isword (c : ascii) : bool := isalnum c || is_code 95 c.
Definition isnonword (c : ascii) : bool := negb (isword c).

(** [str.lower] on one character. *)
Definition lower_char (c : ascii) : ascii :=
  if in_range 65 90 c || (in_range 192 222 c && negb (is_code 215 c))
  then chr (ord c + 32) else c.

Definition str_lower (s : str) : str := map lower_char s.

(** The text after its leading characters of the class [p]. *)
Fixpoint drop_class (p : ascii -> bool) (s : str) : str :=
  match s with
  | [] => []
  | c :: s' => if p c then drop_class p s' else s
  end.

(** [s.lstrip()], [s.rstrip()], [s.strip()]. *)
Definition str_lstrip (s : str) : str := drop_class isspace s.

Definition str_rstrip (s : str) : str := rev (str_lstrip (rev s)).

Definition str_strip (s : str) : str := str_rstrip (str_lstrip s).

(** [s.split(sep)] for a separator of one character: always at least one
    piece, and [n] separators give [n + 1] pieces. *)
Fixpoint str_split (sep : ascii) (s : str) : list str :=
  match s with
  | [] => [[]]
  | c :: s' =>
      if is_char sep c then [] :: str_split sep s'
      else match str_split sep s' with
           | p :: ps => (c :: p) :: ps
           | [] => [[c]]
           end
  end.

(** [sep.join(parts)]. *)
Fixpoint str_join (sep : str) (parts : list str) : str :=
  match parts with
  | [] => []
  | p :: ps =>
      match ps with
      | [] => p
      | _ :: _ => p ++ sep ++ str_join sep ps
      end
  end.

(** [len(s.split())]: the number of maximal runs of non-space characters.
    [inword] tells whether the previous character belonged to a word. *)
Fixpoint count_words (inword : bool) (s : str) : nat :=
  match s with
  | [] => 0
  | c :: s' =>
      if isspace c then count_words false s'
      else if inword then count_words true s'
      else S (count_words true s')
  end.

(** [s] starts with [p]. *)
Fixpoint starts_with (p s : str) : bool :=
  match p, s with
  | [], _ => true
  | _ :: _, [] => false
  | a :: p', b :: s' => Ascii.eqb a b && starts_with p' s'
  end.

(** [p in s]: [p] occurs in [s] as a substring. *)
Fixpoint contains (p s : str) : bool :=
  starts_with p s ||
  match s with
  | [] => false
  | _ :: s' => contains p s'
  end.

(* ================================================================== *)
(** * Regular-expression substitutions *)
(* ================================================================== *)

(** [re.sub(r"\r\n|\r", "\n", text)]: a CR LF pair or a lone CR becomes LF. *)
Fixpoint sub_crlf (s : str) : str :=
  match s with
  | [] => []
  | c :: s' =>
      if is_char CR c then
        LF :: match s' with
              | [] => []
              | c' :: s'' => if is_char LF c' then sub_crlf s'' else sub_crlf s'
              end
      else c :: sub_crlf s'
  end.

(** What a finished run of class characters becomes: [rep] when the run has
    at least [least] characters, the run itself otherwise. *)
Definition flush_run (least : nat) (rep run : str) : str :=
  match run with
  | [] => []
  | _ :: _ => if least <=? length run then rep else run
  end.

(** [re.sub(r"[class]{least,}", rep, text)]: the quantifier is greedy, so a
    match is a maximal run of class characters; [run] holds the characters of
    the run being read. *)
Fixpoint sub_run (p : ascii -> bool) (least : nat) (rep run s : str) : str :=
  match s with
  | [] => flush_run least rep run
  | c :: s' =>
      if p c then sub_run p least rep (run ++ [c]) s'
      else flush_run least rep run ++ c :: sub_run p least rep [] s'
  end.

Definition re_sub_run (p : ascii -> bool) (least : nat) (rep s : str) : str :=
  sub_run p least rep [] s.

(* ================================================================== *)
(** * TextNormalizer: [_normalize_whitespace] *)
(* ================================================================== *)

Definition is_tab_or_nbsp (c : ascii) : bool := is_char TAB c || is_char NBSP c.

(** [[
def _normalize_whitespace(text: str) -> str:
    text = re.sub(r"\r\n|\r", "\n", text or "")
    text = re.sub(r"[\t\u00A0]+", " ", text)
    text = re.sub(r"\n{3,}", "\n\n", text)
    return text.strip()
]] *)
Definition _normalize_whitespace (text : str) : str :=
  let text := sub_crlf text in
  let text := re_sub_run is_tab_or_nbsp 1 [SPACE] text in
  let text := re_sub_run (is_char LF) 3 [LF; LF] text in
  str_strip text.

(* ================================================================== *)
(** * TextNormalizer: [_strip_headers_footers] *)
(* ================================================================== *)

Definition HEADER_FOOTER_MAX_LINES : nat := 4.

(** [re.search(r"^\s*\d+\s*$", ln)]: spaces, at least one digit, spaces, and
    nothing else.  The three quantifiers are greedy and their classes are
    disjoint, so each takes its whole run. *)
Definition re_search_page_number (ln : str) : bool :=
  match drop_class isspace ln with
  | [] => false
  | c :: rest =>
      isdecimal c && forallb isspace (drop_class isdecimal rest)
  end.

Definition isword_opt (c : option ascii) : bool :=
  match c with
  | Some c => isword c
  | None => false
  end.

(** [\b] between two neighbours ([None] at an end of the text): exactly one
    of them is a word character. *)
Definition word_boundary (before after : option ascii) : bool :=
  xorb (isword_opt before) (isword_opt after).

(** [s] starts with the lower-case pattern [p], letter case ignored
    ([re.I]): a character of the text matches when its lower case is the
    character of the pattern. *)
Fixpoint starts_with_ci (p s : str) : bool :=
  match p, s with
  | [], _ => true
  | _ :: _, [] => false
  | a :: p', b :: s' => Ascii.eqb a (lower_char b) && starts_with_ci p' s'
  end.

(** The character in front of the position reached after reading [l], when
    [before] was in front of [l]. *)
Fixpoint last_from (before : option ascii) (l : str) : option ascii :=
  match l with
  | [] => before
  | c :: l' => last_from (Some c) l'
  end.

(** [\bw\b] matches at the start of [s], where [before] is the character in
    front of [s]. *)
Definition word_at (before : option ascii) (s w : str) : bool :=
  word_boundary before (hd_error s)
  && starts_with_ci w s
  && word_boundary (last_from before (firstn (length w) s))
                   (hd_error (skipn (length w) s)).

(** [re.search(r"\b(w1|w2|...)\b", s, re.I)]: some alternative matches at
    some position. *)
Fixpoint search_words (ws : list str) (before : option ascii) (s : str) : bool :=
  existsb (word_at before s) ws ||
  match s with
  | [] => false
  | c :: s' => search_words ws (Some c) s'
  end.

Definition boilerplate_keywords : list str :=
  [txt "page"; txt "annual report"; txt "confidential"; txt "draft"].

(** [re.search(r"https?://", ln)]. *)
Definition re_search_url (ln : str) : bool :=
  contains (txt "http://") ln || contains (txt "https://") ln.

(** [[
    def is_header_footer_line(ln: str) -> bool:
        return bool(
            re.search(r"^\s*\d+\s*$", ln)
            or re.search(r"\b(page|annual report|confidential|draft)\b", ln, re.I)
            or re.search(r"https?://", ln)
        )
]] *)
Definition is_header_footer_line (ln : str) : bool :=
  re_search_page_number ln
  || search_words boilerplate_keywords None ln
  || re_search_url ln.

(** The test of one line in [remove_top] and [remove_bottom]:
    [is_header_footer_line(ln) or len(ln) <= 2]. *)
Definition removable_line (ln : str) : bool :=
  is_header_footer_line ln || (length ln <=? 2).

(** [[
def _strip_headers_footers(text: str) -> str:
    lines = [ln for ln in (text or "").split("\n") if ln is not None]
    if len(lines) <= HEADER_FOOTER_MAX_LINES * 2:
        return text
    top = lines[:HEADER_FOOTER_MAX_LINES]
    bottom = lines[-HEADER_FOOTER_MAX_LINES:]
    ...
    remove_top = all(is_header_footer_line(ln) or len(ln) <= 2 for ln in top)
    remove_bottom = all(is_header_footer_line(ln) or len(ln) <= 2 for ln in bottom)
    if remove_top:
        lines = lines[HEADER_FOOTER_MAX_LINES:]
    if remove_bottom:
        lines = lines[:-HEADER_FOOTER_MAX_LINES]
    return "\n".join(lines).strip()
]]
    A slice [l[-k:]] is [skipn (length l - k) l] and [l[:-k]] is
    [firstn (length l - k) l]. *)
Definition _strip_headers_footers (text : str) : str :=
  let lines := str_split LF text in
  if length lines <=? HEADER_FOOTER_MAX_LINES * 2 then text
  else
    let top := firstn HEADER_FOOTER_MAX_LINES lines in
    let bottom := skipn (length lines - HEADER_FOOTER_MAX_LINES) lines in
    let remove_top := forallb removable_line top in
    let remove_bottom := forallb removable_line bottom in
    let lines := if remove_top then skipn HEADER_FOOTER_MAX_LINES lines else lines in
    let lines :=
      if remove_bottom then firstn (length lines - HEADER_FOOTER_MAX_LINES) lines
      else lines in
    str_strip (str_join [LF] lines).

(* ================================================================== *)
(** * SentenceSegmenter: [_split_sentences] *)
(* ================================================================== *)

(** The class [[.!?]] of the look-behind. *)
Definition is_terminal (c : ascii) : bool :=
  is_char "."%char c || is_char "!"%char c || is_char "?"%char c.

(** The class [[A-Z(0-9)]] of the look-ahead: the capital letters, the
    opening parenthesis, the digits and the closing parenthesis. *)
Definition is_sentence_start (c : ascii) : bool :=
  in_range 65 90 c || is_char "("%char c || in_range 48 57 c || is_char ")"%char c.

Definition is_terminal_opt (c : option ascii) : bool :=
  match c with
  | Some c => is_terminal c
  | None => false
  end.

(** [re.split(r"(?<=[.!?])\s+(?=[ahead])", text)].

    A match is a whole run of spaces that follows a terminal mark and stands
    in front of a character of the class [ahead] (the run is greedy, and a
    shorter run is followed by a space, which the look-ahead refuses).
    [part] is the piece being read and [gap] the run of spaces read since
    the terminal mark that ends [part]; [gap] is empty when no such run is
    open.  At the end of the run the look-ahead decides: the piece is cut
    and the run dropped, or the run goes into the piece. *)
Fixpoint split_scan (ahead : ascii -> bool) (part gap text : str) : list str :=
  match text with
  | [] => [part ++ gap]
  | c :: rest =>
      match gap with
      | [] =>
          if isspace c && is_terminal_opt (last_from None part)
          then split_scan ahead part [c] rest
          else split_scan ahead (part ++ [c]) [] rest
      | _ :: _ =>
          if isspace c then split_scan ahead part (gap ++ [c]) rest
          else if ahead c then part :: split_scan ahead [c] [] rest
          else split_scan ahead (part ++ gap ++ [c]) [] rest
      end
  end.

Definition re_split_sentences (ahead : ascii -> bool) (text : str) : list str :=
  split_scan ahead [] [] text.

(** [re.sub(r"\s+", " ", s).strip()]. *)
Definition clean_sentence (s : str) : str :=
  str_strip (re_sub_run isspace 1 [SPACE] s).

(** [[
def _split_sentences(text: str) -> List[str]:
    parts = re.split(r"(?<=[.!?])\s+(?=[A-Z(0-9)])", text)
    sentences = []
    for s in parts:
        s = re.sub(r"\s+", " ", s).strip()
        if len(s) >= 30:
            sentences.append(s)
    return sentences
]] *)
Definition _split_sentences (text : str) : list str :=
  let parts := re_split_sentences is_sentence_start text in
  List.filter (fun s => 30 <=? length s) (map clean_sentence parts).

(* ================================================================== *)
(** * Floating-point numbers of the Python runtime *)
(* ================================================================== *)

(** A Python [float] is an IEEE 754 binary64 number: 53 bits of precision,
    infinities at exponent 1024, every operation rounded to nearest, ties
    to even. *)
Definition float : Type := spec_float.

Definition prec : Z := 53.
Definition emax : Z := 1024.

Definition fadd (x y : float) : float := SFadd prec emax x y.
Definition fsub (x y : float) : float := SFsub prec emax x y.
Definition fmul (x y : float) : float := SFmul prec emax x y.
Definition fdiv (x y : float) : float := SFdiv prec emax x y.
Definition fltb (x y : float) : bool := SFltb x y.
Definition fleb (x y : float) : bool := SFleb x y.

(** [float(n)] for an integer [n]. *)
Definition float_of_Z (n : Z) : float := binary_normalize prec emax n 0 false.
Definition float_of_nat (n : nat) : float := float_of_Z (Z.of_nat n).

(** The decimal literal [digits * 10^-places]: the binary64 number nearest
    to it, which is the rounded quotient of two integers that binary64
    holds exactly. *)
Definition decimal (digits : Z) (places : nat) : float :=
  fdiv (float_of_Z digits) (float_of_Z (10 ^ Z.of_nat places)).

(** The literals of [_score_sentence]. *)
Definition f0_0 : float := S754_zero false.
Definition f1_0 : float := decimal 10 1.
Definition f0_5 : float := decimal 5 1.
Definition f3_0 : float := decimal 30 1.
Definition f0_3 : float := decimal 3 1.
Definition f0_7 : float := decimal 7 1.
Definition f0_6 : float := decimal 6 1.
Definition f0_8 : float := decimal 8 1.

(** [min(a, b)] of two floats: the builtin keeps its first argument unless
    the second is smaller. *)
Definition py_min (a b : float) : float := if fltb b a then b else a.

(** [l.sort(key=key, reverse=True)] and [sorted]: the sort is stable, so
    with [reverse=True] the elements come by decreasing key and elements of
    equal key keep their order.  [insert_desc] puts [x], which stood in
    front of the elements of [l], in front of the first element whose key
    is not greater. *)
Fixpoint insert_desc {A : Type} (key : A -> float) (x : A) (l : list A) : list A :=
  match l with
  | [] => [x]
  | y :: l' => if fltb (key x) (key y) then y :: insert_desc key x l' else x :: l
  end.

Definition sort_desc {A : Type} (key : A -> float) (l : list A) : list A :=
  fold_right (insert_desc key) [] l.

(* ================================================================== *)
(** * SentenceScorer: [_score_sentence] *)
(* ================================================================== *)

(** [s] holds [p] at some place, letter case ignored. *)
Fixpoint contains_ci (p s : str) : bool :=
  starts_with_ci p s ||
  match s with
  | [] => false
  | _ :: s' => contains_ci p s'
  end.

(** [re.search(r"a1|a2|...", s, re.I)] for alternatives that are plain
    lower-case words: some alternative occurs in [s]. *)
Definition re_search_any_ci (alts : list str) (s : str) : bool :=
  existsb (fun a => contains_ci a s) alts.

(** [[
SECTION_PATTERNS = {
    "financials": r"revenue|ebit|ebitda|pat|profit|loss|income|balance sheet|cash flow|financial highlight",
    "risks": r"risk|outlook|challenge|headwind|uncertaint",
    "strategy": r"strategy|strategic|priority|roadmap|growth|investment|innovation|market|product|segment",
}
]] *)
Definition SECTION_PATTERNS : list (str * list str) :=
  [ (txt "financials",
     map txt ["revenue"; "ebit"; "ebitda"; "pat"; "profit"; "loss"; "income";
              "balance sheet"; "cash flow"; "financial highlight"]%string);
    (txt "risks",
     map txt ["risk"; "outlook"; "challenge"; "headwind"; "uncertaint"]%string);
    (txt "strategy",
     map txt ["strategy"; "strategic"; "priority"; "roadmap"; "growth";
              "investment"; "innovation"; "market"; "product"; "segment"]%string) ].

(** [r"yoy|qoq|guidance|margin|dividend|order book|backlog|capex|opex|free cash"] *)
Definition DOMAIN_SIGNALS : list str :=
  map txt ["yoy"; "qoq"; "guidance"; "margin"; "dividend"; "order book";
           "backlog"; "capex"; "opex"; "free cash"]%string.

(** [r"forward-looking|statutory|notes to accounts|auditor|secretarial"] *)
Definition DISCLAIMER_MARKS : list str :=
  map txt ["forward-looking"; "statutory"; "notes to accounts"; "auditor";
           "secretarial"]%string.

Definition is_numeric_run (c : ascii) : bool :=
  isdecimal c || is_char ","%char c || is_char "."%char c.

(** The tail [[\d,\.]*\b] of the numeric pattern, read after the character
    [prev]: the greatest number of characters of [l] that the greedy star
    can take so that a word boundary follows, if there is one.  The star
    gives characters back one by one until the boundary holds. *)
Fixpoint numeric_tail (prev : ascii) (l : str) : option nat :=
  match l with
  | [] => if isword prev then Some 0 else None
  | c :: l' =>
      let here := if xorb (isword prev) (isword c) then Some 0 else None in
      if is_numeric_run c then
        match numeric_tail c l' with
        | Some k => Some (S k)
        | None => here
        end
      else here
  end.

(** [len(re.findall(r"\b\d[\d,\.]*\b", s))]: the matches are read from left
    to right and do not overlap.  [before] is the character in front of the
    text and [skip] the number of characters still covered by the last
    match. *)
Fixpoint count_numerics (before : option ascii) (skip : nat) (s : str) : nat :=
  match s with
  | [] => 0
  | c :: rest =>
      match skip with
      | S k => count_numerics (Some c) k rest
      | O =>
          if isdecimal c && word_boundary before (Some c) then
            match numeric_tail c rest with
            | Some k => S (count_numerics (Some c) k rest)
            | None => count_numerics (Some c) 0 rest
            end
          else count_numerics (Some c) 0 rest
      end
  end.

(** The five terms of the score, in the order of the source; each takes the
    score so far. *)

(** [[
    words = s.split()
    length = len(words)
    if 12 <= length <= 40:
        score += 1.0
    elif length > 8:
        score += 0.5
]] *)
Definition length_term (s : str) (score : float) : float :=
  let length := count_words false s in
  if (12 <=? length) && (length <=? 40) then fadd score f1_0
  else if 8 <? length then fadd score f0_5
  else score.

(** [[
    numerics = re.findall(r"\b\d[\d,\.]*\b", s)
    score += min(3.0, 0.3 * len(numerics))
]] *)
Definition numeric_term (s : str) (score : float) : float :=
  let numerics := count_numerics None 0 s in
  fadd score (py_min f3_0 (fmul f0_3 (float_of_nat numerics))).

(** [[
    for _, pat in SECTION_PATTERNS.items():
        if re.search(pat, s, re.I):
            score += 0.7
]] *)
Definition topical_term (s : str) (score : float) : float :=
  fold_left
    (fun score item => if re_search_any_ci (snd item) s then fadd score f0_7 else score)
    SECTION_PATTERNS score.

(** [[
    if re.search(r"yoy|qoq|guidance|margin|dividend|order book|backlog|capex|opex|free cash", s, re.I):
        score += 0.6
]] *)
Definition signal_term (s : str) (score : float) : float :=
  if re_search_any_ci DOMAIN_SIGNALS s then fadd score f0_6 else score.

(** [[
    if re.search(r"forward-looking|statutory|notes to accounts|auditor|secretarial", s, re.I):
        score -= 0.8
]] *)
Definition penalty_term (s : str) (score : float) : float :=
  if re_search_any_ci DISCLAIMER_MARKS s then fsub score f0_8 else score.

(** [[
def _score_sentence(sentence: str) -> float:
    s = sentence
    score = 0.0
    ...
    return score
]] *)
Definition _score_sentence (sentence : str) : float :=
  let s := sentence in
  let score := f0_0 in
  let score := length_term s score in
  let score := numeric_term s score in
  let score := topical_term s score in
  let score := signal_term s score in
  let score := penalty_term s score in
  score.

(* ================================================================== *)
(** * Exceptions *)
(* ================================================================== *)

(** The exceptions the modelled code can raise; [LibraryError] stands for
    whatever a PDF or OCR library raises. *)
Inductive exn : Type :=
| AssertionError
| RuntimeError
| ValueError
| LibraryError.

(** A computation that returns a value or raises. *)
Inductive Exc (A : Type) : Type :=
| Ok (a : A)
| Raise (e : exn).
Arguments Ok {A} a.
Arguments Raise {A} e.

Definition bind {A B : Type} (m : Exc A) (k : A -> Exc B) : Exc B :=
  match m with
  | Ok a => k a
  | Raise e => Raise e
  end.

Notation "x <- m ;; k" := (bind m (fun x => k))
  (at level 100, m at next level, right associativity).

(** [list(range(start, stop, step))] for natural numbers: [ValueError] when
    the step is zero. *)
Definition py_range (start stop step : nat) : Exc (list nat) :=
  if step =? 0 then Raise ValueError
  else Ok (map (fun k => start + k * step)
               (seq 0 ((stop - start + step - 1) / step))).

(** The slice [l[i:j]] for [0 <= i <= j]. *)
Definition slice {A : Type} (l : list A) (i j : nat) : list A :=
  firstn (j - i) (skipn i l).

(* ================================================================== *)
(** * Summarizer: [_pick_top_sentences] and [summarize_text] *)
(* ================================================================== *)

(** [re.sub(r"\W+", " ", s.lower()).strip()], the key of the
    deduplication. *)
Definition dedup_key (s : str) : str :=
  str_strip (re_sub_run isnonword 1 [SPACE] (str_lower s)).

Definition is_empty (s : str) : bool :=
  match s with
  | [] => true
  | _ :: _ => false
  end.

(** One turn of the loop over [sentences]: the state is [(seen, unique)].
[[
        key = re.sub(r"\W+", " ", s.lower()).strip()
        if key and key not in seen:
            unique.append(s)
            seen.add(key)
]] *)
Definition dedup_step (st : gset str * list str) (s : str) : gset str * list str :=
  let '(seen, unique) := st in
  let key := dedup_key s in
  if negb (is_empty key) && negb (bool_decide (key ∈ seen))
  then ({[ key ]} ∪ seen, unique ++ [s])
  else (seen, unique).

(** [[
def _pick_top_sentences(all_text: str, max_sentences: int = 8) -> List[str]:
    sentences = _split_sentences(all_text)
    seen: set[str] = set()
    unique: List[str] = []
    for s in sentences:
        ...
    scored = [(s, _score_sentence(s)) for s in unique]
    scored.sort(key=lambda t: t[1], reverse=True)
    return [s for s, _ in scored[:max_sentences]]
]] *)
Definition _pick_top_sentences (all_text : str) (max_sentences : nat) : list str :=
  let sentences := _split_sentences all_text in
  let '(seen, unique) := fold_left dedup_step sentences (∅, []) in
  let scored := map (fun s => (s, _score_sentence s)) unique in
  let scored := sort_desc snd scored in
  map fst (firstn max_sentences scored).

Record SummaryResult : Type := {
  summary : str;
  key_points : list str
}.

Definition PARAGRAPH : str := [LF; LF].

(** [[
def summarize_text(pages: List[str]) -> Dict[str, Any]:
    if not pages:
        return {"summary": "", "key_points": []}
    chunks: List[str] = []
    size = 3
    for i in range(0, len(pages), size):
        chunks.append("\n\n".join(pages[i : i + size]))

    all_points: List[str] = []
    for chunk in chunks:
        all_points.extend(_pick_top_sentences(chunk, max_sentences=7))

    rescored = [(s, _score_sentence(s)) for s in all_points]
    rescored.sort(key=lambda t: t[1], reverse=True)
    top_points = [s for s, _ in rescored[:12]]

    combined_first = "\n\n".join(chunks[:3]) if chunks else "\n\n".join(pages[:3])
    summary_sentences = _pick_top_sentences(combined_first, max_sentences=8)
    summary = " ".join(summary_sentences)
    return {"summary": summary, "key_points": top_points}
]]
    The first loop appends one chunk for each index of the range; the second
    extends [all_points] by the picks of each chunk, in order. *)
Definition summarize_text (pages : list str) : Exc SummaryResult :=
  match pages with
  | [] => Ok {| summary := []; key_points := [] |}
  | _ :: _ =>
      let size := 3 in
      indices <- py_range 0 (length pages) size ;;
      let chunks := map (fun i => str_join PARAGRAPH (slice pages i (i + size))) indices in
      let all_points := flat_map (fun chunk => _pick_top_sentences chunk 7) chunks in
      let rescored := map (fun s => (s, _score_sentence s)) all_points in
      let rescored := sort_desc snd rescored in
      let top_points := map fst (firstn 12 rescored) in
      let combined_first :=
        match chunks with
        | _ :: _ => str_join PARAGRAPH (firstn 3 chunks)
        | [] => str_join PARAGRAPH (firstn 3 pages)
        end in
      let summary_sentences := _pick_top_sentences combined_first 8 in
      let summary := str_join [SPACE] summary_sentences in
      Ok {| summary := summary; key_points := top_points |}
  end.

(* ================================================================== *)
(** * The outside world: files, PDF libraries, effects *)
(* ================================================================== *)

(** What the program does to the world, in order.  Reading is not recorded;
    the calls of the extraction backends and the writes are. *)
Inductive event : Type :=
| CallNative (path : str)      (* fitz.open(pdf_path) and the pages' get_text *)
| CallOcr (page : nat)         (* get_pixmap, Image.frombytes, image_to_string *)
| CallLayout (path : str)      (* pdfminer's extract_pages(pdf_path) *)
| Makedirs (path : str)        (* os.makedirs(path, exist_ok=True) *)
| WriteFile (path : str).      (* open(path, "w") and the writes into it *)

(** A computation with effects: the events it caused, and its outcome. *)
Definition IO (A : Type) : Type := list event * Exc A.

Definition io_ret {A : Type} (a : A) : IO A := ([], Ok a).
Definition io_raise {A : Type} (e : exn) : IO A := ([], Raise e).
Definition io_emit (ev : event) : IO unit := ([ev], Ok tt).
Definition io_lift {A : Type} (m : Exc A) : IO A := ([], m).

Definition io_bind {A B : Type} (m : IO A) (k : A -> IO B) : IO B :=
  match m with
  | (t1, Ok a) => let '(t2, r) := k a in (t1 ++ t2, r)
  | (t1, Raise e) => (t1, Raise e)
  end.

Notation "x <~ m ;; k" := (io_bind m (fun x => k))
  (at level 100, m at next level, right associativity).

(** [try: m  except Exception: handler]. *)
Definition io_try {A : Type} (m : IO A) (handler : IO A) : IO A :=
  match m with
  | (t1, Ok a) => (t1, Ok a)
  | (t1, Raise _) => let '(t2, r) := handler in (t1 ++ t2, r)
  end.

(** A page of a document opened by PyMuPDF: its text layer, and what the
    OCR of its rendering gives, if it is run. *)
Record NativePage : Type := {
  get_text : str;
  recognize : Exc str
}.

(** An element of a pdfminer layout: a text box or line with its text, or
    something else. *)
Inductive LayoutElement : Type :=
| LTText (text : str)
| LTOther.

(** The file system and the optional libraries.  [fitz] and
    [extract_pages] are [None] when the import failed; [ocr_available] is
    [pytesseract is not None and Image is not None]. *)
Record World : Type := {
  isfile : str -> bool;
  fitz : option (str -> Exc (list NativePage));
  ocr_available : bool;
  extract_pages : option (str -> Exc (list (list LayoutElement)))
}.

(* ================================================================== *)
(** * PageExtractor: [extract_pages_text] *)
(* ================================================================== *)

(** The body of the loop of [_extract_text_pymupdf] for the page number [i].
[[
        raw = page.get_text("text")
        if (not raw or len((raw or "").strip()) < 20) and pytesseract is not None and Image is not None:
            try:
                ...
                ocr_text = pytesseract.image_to_string(img) or ""
                raw = (raw or "").strip() + ("\n" + ocr_text.strip() if ocr_text else "")
            except Exception:
                pass
        cleaned = _strip_headers_footers(_normalize_whitespace(raw or ""))
]] *)
Definition native_page_text (w : World) (i : nat) (page : NativePage) : IO str :=
  let raw := get_text page in
  raw <~ (if (is_empty raw || (length (str_strip raw) <? 20)) && ocr_available w
          then io_try
                 (_ <~ io_emit (CallOcr i) ;;
                  ocr_text <~ io_lift (recognize page) ;;
                  io_ret (str_strip raw ++
                          (if is_empty ocr_text then []
                           else LF :: str_strip ocr_text)))
                 (io_ret raw)
          else io_ret raw) ;;
  io_ret (_strip_headers_footers (_normalize_whitespace raw)).

(** [for page in doc: ... pages.append(cleaned)]. *)
Fixpoint native_pages (w : World) (i : nat) (doc : list NativePage) : IO (list str) :=
  match doc with
  | [] => io_ret []
  | page :: doc' =>
      cleaned <~ native_page_text w i page ;;
      pages <~ native_pages w (S i) doc' ;;
      io_ret (cleaned :: pages)
  end.

(** [[
def _extract_text_pymupdf(pdf_path: str) -> List[str]:
    assert fitz is not None, "PyMuPDF not available"
    doc = fitz.open(pdf_path)
    ...
]] *)
Definition _extract_text_pymupdf (w : World) (pdf_path : str) : IO (list str) :=
  match fitz w with
  | None => io_raise AssertionError
  | Some open_document =>
      _ <~ io_emit (CallNative pdf_path) ;;
      doc <~ io_lift (open_document pdf_path) ;;
      native_pages w 0 doc
  end.

(** The text of one layout: the texts of its text boxes and lines, put
    together, then cleaned. *)
Definition layout_page_text (layout : list LayoutElement) : str :=
  let chunks :=
    flat_map (fun element => match element with
                             | LTText text => [text]
                             | LTOther => []
                             end) layout in
  let raw := str_join [] chunks in
  _strip_headers_footers (_normalize_whitespace raw).

(** [[
def _extract_text_pdfminer(pdf_path: str) -> List[str]:
    assert extract_pages is not None, "pdfminer.six not available"
    pages: List[str] = []
    for layout in extract_pages(pdf_path):
        ...
]] *)
Definition _extract_text_pdfminer (w : World) (pdf_path : str) : IO (list str) :=
  match extract_pages w with
  | None => io_raise AssertionError
  | Some extract =>
      _ <~ io_emit (CallLayout pdf_path) ;;
      layouts <~ io_lift (extract pdf_path) ;;
      io_ret (map layout_page_text layouts)
  end.

Definition is_some {A : Type} (o : option A) : bool :=
  match o with
  | Some _ => true
  | None => false
  end.

Definition no_pages (pages : list str) : bool :=
  match pages with
  | [] => true
  | _ :: _ => false
  end.

(** [[
def extract_pages_text(pdf_path: str) -> List[str]:
    assert os.path.isfile(pdf_path), f"File not found: {pdf_path}"
    pages: List[str] = []
    if fitz is not None:
        try:
            pages = _extract_text_pymupdf(pdf_path)
        except Exception:
            pages = []
    if not pages and extract_pages is not None:
        try:
            pages = _extract_text_pdfminer(pdf_path)
        except Exception:
            pages = []
    if not pages:
        raise RuntimeError("Text extraction failed with both PyMuPDF and pdfminer.six")
    return pages
]]
    The failed [assert] is the error the specification calls
    [NotFoundError], and the [RuntimeError] its [ExtractionFailedError]. *)
Definition extract_pages_text (w : World) (pdf_path : str) : IO (list str) :=
  if negb (isfile w pdf_path) then io_raise AssertionError
  else
    let pages := [] in
    pages <~ (if is_some (fitz w)
              then io_try (_extract_text_pymupdf w pdf_path) (io_ret [])
              else io_ret pages) ;;
    pages <~ (if no_pages pages && is_some (extract_pages w)
              then io_try (_extract_text_pdfminer w pdf_path) (io_ret [])
              else io_ret pages) ;;
    if no_pages pages then io_raise RuntimeError
    else io_ret pages.

(* ================================================================== *)
(** * Pipeline: [run] *)
(* ================================================================== *)

(** [os.path.basename(p)] on POSIX: what follows the last slash. *)
Definition basename (p : str) : str := last (str_split "/"%char p) [].

(** [os.path.splitext(p)[0]] for a name without slash: the name up to its
    last dot, unless only dots stand in front of that dot. *)
Definition splitext_root (p : str) : str :=
  let front := removelast (str_split "."%char p) in
  if existsb (fun piece => negb (is_empty piece)) front
  then str_join (txt ".") front
  else p.

Record RunResult : Type := {
  pdf : str;
  summary_txt : str;
  summary_json : str;
  result : SummaryResult
}.

(** [[
def run(pdf_path: str) -> Dict[str, Any]:
    pages = extract_pages_text(pdf_path)
    res = summarize_text(pages)
    stem = os.path.splitext(os.path.basename(pdf_path))[0]
    os.makedirs(os.path.join("outputs", "summaries"), exist_ok=True)
    txt_path = os.path.join("outputs", "summaries", f"{stem}.summary.txt")
    json_path = os.path.join("outputs", "summaries", f"{stem}.summary.json")
    with open(txt_path, "w", encoding="utf-8") as f:
        ...
    with open(json_path, "w", encoding="utf-8") as f:
        json.dump({"company": stem, **res}, f, ensure_ascii=False, indent=2)
    return {"pdf": pdf_path, "summary_txt": txt_path, "summary_json": json_path, **res}
]]
    The two reports are recorded as writes of their paths; what is written
    into them is left out. *)
Definition run (w : World) (pdf_path : str) : IO RunResult :=
  pages <~ extract_pages_text w pdf_path ;;
  res <~ io_lift (summarize_text pages) ;;
  let stem := splitext_root (basename pdf_path) in
  _ <~ io_emit (Makedirs (txt "outputs/summaries")) ;;
  let txt_path := txt "outputs/summaries/" ++ stem ++ txt ".summary.txt" in
  let json_path := txt "outputs/summaries/" ++ stem ++ txt ".summary.json" in
  _ <~ io_emit (WriteFile txt_path) ;;
  _ <~ io_emit (WriteFile json_path) ;;
  io_ret {| pdf := pdf_path; summary_txt := txt_path;
            summary_json := json_path; result := res |}.

(* ================================================================== *)
(** * Entry point: the command line *)
(* ================================================================== *)



(* ================================================================== *)
(** * Predicates used to state the properties *)
(* ================================================================== *)

(* ------------------------------------------------------------------ *)
(** ** Texts *)
(* ------------------------------------------------------------------ *)

(** A text is clean at its start when it does not begin with a space, and
    clean at its end when it does not end with one. *)
Definition starts_clean (s : str) : Prop :=
  match s with
  | [] => True
  | c :: _ => isspace c = false
  end.

Definition ends_clean (s : str) : Prop := starts_clean (rev s).

(** A page without a visible character. *)
Definition blank (s : str) : Prop := Forall (fun c => isspace c = true) s.

(** Every block of class characters of [s] is shorter than [n]. *)
Definition runs_below (p : ascii -> bool) (n : nat) (s : str) : Prop :=
  forall a r b, s = a ++ r ++ b -> Forall (fun c => p c = true) r -> length r < n.

(** What [_normalize_whitespace] guarantees about its result. *)
Record normalized (s : str) : Prop := {
  norm_no_cr : Forall (fun c => is_char CR c = false) s;
  norm_no_tab : Forall (fun c => is_tab_or_nbsp c = false) s;
  norm_no_triple_lf : runs_below (is_char LF) 3 s;
  norm_starts_clean : starts_clean s;
  norm_ends_clean : ends_clean s
}.

(** A sentence in normal form: its only spaces are single ordinary spaces
    between two other characters. *)
Record Collapsed (s : str) : Prop := {
  collapsed_plain : Forall (fun c => isspace c = true -> c = SPACE) s;
  collapsed_single : runs_below isspace 2 s;
  collapsed_start : starts_clean s;
  collapsed_end : ends_clean s
}.

(** The number of separators of a text. *)
Definition count_char (sep : ascii) (s : str) : nat :=
  length (List.filter (is_char sep) s).

(** The number of lines of a text, [len(text.split("\n"))]. *)
Definition line_count (text : str) : nat := length (str_split LF text).

(** [p] occurs in [s]. *)
Definition Infix (p s : str) : Prop := exists a b, s = a ++ p ++ b.

(** [t] occurs in [s], letter case ignored: [k] is the occurrence. *)
Definition OccursCI (t s : str) : Prop :=
  exists a k b, s = a ++ k ++ b /\ str_lower k = t.

Definition has_term (terms : list str) (s : str) : Prop :=
  exists t, In t terms /\ OccursCI t s.

(* ------------------------------------------------------------------ *)
(** ** Header and footer lines *)
(* ------------------------------------------------------------------ *)

(** The classes of lines that [_strip_headers_footers] treats as
    boilerplate, stated on the shape of the line. *)

(** The lines kept by [_strip_headers_footers] on a page of more than
    eight lines: the top four go when [rt], the bottom four when [rb]. *)
Definition kept_lines (rt rb : bool) (lines : list str) : list str :=
  skipn (if rt then 4 else 0) (firstn (length lines - (if rb then 4 else 0)) lines).

(** A page number: digits, with spaces allowed around them. *)
Definition NumericLine (ln : str) : Prop :=
  exists w1 d w2, ln = w1 ++ d ++ w2
    /\ Forall (fun c => isspace c = true) w1
    /\ d <> [] /\ Forall (fun c => isdecimal c = true) d
    /\ Forall (fun c => isspace c = true) w2.

(** One of the words [ws] stands in the line as a whole word, in any letter
    case: [k] is the occurrence, and there is a word boundary on both of its
    sides ([before] is the character in front of the line, if any). *)
Definition WordIn (ws : list str) (before : option ascii) (ln : str) : Prop :=
  exists a k b, ln = a ++ k ++ b
    /\ In (str_lower k) ws
    /\ word_boundary (last_from before a) (hd_error (k ++ b)) = true
    /\ word_boundary (last_from before (a ++ k)) (hd_error b) = true.

Definition KeywordLine (ln : str) : Prop := WordIn boilerplate_keywords None ln.

Definition UrlLine (ln : str) : Prop :=
  Infix (txt "http://") ln \/ Infix (txt "https://") ln.

(** What the code removes: a line of at most two characters, a page number,
    a keyword line or a line with a URL. *)
Definition Boilerplate (ln : str) : Prop :=
  length ln <= 2 \/ NumericLine ln \/ KeywordLine ln \/ UrlLine ln.

(** The reading of the specification: a line of spaces only counts too. *)
Definition SpecBoilerplate (ln : str) : Prop :=
  Forall (fun c => isspace c = true) ln \/ Boilerplate ln.

(** "If each of the first 4 lines qualifies, the top 4 lines are removed; the
    same test applies independently to the last 4 lines", for the class [Q]
    of qualifying lines: on a page of more than eight lines the result is
    made of the kept lines, and a block that qualifies is not kept. *)
Definition drops_qualifying_blocks (Q : str -> Prop) (text : str) : Prop :=
  let lines := str_split LF text in
  8 < length lines ->
  exists rt rb : bool,
    (Forall Q (firstn 4 lines) -> rt = true)
    /\ (Forall Q (skipn (length lines - 4) lines) -> rb = true)
    /\ _strip_headers_footers text = str_strip (str_join [LF] (kept_lines rt rb lines)).

(* ------------------------------------------------------------------ *)
(** ** Sentence boundaries *)
(* ------------------------------------------------------------------ *)

(** Sentence boundaries, stated on the text.  A boundary is a non-empty run
    of spaces [w] that follows a terminal mark and stands in front of a
    character of the class [ahead]. *)
Definition ends_with_terminal (a : str) : Prop :=
  exists a' t, a = a' ++ [t] /\ is_terminal t = true.

Definition starts_with_class (ahead : ascii -> bool) (b : str) : Prop :=
  exists c b', b = c :: b' /\ ahead c = true.

Definition Gap (w : str) : Prop :=
  w <> [] /\ Forall (fun c => isspace c = true) w.

Definition has_boundary (ahead : ascii -> bool) (s : str) : Prop :=
  exists a w b, s = a ++ w ++ b
    /\ ends_with_terminal a /\ Gap w /\ starts_with_class ahead b.

(** The text ends inside a run of spaces that follows a terminal mark. *)
Definition open_boundary (s : str) : Prop :=
  exists a w, s = a ++ w /\ ends_with_terminal a /\ Gap w.

(** [SplitAt ahead text parts]: [parts] are the pieces of [text] cut at its
    boundaries and at no other place: consecutive pieces are separated by a
    boundary, and no piece holds a boundary. *)
Inductive SplitAt (ahead : ascii -> bool) : str -> list str -> Prop :=
| SplitAt_last (s : str) :
    ~ has_boundary ahead s -> SplitAt ahead s [s]
| SplitAt_cut (a w b : str) (parts : list str) :
    ends_with_terminal a -> Gap w -> starts_with_class ahead b ->
    ~ has_boundary ahead a ->
    SplitAt ahead b parts ->
    SplitAt ahead (a ++ w ++ b) (a :: parts).

(** The state of the scanner [split_scan]: the piece read so far holds no
    boundary; with no run open it does not end inside one, and an open run
    is made of spaces and follows a terminal mark. *)
Definition scan_inv (ahead : ascii -> bool) (part gap : str) : Prop :=
  ~ has_boundary ahead part
  /\ match gap with
     | [] => ~ open_boundary part
     | _ :: _ => Forall (fun c => isspace c = true) gap /\ ends_with_terminal part
     end.

(** The look-ahead class as the specification words it: an uppercase letter,
    a digit or an opening parenthesis. *)
Definition spec_sentence_start (c : ascii) : bool :=
  in_range 65 90 c || isdecimal c || is_char "("%char c.

(** "[_split_sentences] cuts the text exactly at the boundaries of the class
    [ahead], cleans each piece and drops the pieces shorter than 30
    characters." *)
Definition segments_at (ahead : ascii -> bool) (text : str) : Prop :=
  exists parts,
    SplitAt ahead text parts
    /\ _split_sentences text
       = List.filter (fun s => 30 <=? length s) (map clean_sentence parts).

(* ------------------------------------------------------------------ *)
(** ** Floating-point numbers and scores *)
(* ------------------------------------------------------------------ *)

(** Classes of floating-point numbers. *)
Definition is_nan (x : float) : bool :=
  match x with
  | S754_nan => true
  | _ => false
  end.

Definition is_finite (x : float) : bool :=
  match x with
  | S754_zero _ | S754_finite _ _ _ => true
  | _ => false
  end.

(** The place of a number on the line of the floats that are no NaN: its
    class (infinities outside, zeros in the middle), then exponent and
    mantissa, read downwards for the negative numbers. *)
Definition rank (x : float) : Z * Z * Z :=
  match x with
  | S754_zero _ => (0, 0, 0)%Z
  | S754_infinity s => (if s then -2 else 2, 0, 0)%Z
  | S754_nan => (0, 0, 0)%Z
  | S754_finite s m e => if s then (-1, - e, - Zpos m)%Z else (1, e, Zpos m)%Z
  end.

Definition lex_compare (p q : Z * Z * Z) : comparison :=
  let '(a, b, c) := p in
  let '(a', b', c') := q in
  match (a ?= a')%Z with
  | Eq => match (b ?= b')%Z with
          | Eq => (c ?= c')%Z
          | r => r
          end
  | r => r
  end.

(** [x] does not come after [y] in a list sorted by decreasing key: the key
    of [y] is at most the key of [x]. *)
Definition key_ge {A : Type} (key : A -> float) (x y : A) : Prop :=
  fleb (key y) (key x) = true.

(** A list of sentences is sorted non-increasing by score. *)
Definition sorted_by_score (l : list str) : Prop :=
  StronglySorted (key_ge _score_sentence) l.

(** The finance-operational terms as the specification spells them. *)
Definition spec_domain_terms : list str :=
  map txt ["year-over-year"; "quarter-over-quarter"; "guidance"; "margin";
           "dividend"; "order book"; "backlog"; "capital expenditure";
           "operating expenditure"; "free cash flow"]%string.

(** The score of a sentence before the domain-signal term: the length, the
    numeric and the topical terms. *)
Definition score_before_signal (s : str) : float :=
  topical_term s (numeric_term s (length_term s f0_0)).

(** The score of [s] has the domain-signal term in it: it is the score of
    the earlier terms plus 0.6, followed by the penalty term. *)
Definition adds_signal_term (s : str) : Prop :=
  _score_sentence s = penalty_term s (fadd (score_before_signal s) f0_6).

(* ------------------------------------------------------------------ *)
(** ** Summaries *)
(* ------------------------------------------------------------------ *)

Definition str_eq_dec : forall a b : str, {a = b} + {a <> b} :=
  list_eq_dec ascii_dec.

(** The number of entries of [l] whose deduplication key is [k]. *)
Definition key_count (k : str) (l : list str) : nat :=
  count_occ str_eq_dec (map dedup_key l) k.

(** The chunks of [summarize_text]: groups of three consecutive pages, each
    joined by a blank line. *)
Definition chunk_count (pages : list str) : nat := (length pages + 2) / 3.

(** The decorate, sort, cut, undecorate of the source on a list of
    sentences: [[s for s, _ in sorted(((s, score(s)) ...), reverse)[:n]]]. *)
Definition top_by_score (n : nat) (l : list str) : list str :=
  map fst (firstn n (sort_desc snd (map (fun s => (s, _score_sentence s)) l))).

(** The list [unique] at the end of the loop of [_pick_top_sentences]. *)
Definition unique_sentences (all_text : str) : list str :=
  snd (fold_left dedup_step (_split_sentences all_text) (∅, [])).

(** The state of the deduplication loop: [seen] holds the keys of
    [unique], which are pairwise different and not empty. *)
Definition dedup_inv (st : gset str * list str) : Prop :=
  (forall k, k ∈ fst st <-> In k (map dedup_key (snd st)))
  /\ NoDup (map dedup_key (snd st))
  /\ Forall (fun s => dedup_key s <> []) (snd st).

(** The chunks of [summarize_text]. *)
Definition chunks_of (pages : list str) : list str :=
  map (fun i => str_join PARAGRAPH (slice pages i (i + 3)))
      (map (fun k => 0 + k * 3) (seq 0 ((length pages - 0 + 3 - 1) / 3))).

(** The text the summary is drawn from: the first three chunks. *)
Definition lead_text (pages : list str) : str :=
  str_join PARAGRAPH (firstn 3 (chunks_of pages)).

(** The result of [summarize_text], written with the helpers above. *)
Definition summarized (pages : list str) : SummaryResult :=
  {| summary := str_join [SPACE] (_pick_top_sentences (lead_text pages) 8);
     key_points :=
       top_by_score 12
         (flat_map (fun chunk => _pick_top_sentences chunk 7) (chunks_of pages)) |}.

Definition empty_result : SummaryResult := {| summary := []; key_points := [] |}.

(** C1 as stated: at most 12 key points, sorted by score, with pairwise
    different keys. *)
Definition key_points_distinct (pages : list str) : Prop :=
  forall r, summarize_text pages = Ok r ->
    length (key_points r) <= 12
    /\ sorted_by_score (key_points r)
    /\ NoDup (map dedup_key (key_points r)).

(** C2 as stated: the summary is empty exactly for the empty page list. *)
Definition summary_empty_iff_no_pages (pages : list str) : Prop :=
  forall r, summarize_text pages = Ok r -> (summary r = [] <-> pages = []).

(* ------------------------------------------------------------------ *)
(** ** Inputs of the examples *)
(* ------------------------------------------------------------------ *)

(** A page of three lines that look like a header, some content and a page
    number. *)
Definition short_page : str :=
  txt "CONFIDENTIAL" ++ LF :: txt "Revenue grew." ++ LF :: txt "12".

(** A page of nine lines whose first line is three spaces and whose next
    three lines are page numbers; the five lines of content follow. *)
Definition blank_header_page : str :=
  str_join [LF]
    [txt "   "; txt "1"; txt "2"; txt "3"; txt "Alpha beta"; txt "Gamma delta";
     txt "Epsilon zeta"; txt "Eta theta"; txt "Iota kappa"].

(** A page of ten lines with a header block of boilerplate and an ordinary
    last block. *)
Definition header_page : str :=
  str_join [LF]
    [txt "CONFIDENTIAL"; txt "Annual Report 2023"; txt "see https://example.com";
     txt "  7 "; txt "Alpha beta"; txt "Gamma delta"; txt "Epsilon zeta";
     txt "Eta theta"; txt "Iota kappa"; txt "Lambda mu"].

(** Two sentences around a closing parenthesis. *)
Definition paren_text : str :=
  txt "The first sentence of the page ends here. ) and the second one goes on to the end".

Definition yoy_sentence : str :=
  txt "Sales rose on a year-over-year basis across the whole product range this quarter.".

Definition capex_sentence : str :=
  txt "Capex for the year was 120 million, in line with the guidance we gave in March.".

(** A sentence that stands on the first and on the fourth page. *)
Definition repeated_sentence : str :=
  txt "Revenue grew 12% to 450 million, driven by strong demand in core markets.".

Definition repeated_pages : list str :=
  [repeated_sentence; []; []; repeated_sentence].

(** One chunk: the same page three times. *)
Definition three_pages : list str :=
  [repeated_sentence; repeated_sentence; repeated_sentence].

(** Three pages without a visible character: an empty one, one of spaces
    and one of line ends. *)
Definition blank_pages : list str := [[]; txt "   "; [LF; LF]].

(** A world with one PDF, no PyMuPDF and a pdfminer that reads one page. *)
Definition report_pdf : str := txt "reports/acme.2023.pdf".

Definition missing_pdf : str := txt "reports/missing.pdf".

Definition sample_world : World :=
  {| isfile := fun p => if str_eq_dec p report_pdf then true else false;
     fitz := None;
     ocr_available := false;
     extract_pages := Some (fun _ => Ok [[LTText repeated_sentence; LTOther]]) |}.

(* ------------------------------------------------------------------ *)
(** ** Visible characters *)
(* ------------------------------------------------------------------ *)

(** The characters of a text that are no spaces, in their order. *)
Definition visible (s : str) : str := List.filter (fun c => negb (isspace c)) s.

(** A text without carriage return, tab or no-break space. *)
Definition plain_spaces (s : str) : Prop :=
  Forall (fun c => is_char CR c = false /\ is_tab_or_nbsp c = false) s.

(** A text with a visible character at both of its ends. *)
Definition has_core (t : str) : Prop := t <> [] /\ starts_clean t /\ ends_clean t.

(** A text with two ordinary spaces in a row inside and spaces around. *)
Definition spaced_text : str := txt "  Total  income " ++ [LF; LF] ++ txt "rose  ".

(** A heading of two lines without a terminal mark. *)
Definition heading_text : str :=
  txt "  Management discussion" ++ [LF] ++ txt "and   analysis of Results 2023 ".

(* ------------------------------------------------------------------ *)
(** ** Orders of lists *)
(* ------------------------------------------------------------------ *)

(** [a] stands before [b] in [l]. *)
Definition before {A : Type} (a b : A) (l : list A) : Prop :=
  exists l1 l2 l3, l = l1 ++ a :: l2 ++ b :: l3.

(** Three sentences: the first and the third have the same score, the
    second a higher one. *)
Definition costs_sentence : str := txt "Costs fell to 11 million in the second half.".
Definition profit_sentence : str := txt "Profit rose to 12 million in the first half.".
Definition sales_sentence : str := txt "Sales fell to 10 thousand in the third week.".

Definition tie_text : str :=
  costs_sentence ++ txt " " ++ profit_sentence ++ txt " " ++ sales_sentence.

(** A report of four pages with fourteen sentences: seven about the board
    on the first page, seven about revenue on the fourth. *)
Definition board_sentence (d : ascii) : str :=
  txt "The board noted item " ++ [d] ++ txt " in the minutes of its meeting.".

Definition unit_sentence (d : ascii) : str :=
  txt "Revenue of unit " ++ [d] ++ txt " grew during the whole of the year.".

Definition seven_digits : list ascii := ["1"; "2"; "3"; "4"; "5"; "6"; "7"]%char.

Definition board_page : str := str_join [SPACE] (map board_sentence seven_digits).

Definition unit_page : str := str_join [SPACE] (map unit_sentence seven_digits).

Definition long_report : list str := [board_page; []; []; unit_page].

(** Ten pages, and the same with another tenth page. *)
Definition ten_pages (last : str) : list str :=
  [repeated_sentence; []; []; []; []; []; []; []; []; last].

(* ------------------------------------------------------------------ *)
(** ** Extraction *)
(* ------------------------------------------------------------------ *)

(** The cleaning of a page, [_strip_headers_footers(_normalize_whitespace(raw))]. *)
Definition cleaned_page (raw : str) : str :=
  _strip_headers_footers (_normalize_whitespace raw).

(** A page whose text layer is short enough for the OCR to be tried. *)
Definition short_text_layer (page : NativePage) : Prop :=
  length (str_strip (get_text page)) < 20.


Definition is_ocr_event (ev : event) : Prop :=
  match ev with
  | CallOcr _ => True
  | _ => False
  end.

(** A scanned page: no text layer, and an OCR that reads a sentence; and a
    page with a text layer. *)
Definition scanned_page : NativePage :=
  {| get_text := txt "  "; recognize := Ok repeated_sentence |}.

Definition text_page : NativePage :=
  {| get_text := capex_sentence; recognize := Raise LibraryError |}.

(** A page on which the OCR fails. *)
Definition unreadable_page : NativePage :=
  {| get_text := txt " Fig. 1 "; recognize := Raise LibraryError |}.

(** A world with PyMuPDF, OCR and pdfminer, and one PDF of two pages. *)
Definition full_world : World :=
  {| isfile := fun p => if str_eq_dec p report_pdf then true else false;
     fitz := Some (fun _ => Ok [text_page; scanned_page]);
     ocr_available := true;
     extract_pages := Some (fun _ => Ok [[LTText repeated_sentence]]) |}.


(** What [run] returns in [sample_world] for the PDF that is there. *)
Definition sample_run_result : RunResult :=
  {| pdf := report_pdf;
     summary_txt := txt "outputs/summaries/acme.2023.summary.txt";
     summary_json := txt "outputs/summaries/acme.2023.summary.json";
     result := {| summary := repeated_sentence; key_points := [repeated_sentence] |} |}.

Definition sample_run_events : list event :=
  [CallLayout report_pdf;
   Makedirs (txt "outputs/summaries");
   WriteFile (txt "outputs/summaries/acme.2023.summary.txt");
   WriteFile (txt "outputs/summaries/acme.2023.summary.json")].

(* ------------------------------------------------------------------ *)
(** ** The values of the score *)
(* ------------------------------------------------------------------ *)

(** The numeric term for [k] numbers, [min(3.0, 0.3 * k)]. *)
Definition numeric_value (k : nat) : float := py_min f3_0 (fmul f0_3 (float_of_nat k)).

(** The scores in [l], each without and with the term [add]. *)
Definition with_option (add : float -> float) (l : list float) : list float :=
  l ++ map add l.

(** The values a score can take: one of three length terms, the numeric
    term for 0 to 10 numbers, then each of the three topical terms, the
    signal term and the penalty, taken or not. *)
Definition possible_scores : list float :=
  let after_length := [f0_0; fadd f0_0 f1_0; fadd f0_0 f0_5] in
  let after_numeric :=
    flat_map (fun x => map (fun k => fadd x (numeric_value k)) (seq 0 11))
             after_length in
  let after_topical :=
    with_option (fun x => fadd x f0_7)
      (with_option (fun x => fadd x f0_7)
         (with_option (fun x => fadd x f0_7) after_numeric)) in
  let after_signal := with_option (fun x => fadd x f0_6) after_topical in
  with_option (fun x => fsub x f0_8) after_signal.

(** A sentence with every bonus and no penalty, and one with the penalty
    only. *)
Definition best_sentence : str :=
  txt "Revenue growth risk margin 1 2 3 4 5 6 7 8 9 10 units".

Definition worst_sentence : str := txt "auditor".

(* ================================================================== *)
(** * Part II: properties of the embedding *)
(* ================================================================== *)

(* ------------------------------------------------------------------ *)
(** ** Facts about the runtime: characters, [strip], runs *)
(* ------------------------------------------------------------------ *)

Lemma is_char_true (d c : ascii) : is_char d c = true <-> c = d.
Proof. unfold is_char. apply Ascii.eqb_eq. Qed.

Lemma is_char_false (d c : ascii) : is_char d c = false <-> c <> d.
Proof. unfold is_char. apply Ascii.eqb_neq. Qed.

(** [drop_class] removes a prefix of class characters and stops in front of
    a character outside the class. *)
Lemma drop_class_prefix (p : ascii -> bool) (s : str) :
  exists w, s = w ++ drop_class p s /\ Forall (fun c => p c = true) w.
Proof.
  induction s as [|c s (w & Hs & Hw)]; simpl.
  - exists []. split; [reflexivity | constructor].
  - destruct (p c) eqn:E.
    + exists (c :: w). split; [simpl; f_equal; exact Hs | constructor; assumption].
    + exists []. split; [reflexivity | constructor].
Qed.

Lemma drop_class_head (p : ascii -> bool) (s : str) :
  match drop_class p s with
  | [] => True
  | c :: _ => p c = false
  end.
Proof.
  induction s as [|c s IH]; simpl; [exact I|].
  destruct (p c) eqn:E; [exact IH | exact E].
Qed.

Lemma drop_class_app (p : ascii -> bool) (w s : str) :
  Forall (fun c => p c = true) w ->
  match s with [] => True | c :: _ => p c = false end ->
  drop_class p (w ++ s) = s.
Proof.
  intros Hw Hs. induction Hw as [|c w E _ IH]; simpl.
  - destruct s as [|c s]; [reflexivity | simpl; now rewrite Hs].
  - now rewrite E.
Qed.

Lemma lstrip_starts_clean (s : str) : starts_clean (str_lstrip s).
Proof. apply (drop_class_head isspace). Qed.

Lemma lstrip_clean_id (s : str) : starts_clean s -> str_lstrip s = s.
Proof. intros H. apply (drop_class_app isspace [] s); [constructor | exact H]. Qed.

(** [lstrip] removes a prefix of spaces. *)
Lemma lstrip_suffix (s : str) :
  exists w, s = w ++ str_lstrip s /\ Forall (fun c => isspace c = true) w.
Proof. apply (drop_class_prefix isspace). Qed.

Lemma starts_clean_app (s t : str) :
  s <> [] -> starts_clean (s ++ t) -> starts_clean s.
Proof. destruct s; simpl; [congruence | auto]. Qed.

Lemma lstrip_ends_clean (s : str) : ends_clean s -> ends_clean (str_lstrip s).
Proof.
  unfold ends_clean. intros H.
  destruct (lstrip_suffix s) as (w & Hs & _).
  destruct (str_lstrip s) as [|c t] eqn:E; [exact I|].
  rewrite Hs, rev_app_distr in H.
  apply starts_clean_app with (t := rev w); [|exact H].
  simpl. destruct (rev t); discriminate.
Qed.

Lemma rstrip_ends_clean (s : str) : ends_clean (str_rstrip s).
Proof.
  unfold ends_clean, str_rstrip. rewrite rev_involutive. apply lstrip_starts_clean.
Qed.

Lemma rstrip_clean_id (s : str) : ends_clean s -> str_rstrip s = s.
Proof.
  unfold ends_clean, str_rstrip. intros H.
  rewrite (lstrip_clean_id _ H). apply rev_involutive.
Qed.

Lemma rstrip_starts_clean (s : str) : starts_clean s -> starts_clean (str_rstrip s).
Proof.
  intros H. pose proof (lstrip_ends_clean (rev s)) as L.
  unfold ends_clean in L. rewrite rev_involutive in L. exact (L H).
Qed.

Lemma strip_clean (s : str) :
  starts_clean (str_strip s) /\ ends_clean (str_strip s).
Proof.
  unfold str_strip. split.
  - apply rstrip_starts_clean, lstrip_starts_clean.
  - apply rstrip_ends_clean.
Qed.

Lemma strip_clean_id (s : str) : starts_clean s -> ends_clean s -> str_strip s = s.
Proof.
  intros Hs He. unfold str_strip.
  rewrite (lstrip_clean_id _ Hs). apply rstrip_clean_id, He.
Qed.

Lemma strip_idempotent (s : str) : str_strip (str_strip s) = str_strip s.
Proof. destruct (strip_clean s). apply strip_clean_id; assumption. Qed.

(** [strip] keeps a block of the text: it drops spaces at both ends. *)
Lemma strip_infix (s : str) :
  exists a b, s = a ++ str_strip s ++ b
              /\ Forall (fun c => isspace c = true) a
              /\ Forall (fun c => isspace c = true) b.
Proof.
  destruct (lstrip_suffix s) as (a & Hs & Ha).
  destruct (lstrip_suffix (rev (str_lstrip s))) as (w & Hr & Hw).
  exists a, (rev w). repeat split; [|exact Ha|apply Forall_rev, Hw].
  unfold str_strip, str_rstrip.
  rewrite <- rev_app_distr, <- Hr, rev_involutive. exact Hs.
Qed.

Lemma runs_below_infix (p : ascii -> bool) (n : nat) (a s b : str) :
  runs_below p n (a ++ s ++ b) -> runs_below p n s.
Proof.
  intros H a' r b' -> Hr. apply (H (a ++ a') r (b' ++ b)); [|exact Hr].
  now rewrite <- !app_assoc.
Qed.

Lemma runs_below_nil (p : ascii -> bool) (n : nat) : 0 < n -> runs_below p n [].
Proof.
  intros Hn a r b E Hr. symmetry in E.
  apply app_eq_nil in E as [_ E]. apply app_eq_nil in E as [-> _]. exact Hn.
Qed.

Lemma runs_below_short (p : ascii -> bool) (n : nat) (s : str) :
  length s < n -> runs_below p n s.
Proof.
  intros Hs a r b -> _. rewrite !length_app in Hs. lia.
Qed.

(** A block of class characters that starts a text cut by a character
    outside the class lies before the cut. *)
Lemma class_prefix_before_cut (p : ascii -> bool) (r b A B : str) (c : ascii) :
  r ++ b = A ++ c :: B -> Forall (fun x => p x = true) r -> p c = false ->
  exists b', A = r ++ b'.
Proof.
  revert A. induction r as [|x r IH]; intros A E Hr Hc.
  - exists A. reflexivity.
  - destruct A as [|y A]; simpl in E; injection E as -> E.
    + inversion Hr; congruence.
    + inversion Hr; subst. destruct (IH A E) as (b' & ->); auto.
      exists b'. reflexivity.
Qed.

Lemma runs_below_cut (p : ascii -> bool) (n : nat) (A B : str) (c : ascii) :
  runs_below p n A -> p c = false -> runs_below p n B ->
  runs_below p n (A ++ c :: B).
Proof.
  revert A. intros A HA Hc HB a. revert A HA.
  induction a as [|y a IH]; intros A HA r b E Hr.
  - simpl in E. symmetry in E.
    destruct (class_prefix_before_cut p r b A B c E Hr Hc) as (b' & ->).
    apply (HA [] r b'); [reflexivity | exact Hr].
  - destruct A as [|x A]; simpl in E; injection E as <- E.
    + apply (HB a r b E Hr).
    + eapply (IH A); [|exact E|exact Hr].
      intros a' r' b' -> Hr'. apply (HA (x :: a') r' b'); [reflexivity | exact Hr'].
Qed.

Lemma runs_below_one (p : ascii -> bool) (s : str) :
  runs_below p 1 s <-> Forall (fun c => p c = false) s.
Proof.
  split.
  - induction s as [|c s IH]; intros H; constructor.
    + destruct (p c) eqn:E; [|reflexivity].
      specialize (H [] [c] s eq_refl). simpl in H.
      assert (1 < 1) by (apply H; constructor; [exact E | constructor]). lia.
    + apply IH. apply (runs_below_infix p 1 [c] s []). now rewrite app_nil_r.
  - intros H a r b -> Hr. apply Forall_app in H as [_ H].
    apply Forall_app in H as [H _].
    destruct r as [|x r]; simpl; [lia|].
    inversion H; inversion Hr; congruence.
Qed.

Section SubRun.
Variable p : ascii -> bool.
Variable least : nat.
Variable rep : str.

Lemma flush_run_id (run : str) :
  runs_below p least run -> Forall (fun c => p c = true) run ->
  flush_run least rep run = run.
Proof.
  intros H Hrun. destruct run as [|c run]; [reflexivity|].
  unfold flush_run. destruct (Nat.leb_spec least (length (c :: run))) as [L|L];
    [|reflexivity].
  specialize (H [] (c :: run) [] ltac:(now rewrite app_nil_r) Hrun). lia.
Qed.

(** A text whose class runs are all too short is left as it is. *)
Lemma sub_run_id (s run : str) :
  Forall (fun c => p c = true) run -> runs_below p least (run ++ s) ->
  sub_run p least rep run s = run ++ s.
Proof.
  revert run. induction s as [|c s IH]; intros run Hrun H; simpl.
  - rewrite app_nil_r in *. apply flush_run_id; assumption.
  - destruct (p c) eqn:E.
    + rewrite IH.
      * now rewrite <- app_assoc.
      * apply Forall_app. split; [exact Hrun | constructor; [exact E | constructor]].
      * now rewrite <- app_assoc.
    + rewrite flush_run_id; [| |exact Hrun].
      * f_equal. f_equal. apply (IH []); [constructor|].
        apply (runs_below_infix p least (run ++ [c]) s []).
        rewrite app_nil_r, <- app_assoc. exact H.
      * apply (runs_below_infix p least [] run (c :: s)). exact H.
Qed.

Lemma flush_run_below (n : nat) (run : str) :
  0 < n -> least <= n -> runs_below p n rep ->
  runs_below p n (flush_run least rep run).
Proof.
  intros Hn Hl Hrep. destruct run as [|c run]; [apply runs_below_nil, Hn|].
  unfold flush_run. destruct (Nat.leb_spec least (length (c :: run))) as [L|L].
  - exact Hrep.
  - apply runs_below_short. lia.
Qed.

(** After the substitution every class run is shorter than [n], for each
    [n] from [least] on that bounds the runs of the replacement. *)
Lemma sub_run_below (n : nat) (s run : str) :
  0 < n -> least <= n -> runs_below p n rep ->
  runs_below p n (sub_run p least rep run s).
Proof.
  intros Hn Hl Hrep. revert run. induction s as [|c s IH]; intros run; simpl.
  - apply flush_run_below; assumption.
  - destruct (p c) eqn:E; [apply IH|].
    apply runs_below_cut; [apply flush_run_below; assumption | exact E | apply IH].
Qed.

(** With [least <= 1] every class character is replaced: what is written is
    a character of the text outside the class or a character of [rep]. *)
Lemma sub_run_replaced (Q : ascii -> Prop) (s run : str) :
  least <= 1 -> Forall Q rep -> (forall c, p c = false -> Q c) ->
  Forall Q (sub_run p least rep run s).
Proof.
  intros Hl Hrep HQ. revert run.
  assert (F : forall run, Forall Q (flush_run least rep run)).
  { intros [|c run]; [constructor|]. unfold flush_run.
    destruct (Nat.leb_spec least (length (c :: run))) as [L|L];
      [exact Hrep | simpl in L; lia]. }
  induction s as [|c s IH]; intros run; simpl; [apply F|].
  destruct (p c) eqn:E; [apply IH|].
  apply Forall_app. split; [apply F|]. constructor; [now apply HQ | apply IH].
Qed.

(** The substitution only writes characters of the text or of [rep]. *)
Lemma sub_run_Forall (Q : ascii -> Prop) (s run : str) :
  Forall Q rep -> Forall Q run -> Forall Q s ->
  Forall Q (sub_run p least rep run s).
Proof.
  intros Hrep. revert run. induction s as [|c s IH]; intros run Hrun Hs; simpl.
  - unfold flush_run. destruct run; [constructor|].
    destruct (least <=? _); assumption.
  - inversion Hs; subst. destruct (p c).
    + apply IH; [|assumption]. apply Forall_app. split; [assumption|].
      constructor; [assumption | constructor].
    + apply Forall_app. split.
      * unfold flush_run. destruct run; [constructor|].
        destruct (least <=? _); assumption.
      * constructor; [assumption|]. apply IH; [constructor | assumption].
Qed.

End SubRun.

(** [sub_crlf] leaves no CR, and leaves a text without CR as it is. *)
Lemma sub_crlf_no_cr (s : str) :
  Forall (fun c => is_char CR c = false) (sub_crlf s).
Proof.
  assert (H : forall n s, length s <= n ->
            Forall (fun c => is_char CR c = false) (sub_crlf s)).
  { induction n as [|n IH]; intros [|c t] L; simpl in *; try constructor; try lia.
    destruct (is_char CR c) eqn:E.
    - constructor; [reflexivity|].
      destruct t as [|c' t']; [constructor|].
      destruct (is_char LF c'); apply IH; simpl in *; lia.
    - constructor; [exact E|]. apply IH. lia. }
  apply (H (length s)). lia.
Qed.

Lemma sub_crlf_id (s : str) :
  Forall (fun c => is_char CR c = false) s -> sub_crlf s = s.
Proof.
  induction 1 as [|c t E _ IH]; simpl; [reflexivity|].
  rewrite E. f_equal. exact IH.
Qed.

Lemma Forall_infix (Q : ascii -> Prop) (a s b : str) :
  Forall Q (a ++ s ++ b) -> Forall Q s.
Proof.
  intros H. apply Forall_app in H as [_ H]. now apply Forall_app in H as [H _].
Qed.

Lemma normalize_whitespace_normalized (text : str) :
  normalized (_normalize_whitespace text).
Proof.
  unfold _normalize_whitespace, re_sub_run.
  set (t1 := sub_crlf text).
  set (t2 := sub_run is_tab_or_nbsp 1 [SPACE] [] t1).
  set (t3 := sub_run (is_char LF) 3 [LF; LF] [] t2).
  assert (H1 : Forall (fun c => is_char CR c = false) t1) by apply sub_crlf_no_cr.
  assert (H2 : Forall (fun c => is_char CR c = false) t2).
  { apply sub_run_Forall; [repeat constructor | constructor | exact H1]. }
  assert (H2' : Forall (fun c => is_tab_or_nbsp c = false) t2).
  { apply runs_below_one, sub_run_below; [lia | lia |].
    apply runs_below_one. repeat constructor. }
  assert (H3 : Forall (fun c => is_char CR c = false) t3).
  { apply sub_run_Forall; [repeat constructor | constructor | exact H2]. }
  assert (H3' : Forall (fun c => is_tab_or_nbsp c = false) t3).
  { apply sub_run_Forall; [repeat constructor | constructor | exact H2']. }
  assert (H3'' : runs_below (is_char LF) 3 t3).
  { apply sub_run_below; [lia | lia |]. apply runs_below_short. simpl. lia. }
  destruct (strip_infix t3) as (a & b & E & _ & _).
  destruct (strip_clean t3) as [Hs He].
  rewrite E in H3, H3', H3''.
  split; try assumption.
  - eapply Forall_infix, H3.
  - eapply Forall_infix, H3'.
  - eapply runs_below_infix, H3''.
Qed.

(** A normalized text is a fixed point of [_normalize_whitespace]. *)
Lemma normalize_whitespace_fixed (s : str) :
  normalized s -> _normalize_whitespace s = s.
Proof.
  intros [H1 H2 H3 H4 H5]. unfold _normalize_whitespace, re_sub_run.
  rewrite (sub_crlf_id s H1).
  rewrite (sub_run_id is_tab_or_nbsp 1 [SPACE] s []);
    [|constructor | apply runs_below_one, H2]. simpl.
  rewrite (sub_run_id (is_char LF) 3 [LF; LF] s []); [|constructor | exact H3].
  simpl. apply strip_clean_id; assumption.
Qed.

(* ------------------------------------------------------------------ *)
(** ** Claim C7 *)
(* ------------------------------------------------------------------ *)

(** C7. For every raw text [x], [_normalize_whitespace] is idempotent:
    normalizing a normalized text changes nothing. *)
Theorem normalize_whitespace_idempotent (x : str) :
  _normalize_whitespace (_normalize_whitespace x) = _normalize_whitespace x.
Proof.
  apply normalize_whitespace_fixed, normalize_whitespace_normalized.
Qed.

(* ------------------------------------------------------------------ *)
(** ** Lines: [split] and [join] *)
(* ------------------------------------------------------------------ *)

Lemma split_length (sep : ascii) (s : str) :
  length (str_split sep s) = S (count_char sep s).
Proof.
  unfold count_char. induction s as [|c s IH]; simpl; [reflexivity|].
  destruct (is_char sep c); simpl; [now rewrite IH|].
  destruct (str_split sep s); simpl in *; [discriminate | exact IH].
Qed.

Lemma count_char_app (sep : ascii) (a b : str) :
  count_char sep (a ++ b) = count_char sep a + count_char sep b.
Proof. unfold count_char. now rewrite List.filter_app, length_app. Qed.

Lemma count_char_cons (sep c : ascii) (s : str) :
  count_char sep (c :: s) = (if is_char sep c then 1 else 0) + count_char sep s.
Proof. unfold count_char. simpl. destruct (is_char sep c); reflexivity. Qed.

(** The pieces of a split hold no separator. *)
Lemma split_pieces (sep : ascii) (s : str) :
  Forall (fun p => count_char sep p = 0) (str_split sep s).
Proof.
  induction s as [|c s IH]; simpl.
  - repeat constructor.
  - destruct (is_char sep c) eqn:E.
    + constructor; [reflexivity | exact IH].
    + destruct (str_split sep s) as [|p ps].
      * repeat constructor. now rewrite count_char_cons, E.
      * inversion IH; subst. constructor; [|assumption].
        now rewrite count_char_cons, E.
Qed.

Lemma count_char_join (ls : list str) :
  Forall (fun p => count_char LF p = 0) ls ->
  count_char LF (str_join [LF] ls) = length ls - 1.
Proof.
  induction 1 as [|p ps Hp Hps IH]; [reflexivity|].
  destruct ps as [|q ps]; [simpl; lia|].
  change (str_join [LF] (p :: q :: ps)) with (p ++ LF :: str_join [LF] (q :: ps)).
  rewrite count_char_app, count_char_cons, Hp, IH. simpl. lia.
Qed.

Lemma count_char_strip (sep : ascii) (s : str) :
  count_char sep (str_strip s) <= count_char sep s.
Proof.
  destruct (strip_infix s) as (a & b & E & _).
  rewrite E at 2. rewrite !count_char_app. lia.
Qed.

(** Joining some lines and stripping the result gives at most as many lines,
    and at least one. *)
Lemma strip_join_line_count (ls : list str) :
  Forall (fun p => count_char LF p = 0) ls ->
  line_count (str_strip (str_join [LF] ls)) <= Nat.max 1 (length ls).
Proof.
  intros H. unfold line_count. rewrite split_length.
  pose proof (count_char_strip LF (str_join [LF] ls)) as L.
  rewrite (count_char_join ls H) in L. lia.
Qed.

(* ------------------------------------------------------------------ *)
(** ** [_strip_headers_footers]: short pages and the line count *)
(* ------------------------------------------------------------------ *)

Lemma strip_headers_footers_short (text : str) :
  line_count text <= 8 -> _strip_headers_footers text = text.
Proof.
  unfold line_count, _strip_headers_footers, HEADER_FOOTER_MAX_LINES. intros H.
  destruct (Nat.leb_spec (length (str_split LF text)) (4 * 2)); [reflexivity | lia].
Qed.

(** On a longer page the result is the kept lines, joined and stripped; the
    two blocks are tested on the lines of the page as it came in. *)
Lemma strip_headers_footers_long (text : str) :
  let lines := str_split LF text in
  8 < length lines ->
  _strip_headers_footers text =
  str_strip (str_join [LF]
    (kept_lines (forallb removable_line (firstn 4 lines))
                (forallb removable_line (skipn (length lines - 4) lines))
                lines)).
Proof.
  intros lines Hlen. unfold _strip_headers_footers, HEADER_FOOTER_MAX_LINES.
  fold lines. destruct (Nat.leb_spec (length lines) (4 * 2)) as [L|_]; [lia|].
  unfold kept_lines.
  destruct (forallb removable_line (firstn 4 lines));
    destruct (forallb removable_line (skipn (length lines - 4) lines)).
  - rewrite skipn_firstn_comm, length_skipn. reflexivity.
  - rewrite Nat.sub_0_r, firstn_all. reflexivity.
  - reflexivity.
  - rewrite Nat.sub_0_r, firstn_all. reflexivity.
Qed.

Lemma kept_lines_length (rt rb : bool) (lines : list str) :
  length (kept_lines rt rb lines) <= length lines.
Proof. unfold kept_lines. rewrite length_skipn, length_firstn. lia. Qed.

Lemma kept_lines_Forall (Q : str -> Prop) (rt rb : bool) (lines : list str) :
  Forall Q lines -> Forall Q (kept_lines rt rb lines).
Proof.
  intros H. unfold kept_lines.
  rewrite <- (firstn_skipn (length lines - (if rb then 4 else 0)) lines) in H.
  apply Forall_app in H as [H _].
  rewrite <- (firstn_skipn (if rt then 4 else 0) (firstn _ lines)) in H.
  now apply Forall_app in H as [_ H].
Qed.

(* ------------------------------------------------------------------ *)
(** ** Claim C8 *)
(* ------------------------------------------------------------------ *)

(** C8. For every text, the output of [_strip_headers_footers] has at most
    as many lines as the input, and a text of at most 8 lines is returned
    unchanged, line for line. *)
Theorem strip_headers_footers_line_count (text : str) :
  line_count (_strip_headers_footers text) <= line_count text
  /\ (line_count text <= 8 -> _strip_headers_footers text = text).
Proof.
  split; [|apply strip_headers_footers_short].
  destruct (Nat.le_gt_cases (line_count text) 8) as [S|L].
  - rewrite (strip_headers_footers_short text S). apply Nat.le_refl.
  - unfold line_count in L. rewrite (strip_headers_footers_long text L).
    set (rt := forallb _ _). set (rb := forallb _ _).
    pose proof (strip_join_line_count (kept_lines rt rb (str_split LF text))
                  (kept_lines_Forall _ rt rb _ (split_pieces LF text))) as H.
    pose proof (kept_lines_length rt rb (str_split LF text)).
    unfold line_count at 2. lia.
Qed.

(** A page of three lines that look like a header, some content and a page
    number: it is short, so it comes back as it is. *)
Lemma strip_headers_footers_line_count_witness :
  line_count short_page <= 8 /\ _strip_headers_footers short_page = short_page.
Proof.
  assert (H : line_count short_page <= 8) by (vm_compute; lia).
  split; [exact H | exact (proj2 (strip_headers_footers_line_count short_page) H)].
Defined.

(* ------------------------------------------------------------------ *)
(** ** The searches of [is_header_footer_line], read on the line *)
(* ------------------------------------------------------------------ *)

Lemma starts_with_spec (p s : str) :
  starts_with p s = true <-> exists b, s = p ++ b.
Proof.
  revert s. induction p as [|a p IH]; intros s; simpl.
  - split; [exists s; reflexivity | reflexivity].
  - destruct s as [|c s].
    + split; [discriminate | intros (b & E); discriminate].
    + rewrite andb_true_iff, Ascii.eqb_eq, IH. split.
      * intros (-> & b & ->). exists b. reflexivity.
      * intros (b & E). injection E as -> ->. split; [reflexivity | exists b; reflexivity].
Qed.

Lemma contains_spec (p s : str) : contains p s = true <-> Infix p s.
Proof.
  unfold Infix. induction s as [|c s IH].
  - simpl. rewrite orb_false_r, starts_with_spec. split.
    + intros (b & E). exists [], b. exact E.
    + intros (a & b & E). destruct a; [exists b; exact E | discriminate].
  - simpl. rewrite orb_true_iff, starts_with_spec, IH. split.
    + intros [(b & E) | (a & b & E)].
      * exists [], b. exact E.
      * exists (c :: a), b. simpl. now rewrite E.
    + intros (a & b & E). destruct a as [|x a].
      * left. exists b. exact E.
      * right. injection E as -> E. exists a, b. exact E.
Qed.

Lemma re_search_url_spec (ln : str) : re_search_url ln = true <-> UrlLine ln.
Proof.
  unfold re_search_url, UrlLine. now rewrite orb_true_iff, !contains_spec.
Qed.

Lemma isdecimal_not_space (c : ascii) : isdecimal c = true -> isspace c = false.
Proof.
  unfold isdecimal, isspace, in_range, is_code. intros H.
  apply andb_true_iff in H as [H1 H2].
  apply N.leb_le in H1, H2.
  repeat match goal with
         | |- context [(?a <=? ?b)%N] => destruct (N.leb_spec a b); try lia
         | |- context [(?a =? ?b)%N] => destruct (N.eqb_spec a b); try lia
         end.
  all: try reflexivity.
Qed.

Lemma isspace_not_decimal (c : ascii) : isspace c = true -> isdecimal c = false.
Proof.
  intros H. destruct (isdecimal c) eqn:E; [|reflexivity].
  apply isdecimal_not_space in E. congruence.
Qed.

Lemma forallb_Forall (p : ascii -> bool) (s : str) :
  forallb p s = true <-> Forall (fun c => p c = true) s.
Proof. rewrite forallb_forall, Forall_forall. reflexivity. Qed.

Lemma re_search_page_number_spec (ln : str) :
  re_search_page_number ln = true <-> NumericLine ln.
Proof.
  unfold re_search_page_number, NumericLine. split.
  - destruct (drop_class_prefix isspace ln) as (w1 & E1 & H1).
    destruct (drop_class isspace ln) as [|c rest]; [discriminate|].
    intros H. apply andb_true_iff in H as [Hc Hr].
    destruct (drop_class_prefix isdecimal rest) as (d & E2 & H2).
    exists w1, (c :: d), (drop_class isdecimal rest).
    repeat split.
    + rewrite E1 at 1. simpl. now rewrite <- E2.
    + exact H1.
    + discriminate.
    + constructor; assumption.
    + apply forallb_Forall, Hr.
  - intros (w1 & d & w2 & -> & H1 & Hd & H2 & H3).
    destruct d as [|c d]; [congruence|]. inversion H2; subst.
    rewrite (drop_class_app isspace w1 ((c :: d) ++ w2) H1);
      [|simpl; now apply isdecimal_not_space].
    simpl. apply andb_true_iff. split; [assumption|].
    rewrite (drop_class_app isdecimal d w2); [apply forallb_Forall, H3 | assumption |].
    destruct w2 as [|x w2]; [exact I|]. inversion H3; subst.
    now apply isspace_not_decimal.
Qed.

Lemma starts_with_ci_spec (w s : str) :
  starts_with_ci w s = true <-> exists k b, s = k ++ b /\ str_lower k = w.
Proof.
  revert s. induction w as [|a w IH]; intros s; simpl.
  - split; [exists [], s; split; reflexivity | reflexivity].
  - destruct s as [|c s].
    + split; [discriminate|]. intros (k & b & E & L).
      destruct k; [discriminate L | discriminate E].
    + rewrite andb_true_iff, Ascii.eqb_eq, IH. split.
      * intros (-> & k & b & -> & <-). exists (c :: k), b. split; reflexivity.
      * intros (k & b & E & L). destruct k as [|x k]; [discriminate L|].
        injection E as -> ->. injection L as <- <-.
        split; [reflexivity | exists k, b; split; reflexivity].
Qed.

Lemma last_from_app (before : option ascii) (a k : str) :
  last_from before (a ++ k) = last_from (last_from before a) k.
Proof. revert before. induction a as [|c a IH]; intros before; simpl; [reflexivity | apply IH]. Qed.

Lemma word_at_spec (before : option ascii) (s w : str) :
  word_at before s w = true <->
  exists k b, s = k ++ b /\ str_lower k = w
    /\ word_boundary before (hd_error s) = true
    /\ word_boundary (last_from before k) (hd_error b) = true.
Proof.
  unfold word_at. rewrite !andb_true_iff, starts_with_ci_spec. split.
  - intros ((H1 & k & b & -> & <-) & H2). exists k, b.
    unfold str_lower in H2. rewrite length_map in H2.
    rewrite firstn_app, Nat.sub_diag, firstn_all, firstn_O, app_nil_r in H2.
    rewrite skipn_app, Nat.sub_diag, skipn_all, skipn_O in H2.
    repeat split; assumption.
  - intros (k & b & -> & <- & H1 & H2). split; [split; [assumption | exists k, b; split; reflexivity]|].
    unfold str_lower. rewrite length_map.
    rewrite firstn_app, Nat.sub_diag, firstn_all, firstn_O, app_nil_r.
    rewrite skipn_app, Nat.sub_diag, skipn_all, skipn_O. exact H2.
Qed.

Lemma search_words_spec (ws : list str) (before : option ascii) (s : str) :
  search_words ws before s = true <-> WordIn ws before s.
Proof.
  unfold WordIn. revert before. induction s as [|c s IH]; intros before.
  - simpl. rewrite orb_false_r, existsb_exists. split.
    + intros (w & Hw & H). apply word_at_spec in H as (k & b & E & L & H1 & H2).
      exists [], k, b. subst w. repeat split; try assumption. now rewrite <- E.
    + intros (a & k & b & E & Hin & H1 & H2).
      symmetry in E. apply app_eq_nil in E as [-> E].
      exists (str_lower k). split; [assumption|].
      apply word_at_spec. exists k, b. repeat split; try assumption.
      * now symmetry.
      * rewrite E in H1. exact H1.
  - simpl. rewrite orb_true_iff, existsb_exists, IH. split.
    + intros [(w & Hw & H) | (a & k & b & E & Hin & H1 & H2)].
      * apply word_at_spec in H as (k & b & E & L & H1 & H2).
        exists [], k, b. subst w. repeat split; try assumption. now rewrite <- E.
      * exists (c :: a), k, b. rewrite E. repeat split; assumption.
    + intros (a & k & b & E & Hin & H1 & H2). destruct a as [|x a].
      * left. exists (str_lower k). split; [assumption|].
        apply word_at_spec. exists k, b. repeat split; try assumption.
        now rewrite E.
      * right. injection E as -> ->. exists a, k, b. repeat split; assumption.
Qed.

Lemma is_header_footer_line_spec (ln : str) :
  is_header_footer_line ln = true <-> NumericLine ln \/ KeywordLine ln \/ UrlLine ln.
Proof.
  unfold is_header_footer_line, KeywordLine.
  rewrite !orb_true_iff, re_search_page_number_spec, search_words_spec,
    re_search_url_spec. tauto.
Qed.

(** The test of the code is the class [Boilerplate]. *)
Lemma removable_line_spec (ln : str) : removable_line ln = true <-> Boilerplate ln.
Proof.
  unfold removable_line, Boilerplate.
  rewrite orb_true_iff, is_header_footer_line_spec, Nat.leb_le. tauto.
Qed.

Lemma removable_block_spec (ls : list str) :
  forallb removable_line ls = true <-> Forall Boilerplate ls.
Proof.
  rewrite forallb_forall, Forall_forall. split; intros H x Hx.
  - apply removable_line_spec, H, Hx.
  - apply removable_line_spec, H, Hx.
Qed.

(* ------------------------------------------------------------------ *)
(** ** Claim C5 *)
(* ------------------------------------------------------------------ *)

(** C5, as stated, fails.  On [blank_header_page] each of the first four
    lines is "pure whitespace or at most 2 characters", yet the code keeps
    them: a line of three spaces is longer than two characters and matches
    none of the three patterns, so [remove_top] is false, and the result
    still starts with the lines 1, 2, 3. *)
Lemma blank_header_block_is_kept :
  ~ drops_qualifying_blocks SpecBoilerplate blank_header_page.
Proof.
  unfold drops_qualifying_blocks. cbv zeta. intros H.
  destruct H as (rt & rb & Ht & _ & E); [vm_compute; lia|].
  assert (Etop : firstn 4 (str_split LF blank_header_page)
                 = [txt "   "; txt "1"; txt "2"; txt "3"]) by reflexivity.
  rewrite Etop in Ht.
  assert (rt = true) as ->.
  { apply Ht. apply Forall_cons; [left; repeat constructor|].
    repeat (apply Forall_cons; [right; left; simpl; lia|]). apply Forall_nil. }
  destruct rb; vm_compute in E; discriminate E.
Qed.

(** C5, amended.  For every page text with more than 8 lines, the top block
    of 4 lines is removed exactly when each of its lines has at most 2
    characters, or is a number with optional spaces around it, or holds one
    of the keywords page, annual report, confidential, draft as a whole word
    in any letter case, or holds [http://] or [https://]; the same test
    decides independently for the last 4 lines, so the page loses its header,
    its footer, both or neither, and the result is the kept lines joined by
    LF and stripped.  A line of spaces only that is longer than 2 characters
    does not qualify. *)
Theorem strip_headers_footers_blocks (text : str) :
  8 < length (str_split LF text) ->
  exists rt rb : bool,
    (rt = true <-> Forall Boilerplate (firstn 4 (str_split LF text)))
    /\ (rb = true <->
        Forall Boilerplate (skipn (length (str_split LF text) - 4) (str_split LF text)))
    /\ _strip_headers_footers text
       = str_strip (str_join [LF] (kept_lines rt rb (str_split LF text))).
Proof.
  intros Hlen.
  exists (forallb removable_line (firstn 4 (str_split LF text))),
         (forallb removable_line
            (skipn (length (str_split LF text) - 4) (str_split LF text))).
  split; [apply removable_block_spec|].
  split; [apply removable_block_spec|].
  apply strip_headers_footers_long, Hlen.
Qed.

Lemma strip_headers_footers_blocks_witness :
  8 < length (str_split LF header_page)
  /\ exists rt rb : bool,
    (rt = true <-> Forall Boilerplate (firstn 4 (str_split LF header_page)))
    /\ (rb = true <->
        Forall Boilerplate
          (skipn (length (str_split LF header_page) - 4) (str_split LF header_page)))
    /\ _strip_headers_footers header_page
       = str_strip (str_join [LF] (kept_lines rt rb (str_split LF header_page))).
Proof.
  assert (H : 8 < length (str_split LF header_page)) by (vm_compute; lia).
  split; [exact H | exact (strip_headers_footers_blocks header_page H)].
Defined.

(** On [header_page] the header goes and the footer stays. *)
Example strip_headers_footers_header_only :
  _strip_headers_footers header_page
  = str_join [LF]
      [txt "Alpha beta"; txt "Gamma delta"; txt "Epsilon zeta"; txt "Eta theta";
       txt "Iota kappa"; txt "Lambda mu"].
Proof. vm_compute. reflexivity. Qed.


(* ------------------------------------------------------------------ *)
(** ** [re.split] cuts at the boundaries and nowhere else *)
(* ------------------------------------------------------------------ *)

Lemma last_from_snoc (before : option ascii) (s : str) (c : ascii) :
  last_from before (s ++ [c]) = Some c.
Proof. now rewrite last_from_app. Qed.

Lemma last_from_terminal (s : str) :
  is_terminal_opt (last_from None s) = true <-> ends_with_terminal s.
Proof.
  unfold ends_with_terminal. destruct s as [|c s] using rev_ind.
  - simpl. split; [discriminate|]. intros (a & t & E & _). now destruct a.
  - rewrite last_from_snoc. simpl. split.
    + intros H. exists s, c. split; [reflexivity | exact H].
    + intros (a & t & E & H). apply app_inj_tail in E as [_ ->]. exact H.
Qed.

Lemma is_terminal_not_space (c : ascii) : is_terminal c = true -> isspace c = false.
Proof.
  unfold is_terminal. rewrite !orb_true_iff, !is_char_true.
  intros [[-> | ->] | ->]; reflexivity.
Qed.

Section SplitScan.
Variable ahead : ascii -> bool.
Hypothesis ahead_not_space : forall c, ahead c = true -> isspace c = false.

(** A boundary of [s ++ [c]] lies in [s], or [c] closes an open one. *)
Lemma has_boundary_snoc (s : str) (c : ascii) :
  has_boundary ahead (s ++ [c]) ->
  has_boundary ahead s \/ (ahead c = true /\ open_boundary s).
Proof.
  intros (a & w & b & E & Ha & Hw & (x & b' & -> & Hx)).
  destruct b' as [|y b'] using rev_ind.
  - right. replace (a ++ w ++ [x]) with ((a ++ w) ++ [x]) in E by now rewrite <- app_assoc.
    apply app_inj_tail in E as [-> ->]. split; [exact Hx|]. now exists a, w.
  - left. clear IHb'.
    replace (a ++ w ++ x :: b' ++ [y]) with ((a ++ w ++ x :: b') ++ [y]) in E
      by now rewrite <- !app_assoc.
    apply app_inj_tail in E as [-> _].
    exists a, w, (x :: b'). repeat split; try assumption; try apply Hw.
    now exists x, b'.
Qed.

Lemma open_boundary_snoc (s : str) (c : ascii) :
  open_boundary (s ++ [c]) ->
  isspace c = true /\ (open_boundary s \/ ends_with_terminal s).
Proof.
  intros (a & w & E & Ha & Hne & Hw).
  destruct w as [|x w] using rev_ind; [congruence|]. clear IHw.
  rewrite app_assoc in E. apply app_inj_tail in E as [-> ->].
  apply Forall_app in Hw as [Hw Hx]. inversion Hx; subst.
  split; [assumption|].
  destruct w as [|y w].
  - right. now rewrite app_nil_r.
  - left. exists a, (y :: w). repeat split; try assumption. discriminate.
Qed.

Lemma no_boundary_spaces (s g : str) :
  ~ has_boundary ahead s -> Forall (fun c => isspace c = true) g ->
  ~ has_boundary ahead (s ++ g).
Proof using ahead_not_space.
  intros Hs. induction g as [|x g IH] using rev_ind; intros Hg.
  - now rewrite app_nil_r.
  - apply Forall_app in Hg as [Hg Hx]. inversion Hx; subst.
    rewrite app_assoc. intros H. apply has_boundary_snoc in H as [H | [H _]].
    + now apply IH.
    + apply ahead_not_space in H. congruence.
Qed.

Lemma no_boundary_single (c : ascii) : ~ has_boundary ahead [c].
Proof.
  intros (a & w & b & E & (a' & t & -> & _) & (Hw & _) & (x & b' & -> & _)).
  apply (f_equal (@length ascii)) in E. rewrite !length_app in E.
  destruct w; [congruence|]. simpl in E. lia.
Qed.

Lemma no_open_boundary_single (c : ascii) : ~ open_boundary [c].
Proof.
  intros (a & w & E & (a' & t & -> & _) & (Hw & _)).
  apply (f_equal (@length ascii)) in E. rewrite !length_app in E.
  destruct w; [congruence|]. simpl in E. lia.
Qed.

Lemma split_scan_spec (text part gap : str) :
  scan_inv ahead part gap ->
  SplitAt ahead (part ++ gap ++ text) (split_scan ahead part gap text).
Proof using ahead_not_space.
  revert part gap. induction text as [|c rest IH]; intros part gap [Hnb Hgap].
  - simpl. rewrite app_nil_r. apply SplitAt_last.
    destruct gap as [|g gap]; [now rewrite app_nil_r|].
    apply no_boundary_spaces; [exact Hnb | apply Hgap].
  - destruct gap as [|g gap].
    + simpl. destruct (isspace c && is_terminal_opt (last_from None part)) eqn:E.
      * apply andb_true_iff in E as [Ec Et].
        apply (IH part [c]). split; [exact Hnb|]. split.
        -- constructor; [exact Ec | constructor].
        -- now apply last_from_terminal.
      * replace (part ++ c :: rest) with ((part ++ [c]) ++ [] ++ rest)
          by (simpl; now rewrite <- app_assoc).
        apply IH. split.
        -- intros H. apply has_boundary_snoc in H as [H | [_ H]]; tauto.
        -- intros H. apply open_boundary_snoc in H as [Hc [H | H]]; [tauto|].
           apply last_from_terminal in H. rewrite Hc, H in E. discriminate.
    + destruct Hgap as [Hsp Hterm].
      set (gap' := g :: gap) in *. cbn [split_scan]. unfold gap' at 2.
      fold gap'.
      destruct (isspace c) eqn:Ec.
      * replace (part ++ gap' ++ c :: rest) with (part ++ (gap' ++ [c]) ++ rest)
          by now rewrite <- app_assoc.
        apply IH. split; [exact Hnb|].
        destruct (gap' ++ [c]) eqn:E; [now destruct gap'|]. rewrite <- E.
        split; [|exact Hterm]. apply Forall_app. split; [exact Hsp|].
        constructor; [exact Ec | constructor].
      * destruct (ahead c) eqn:Ea.
        -- apply SplitAt_cut; try assumption.
           ++ split; [discriminate | exact Hsp].
           ++ now exists c, rest.
           ++ apply (IH [c] []). split;
                [apply no_boundary_single | apply no_open_boundary_single].
        -- replace (part ++ gap' ++ c :: rest)
             with ((part ++ gap' ++ [c]) ++ [] ++ rest)
             by (rewrite <- !app_assoc; reflexivity).
           apply IH. split.
           ++ rewrite app_assoc. intros H.
              apply has_boundary_snoc in H as [H | [H _]]; [|congruence].
              revert H. now apply no_boundary_spaces.
           ++ rewrite app_assoc. intros H.
              apply open_boundary_snoc in H as [H _]. congruence.
Qed.

Lemma re_split_sentences_spec (text : str) :
  SplitAt ahead text (re_split_sentences ahead text).
Proof using ahead_not_space.
  apply (split_scan_spec text [] []). split.
  - intros (a & w & b & E & (a' & t & -> & _) & _). now destruct a'.
  - intros (a & w & E & (a' & t & -> & _) & _). now destruct a'.
Qed.

End SplitScan.

(* ------------------------------------------------------------------ *)
(** ** The cut of a text at its boundaries is unique *)
(* ------------------------------------------------------------------ *)

Section SplitUnique.
Variable ahead : ascii -> bool.
Hypothesis ahead_not_space : forall c, ahead c = true -> isspace c = false.

Lemma gap_unique (w1 b1 w2 b2 : str) :
  w1 ++ b1 = w2 ++ b2 ->
  Forall (fun c => isspace c = true) w1 -> Forall (fun c => isspace c = true) w2 ->
  starts_with_class ahead b1 -> starts_with_class ahead b2 ->
  w1 = w2 /\ b1 = b2.
Proof using ahead_not_space.
  intros E H1 H2 (c1 & b1' & -> & A1) (c2 & b2' & -> & A2).
  apply ahead_not_space in A1, A2.
  revert w2 E H2. induction H1 as [|x w1 Hx _ IH]; intros w2 E H2.
  - destruct w2 as [|y w2]; [split; [reflexivity | exact E]|].
    injection E as -> _. inversion H2; congruence.
  - destruct w2 as [|y w2].
    + injection E as -> _. congruence.
    + injection E as -> E. inversion H2; subst.
      destruct (IH w2 E) as [-> ->]; [assumption|]. split; reflexivity.
Qed.

Lemma ends_with_terminal_app (a l : str) :
  l <> [] -> ends_with_terminal (a ++ l) -> ends_with_terminal l.
Proof.
  intros Hl (a' & t & E & Ht). destruct l as [|x l] using rev_ind; [congruence|].
  rewrite app_assoc in E. apply app_inj_tail in E as [_ ->]. now exists l, t.
Qed.

Lemma terminal_end_not_spaces (l : str) :
  ends_with_terminal l -> ~ Forall (fun c => isspace c = true) l.
Proof.
  intros (a & t & -> & Ht) H. apply Forall_app in H as [_ H].
  inversion H; subst. apply is_terminal_not_space in Ht. congruence.
Qed.

(** A longer first piece would hold the first boundary. *)
Lemma longer_piece_has_boundary (a1 w1 b1 l rest : str) :
  ends_with_terminal a1 -> Gap w1 -> starts_with_class ahead b1 ->
  l <> [] -> ends_with_terminal (a1 ++ l) -> w1 ++ b1 = l ++ rest ->
  has_boundary ahead (a1 ++ l).
Proof.
  intros Ha Hw Hb Hl Hal E.
  apply app_eq_app in E as (m & [(-> & _) | (-> & ->)]).
  - exfalso. apply (terminal_end_not_spaces l).
    + now apply ends_with_terminal_app in Hal.
    + destruct Hw as [_ Hw]. now apply Forall_app in Hw as [Hw _].
  - exists a1, w1, m. repeat split; try assumption; try apply Hw.
    destruct Hb as (c & b' & E & Hc). destruct m as [|x m].
    + exfalso. apply (terminal_end_not_spaces w1); [|apply Hw].
      rewrite app_nil_r in Hal. now apply ends_with_terminal_app in Hal; [|apply Hw].
    + injection E as -> _. now exists c, m.
Qed.

Lemma first_boundary_unique (a1 w1 b1 a2 w2 b2 : str) :
  a1 ++ w1 ++ b1 = a2 ++ w2 ++ b2 ->
  ends_with_terminal a1 -> Gap w1 -> starts_with_class ahead b1 ->
  ~ has_boundary ahead a1 ->
  ends_with_terminal a2 -> Gap w2 -> starts_with_class ahead b2 ->
  ~ has_boundary ahead a2 ->
  a1 = a2 /\ w1 = w2 /\ b1 = b2.
Proof using ahead_not_space.
  intros E Ha1 Hw1 Hb1 Hn1 Ha2 Hw2 Hb2 Hn2.
  apply app_eq_app in E as (l & [(-> & E) | (-> & E)]).
  - destruct l as [|x l].
    + rewrite app_nil_r. simpl in E.
      destruct (gap_unique w1 b1 w2 b2) as [-> ->]; auto; apply Hw1 || apply Hw2.
    + exfalso. apply Hn1.
      apply (longer_piece_has_boundary a2 w2 b2 (x :: l) (w1 ++ b1)); auto;
        discriminate.
  - destruct l as [|x l].
    + rewrite app_nil_r. simpl in E.
      destruct (gap_unique w1 b1 w2 b2) as [-> ->]; auto; apply Hw1 || apply Hw2.
    + exfalso. apply Hn2.
      apply (longer_piece_has_boundary a1 w1 b1 (x :: l) (w2 ++ b2)); auto;
        discriminate.
Qed.

(** [SplitAt] determines the pieces. *)
Lemma SplitAt_functional (text : str) (ps qs : list str) :
  SplitAt ahead text ps -> SplitAt ahead text qs -> ps = qs.
Proof using ahead_not_space.
  intros H. revert qs. induction H as [s Hs | a w b parts Ha Hw Hb Hn Hp IH];
    intros qs Hq.
  - inversion Hq as [s' Hs' | a' w' b' parts' Ha' Hw' Hb' Hn' Hp' E]; subst;
      [reflexivity|].
    exfalso. apply Hs. now exists a', w', b'.
  - inversion Hq as [s' Hs' | a' w' b' parts' Ha' Hw' Hb' Hn' Hp' E]; subst.
    + exfalso. apply Hs'. now exists a, w, b.
    + destruct (first_boundary_unique a' w' b' a w b) as (-> & -> & ->); auto.
      f_equal. now apply IH.
Qed.

End SplitUnique.

(* ------------------------------------------------------------------ *)
(** ** Cleaned sentences *)
(* ------------------------------------------------------------------ *)

Lemma clean_sentence_collapsed (s : str) : Collapsed (clean_sentence s).
Proof.
  unfold clean_sentence, re_sub_run.
  set (s1 := sub_run isspace 1 [SPACE] [] s).
  assert (H1 : Forall (fun c => isspace c = true -> c = SPACE) s1).
  { apply sub_run_replaced; [lia | repeat constructor | congruence]. }
  assert (H2 : runs_below isspace 2 s1).
  { apply sub_run_below; [lia | lia | apply runs_below_short; simpl; lia]. }
  destruct (strip_infix s1) as (a & b & E & _).
  destruct (strip_clean s1) as [Hs He].
  rewrite E in H1, H2.
  split; [eapply Forall_infix, H1 | eapply runs_below_infix, H2 | exact Hs | exact He].
Qed.

Lemma split_sentences_Forall (text : str) :
  Forall (fun s => 30 <= length s /\ Collapsed s) (_split_sentences text).
Proof.
  unfold _split_sentences. apply Forall_forall. intros s Hs.
  apply List.filter_In in Hs as [Hs Hlen]. apply Nat.leb_le in Hlen.
  apply in_map_iff in Hs as (p & <- & _).
  split; [exact Hlen | apply clean_sentence_collapsed].
Qed.

Lemma sentence_start_not_space (c : ascii) :
  is_sentence_start c = true -> isspace c = false.
Proof.
  unfold is_sentence_start, isspace, in_range, is_code.
  rewrite !orb_true_iff, !andb_true_iff, !is_char_true, !N.leb_le.
  intros H.
  assert (ord c <> 9 /\ ord c <> 10 /\ ord c <> 11 /\ ord c <> 12 /\ ord c <> 13
          /\ (ord c < 28 \/ 32 < ord c) /\ ord c <> 133 /\ ord c <> 160)%N as
      (N1 & N2 & N3 & N4 & N5 & N6 & N7 & N8).
  { destruct H as [[[H | ->] | H] | ->]; try (vm_compute; repeat split; (discriminate || (right; reflexivity))); lia. }
  repeat match goal with
         | |- context [(?a <=? ?b)%N] => destruct (N.leb_spec a b); try lia
         | |- context [(?a =? ?b)%N] => destruct (N.eqb_spec a b); try lia
         end.
  all: try reflexivity.
Qed.

Lemma spec_sentence_start_not_space (c : ascii) :
  spec_sentence_start c = true -> isspace c = false.
Proof.
  intros H. apply sentence_start_not_space.
  unfold spec_sentence_start, isdecimal in H. unfold is_sentence_start.
  rewrite !orb_true_iff in *. tauto.
Qed.

(* ------------------------------------------------------------------ *)
(** ** Claim C3 *)
(* ------------------------------------------------------------------ *)

(** C3, as stated, fails.  In [paren_text] a full stop is followed by a
    space and a closing parenthesis, which is neither an uppercase letter,
    a digit nor an opening parenthesis; the code cuts there all the same,
    because the class of its look-ahead, [[A-Z(0-9)]], holds the closing
    parenthesis too. *)
Lemma split_before_closing_parenthesis :
  ~ segments_at spec_sentence_start paren_text.
Proof.
  intros (parts & Hparts & E).
  pose proof (re_split_sentences_spec spec_sentence_start
                spec_sentence_start_not_space paren_text) as Hspec.
  rewrite (SplitAt_functional spec_sentence_start spec_sentence_start_not_space
             paren_text _ _ Hparts Hspec) in E.
  vm_compute in E. discriminate E.
Qed.

(** C3, amended.  For every text, [_split_sentences] cuts the text exactly
    at the places where a terminal mark ([.], [!], [?]) is followed by
    whitespace and then an uppercase letter A-Z, a digit, an opening
    parenthesis or a closing parenthesis, and at no other place ([parts] is
    the only such cut); each piece is whitespace-collapsed and trimmed, and
    the pieces that are then shorter than 30 characters are dropped. *)
Theorem split_sentences_boundaries (text : str) :
  (exists parts,
      SplitAt is_sentence_start text parts
      /\ (forall parts', SplitAt is_sentence_start text parts' -> parts' = parts)
      /\ _split_sentences text
         = List.filter (fun s => 30 <=? length s) (map clean_sentence parts))
  /\ Forall (fun s => 30 <= length s /\ Collapsed s) (_split_sentences text).
Proof.
  split; [|apply split_sentences_Forall].
  pose proof (re_split_sentences_spec is_sentence_start
                sentence_start_not_space text) as H.
  exists (re_split_sentences is_sentence_start text).
  split; [exact H|]. split; [|reflexivity].
  intros parts' H'.
  exact (SplitAt_functional is_sentence_start sentence_start_not_space
           text _ _ H' H).
Qed.

(** The two pieces of [paren_text]. *)
Example split_sentences_paren_text :
  _split_sentences paren_text
  = [txt "The first sentence of the page ends here.";
     txt ") and the second one goes on to the end"].
Proof. vm_compute. reflexivity. Qed.


(* ------------------------------------------------------------------ *)
(** ** Floating point: no operation of the scorer yields a NaN *)
(* ------------------------------------------------------------------ *)

Lemma shr_1_nonneg (mrs : shr_record) : (0 <= shr_m mrs)%Z -> (0 <= shr_m (shr_1 mrs))%Z.
Proof.
  destruct mrs as [m r s]. simpl. intros H.
  destruct m as [|[p|p|]|p]; simpl; lia.
Qed.

Lemma iter_shr_1_nonneg (p : positive) (mrs : shr_record) :
  (0 <= shr_m mrs)%Z -> (0 <= shr_m (iter_pos shr_1 p mrs))%Z.
Proof.
  revert mrs. induction p as [p IH|p IH|]; intros mrs H; simpl.
  - apply IH, IH, shr_1_nonneg, H.
  - apply IH, IH, H.
  - apply shr_1_nonneg, H.
Qed.

Lemma shr_fexp_nonneg (m e : Z) (l : location) :
  (0 <= m)%Z -> (0 <= shr_m (fst (shr_fexp prec emax m e l)))%Z.
Proof.
  intros H. unfold shr_fexp, shr.
  assert (H0 : (0 <= shr_m (shr_record_of_loc m l))%Z).
  { destruct l as [|[]]; exact H. }
  destruct (fexp prec emax (Zdigits2 m + e) - e)%Z; simpl; try exact H0.
  apply iter_shr_1_nonneg, H0.
Qed.

Lemma round_nearest_even_nonneg (m : Z) (l : location) :
  (0 <= m)%Z -> (0 <= round_nearest_even m l)%Z.
Proof.
  intros H. destruct l as [|[]]; simpl; try lia.
  destruct (Z.even m); lia.
Qed.

Lemma binary_round_aux_not_nan (sx : bool) (mx ex : Z) (lx : location) :
  (0 <= mx)%Z -> is_nan (binary_round_aux prec emax sx mx ex lx) = false.
Proof.
  intros H. unfold binary_round_aux.
  pose proof (shr_fexp_nonneg mx ex lx H) as H1.
  destruct (shr_fexp prec emax mx ex lx) as [mrs' e']. simpl in H1.
  pose proof (shr_fexp_nonneg _ e' loc_Exact
                (round_nearest_even_nonneg _ (loc_of_shr_record mrs') H1)) as H2.
  destruct (shr_fexp prec emax (round_nearest_even (shr_m mrs') (loc_of_shr_record mrs'))
              e' loc_Exact) as [mrs'' e'']. simpl in H2.
  destruct (shr_m mrs'') as [|m|m]; [reflexivity | | lia].
  destruct (e'' <=? emax - prec)%Z; reflexivity.
Qed.

Lemma binary_normalize_not_nan (m e : Z) (sz : bool) :
  is_nan (binary_normalize prec emax m e sz) = false.
Proof.
  unfold binary_normalize, binary_round.
  destruct m as [|p|p]; [reflexivity | |].
  - destruct (shl_align p e _). apply binary_round_aux_not_nan. lia.
  - destruct (shl_align p e _). apply binary_round_aux_not_nan. lia.
Qed.

(** Adding or subtracting a finite number never gives a NaN. *)
Lemma fadd_not_nan_r (x y : float) :
  is_nan x = false -> is_finite y = true -> is_nan (fadd x y) = false.
Proof.
  unfold fadd, SFadd. destruct x as [sx|sx| |sx mx ex], y as [sy|sy| |sy my ey];
    try discriminate; intros _ _; try reflexivity.
  - destruct sx, sy; reflexivity.
  - apply binary_normalize_not_nan.
Qed.

Lemma fadd_not_nan_l (x y : float) :
  is_finite x = true -> is_nan y = false -> is_nan (fadd x y) = false.
Proof.
  unfold fadd, SFadd. destruct x as [sx|sx| |sx mx ex], y as [sy|sy| |sy my ey];
    try discriminate; intros _ _; try reflexivity.
  - destruct sx, sy; reflexivity.
  - apply binary_normalize_not_nan.
Qed.

Lemma fsub_not_nan_r (x y : float) :
  is_nan x = false -> is_finite y = true -> is_nan (fsub x y) = false.
Proof.
  unfold fsub, SFsub. destruct x as [sx|sx| |sx mx ex], y as [sy|sy| |sy my ey];
    try discriminate; intros _ _; try reflexivity.
  - destruct sx, sy; reflexivity.
  - apply binary_normalize_not_nan.
Qed.

Lemma fltb_not_nan (x y : float) : fltb x y = true -> is_nan x = false /\ is_nan y = false.
Proof.
  unfold fltb, SFltb, SFcompare.
  destruct x as [sx|sx| |sx mx ex], y as [sy|sy| |sy my ey];
    try discriminate; intros _; split; reflexivity.
Qed.

Lemma py_min_not_nan (a b : float) : is_nan a = false -> is_nan (py_min a b) = false.
Proof.
  intros Ha. unfold py_min. destruct (fltb b a) eqn:E; [|exact Ha].
  now apply fltb_not_nan in E.
Qed.

(** The score of a sentence is a number. *)
Lemma score_sentence_not_nan (s : str) : is_nan (_score_sentence s) = false.
Proof.
  unfold _score_sentence.
  assert (H1 : is_finite (length_term s f0_0) = true).
  { unfold length_term. destruct (_ && _); [reflexivity|].
    destruct (_ <? _); reflexivity. }
  assert (H2 : is_nan (numeric_term s (length_term s f0_0)) = false).
  { unfold numeric_term. apply fadd_not_nan_l; [exact H1|].
    apply py_min_not_nan. reflexivity. }
  assert (H3 : forall x, is_nan x = false -> is_nan (topical_term s x) = false).
  { unfold topical_term. generalize SECTION_PATTERNS.
    intros l. induction l as [|item l IH]; intros x Hx; simpl; [exact Hx|].
    apply IH. destruct (re_search_any_ci (snd item) s); [|exact Hx].
    apply fadd_not_nan_r; [exact Hx | reflexivity]. }
  assert (H4 : forall x, is_nan x = false -> is_nan (signal_term s x) = false).
  { intros x Hx. unfold signal_term. destruct (re_search_any_ci _ s); [|exact Hx].
    apply fadd_not_nan_r; [exact Hx | reflexivity]. }
  unfold penalty_term. destruct (re_search_any_ci DISCLAIMER_MARKS s).
  - apply fsub_not_nan_r; [|reflexivity]. apply H4, H3, H2.
  - apply H4, H3, H2.
Qed.

(* ------------------------------------------------------------------ *)
(** ** Floating point: the order of the numbers *)
(* ------------------------------------------------------------------ *)

Lemma compare_rank (x y : float) :
  is_nan x = false -> is_nan y = false ->
  SFcompare x y = Some (lex_compare (rank x) (rank y)).
Proof.
  destruct x as [sx|sx| |sx mx ex], y as [sy|sy| |sy my ey];
    try discriminate; intros _ _; simpl;
    try (destruct sx; reflexivity); try (destruct sy; reflexivity);
    try (destruct sx, sy; reflexivity).
  destruct sx, sy; try reflexivity; simpl; f_equal.
  rewrite Z.compare_opp, (Z.compare_antisym ex ey).
  destruct (ex ?= ey)%Z; reflexivity.
Qed.

Lemma lex_compare_spec (p q : Z * Z * Z) :
  let '(a, b, c) := p in
  let '(a', b', c') := q in
  match lex_compare p q with
  | Lt => (a < a' \/ (a = a' /\ (b < b' \/ (b = b' /\ c < c'))))%Z
  | Eq => p = q
  | Gt => (a' < a \/ (a = a' /\ (b' < b \/ (b = b' /\ c' < c))))%Z
  end.
Proof.
  destruct p as [[a b] c], q as [[a' b'] c']. unfold lex_compare.
  destruct (Z.compare_spec a a'); [|lia|lia].
  destruct (Z.compare_spec b b'); [|lia|lia].
  destruct (Z.compare_spec c c'); [congruence|lia|lia].
Qed.

Lemma fleb_rank (x y : float) :
  is_nan x = false -> is_nan y = false ->
  (fleb x y = true <-> lex_compare (rank x) (rank y) <> Gt).
Proof.
  intros Hx Hy. unfold fleb, SFleb. rewrite (compare_rank x y Hx Hy).
  destruct (lex_compare (rank x) (rank y)); split; congruence.
Qed.

Lemma fltb_rank (x y : float) :
  is_nan x = false -> is_nan y = false ->
  (fltb x y = true <-> lex_compare (rank x) (rank y) = Lt).
Proof.
  intros Hx Hy. unfold fltb, SFltb. rewrite (compare_rank x y Hx Hy).
  destruct (lex_compare (rank x) (rank y)); split; congruence.
Qed.

(** On the numbers, [<=] is a total preorder and [<] its strict part. *)
Lemma fleb_trans (x y z : float) :
  is_nan x = false -> is_nan y = false -> is_nan z = false ->
  fleb x y = true -> fleb y z = true -> fleb x z = true.
Proof.
  intros Hx Hy Hz. rewrite !fleb_rank by assumption.
  pose proof (lex_compare_spec (rank x) (rank y)) as A.
  pose proof (lex_compare_spec (rank y) (rank z)) as B.
  pose proof (lex_compare_spec (rank x) (rank z)) as C.
  destruct (rank x) as [[a1 b1] c1], (rank y) as [[a2 b2] c2], (rank z) as [[a3 b3] c3].
  destruct (lex_compare (a1, b1, c1) (a2, b2, c2)) eqn:E1;
    destruct (lex_compare (a2, b2, c2) (a3, b3, c3)) eqn:E2;
    destruct (lex_compare (a1, b1, c1) (a3, b3, c3)) eqn:E3;
    try congruence; intros _ _ _; exfalso;
    try injection A as -> -> ->; try injection B as -> -> ->; lia.
Qed.

Lemma fltb_false_fleb (x y : float) :
  is_nan x = false -> is_nan y = false -> fltb x y = false -> fleb y x = true.
Proof.
  intros Hx Hy H. apply fleb_rank; try assumption.
  assert (N : lex_compare (rank x) (rank y) <> Lt).
  { intros E. apply (fltb_rank x y Hx Hy) in E. congruence. }
  pose proof (lex_compare_spec (rank x) (rank y)) as A.
  pose proof (lex_compare_spec (rank y) (rank x)) as B.
  destruct (rank x) as [[a1 b1] c1], (rank y) as [[a2 b2] c2].
  destruct (lex_compare (a1, b1, c1) (a2, b2, c2)) eqn:E1;
    destruct (lex_compare (a2, b2, c2) (a1, b1, c1)) eqn:E2;
    try congruence; exfalso;
    try injection A as -> -> ->; try injection B as -> -> ->; lia.
Qed.

Lemma fltb_fleb (x y : float) : fltb x y = true -> fleb x y = true.
Proof.
  unfold fltb, fleb, SFltb, SFleb. destruct (SFcompare x y) as [[]|]; congruence.
Qed.


(* ------------------------------------------------------------------ *)
(** ** The stable sort by decreasing key *)
(* ------------------------------------------------------------------ *)

Section SortDesc.
Context {A : Type}.
Variable key : A -> float.

Lemma insert_desc_perm (x : A) (l : list A) :
  Permutation (x :: l) (insert_desc key x l).
Proof.
  induction l as [|y l IH]; simpl; [reflexivity|].
  destruct (fltb (key x) (key y)); [|reflexivity].
  rewrite perm_swap. now constructor.
Qed.

Lemma sort_desc_perm (l : list A) : Permutation l (sort_desc key l).
Proof.
  induction l as [|x l IH]; simpl; [reflexivity|].
  rewrite <- insert_desc_perm. now constructor.
Qed.

Lemma sort_desc_length (l : list A) : length (sort_desc key l) = length l.
Proof. symmetry. apply Permutation_length, sort_desc_perm. Qed.

Lemma insert_desc_sorted (x : A) (l : list A) :
  is_nan (key x) = false -> Forall (fun y => is_nan (key y) = false) l ->
  StronglySorted (key_ge key) l ->
  StronglySorted (key_ge key) (insert_desc key x l).
Proof.
  intros Hx Hl Hs. induction Hs as [|y l Hs IH Hy]; simpl.
  - constructor; constructor.
  - inversion Hl as [|? ? Ny Nl]; subst.
    destruct (fltb (key x) (key y)) eqn:E.
    + constructor; [apply IH, Nl|].
      apply (Permutation_Forall (insert_desc_perm x l)).
      constructor; [apply fltb_fleb, E | exact Hy].
    + assert (Hxy : key_ge key x y) by (apply fltb_false_fleb; assumption).
      constructor; [constructor; assumption|].
      constructor; [exact Hxy|].
      rewrite Forall_forall in *. intros z Hz.
      apply (fleb_trans (key z) (key y) (key x)); auto.
      apply Hy, Hz.
Qed.

Lemma sort_desc_sorted (l : list A) :
  Forall (fun y => is_nan (key y) = false) l ->
  StronglySorted (key_ge key) (sort_desc key l).
Proof.
  induction 1 as [|x l Hx Hl IH]; simpl; [constructor|].
  apply insert_desc_sorted; [exact Hx | | exact IH].
  apply (Permutation_Forall (sort_desc_perm l)), Hl.
Qed.

End SortDesc.

Lemma StronglySorted_firstn {A : Type} (R : A -> A -> Prop) (n : nat) (l : list A) :
  StronglySorted R l -> StronglySorted R (firstn n l).
Proof.
  intros H. revert n. induction H as [|x l Hs IH Hx]; intros [|n]; simpl;
    try constructor.
  - apply IH.
  - rewrite <- (firstn_skipn n l) in Hx. now apply Forall_app in Hx as [Hx _].
Qed.


Lemma scored_pairs (l : list str) :
  Forall (fun p => snd p = _score_sentence (fst p))
         (sort_desc snd (map (fun s => (s, _score_sentence s)) l)).
Proof.
  apply (Permutation_Forall (sort_desc_perm snd _)).
  apply Forall_forall. intros p Hp. apply in_map_iff in Hp as (s & <- & _).
  reflexivity.
Qed.

Lemma StronglySorted_map_fst (l : list (str * float)) :
  Forall (fun p => snd p = _score_sentence (fst p)) l ->
  StronglySorted (key_ge snd) l -> sorted_by_score (map fst l).
Proof.
  intros Hp Hs. induction Hs as [|p l Hs IH Hx]; simpl; [constructor|].
  inversion Hp as [|? ? Ep Hl]; subst. constructor; [apply IH, Hl|].
  rewrite Forall_forall in *. intros s Hs'.
  apply in_map_iff in Hs' as (q & <- & Hq).
  unfold key_ge in *. rewrite <- Ep, <- (Hl q Hq). apply Hx, Hq.
Qed.

Lemma top_by_score_sorted (n : nat) (l : list str) :
  sorted_by_score (top_by_score n l).
Proof.
  unfold top_by_score. apply StronglySorted_map_fst.
  - pose proof (scored_pairs l) as H.
    rewrite <- (firstn_skipn n _) in H. now apply Forall_app in H as [H _].
  - apply StronglySorted_firstn, sort_desc_sorted.
    apply Forall_forall. intros p Hp. apply in_map_iff in Hp as (s & <- & _).
    apply score_sentence_not_nan.
Qed.

Lemma top_by_score_length (n : nat) (l : list str) :
  length (top_by_score n l) = Nat.min n (length l).
Proof.
  unfold top_by_score.
  now rewrite length_map, length_firstn, sort_desc_length, length_map.
Qed.

(** The kept sentences are some of the given ones, each at most as often. *)
Lemma top_by_score_sub (n : nat) (l : list str) :
  exists rest, Permutation l (top_by_score n l ++ rest).
Proof.
  unfold top_by_score.
  set (sorted := sort_desc snd (map (fun s => (s, _score_sentence s)) l)).
  exists (map fst (skipn n sorted)).
  rewrite <- map_app, firstn_skipn. unfold sorted.
  rewrite <- (sort_desc_perm snd). rewrite map_map. simpl. now rewrite map_id.
Qed.

(* ------------------------------------------------------------------ *)
(** ** The deduplication loop and [_pick_top_sentences] *)
(* ------------------------------------------------------------------ *)

Lemma is_empty_false (s : str) : is_empty s = false <-> s <> [].
Proof. destruct s; simpl; split; congruence. Qed.

Lemma dedup_step_inv (st : gset str * list str) (s : str) :
  dedup_inv st -> dedup_inv (dedup_step st s).
Proof.
  destruct st as [seen unique]. intros H. pose proof H as (Hs & Hn & He).
  unfold dedup_step.
  destruct (is_empty (dedup_key s)) eqn:E1; simpl; [exact H|].
  destruct (bool_decide (dedup_key s ∈ seen)) eqn:E2; simpl; [exact H|].
  apply bool_decide_eq_false in E2. apply is_empty_false in E1.
  clear H. simpl in *. split; [|split]; cbn [fst snd].
  - intros k. rewrite map_app, in_app_iff, elem_of_union, elem_of_singleton, Hs.
    simpl. split; [intros [-> | H]; auto | intros [H | [<- | []]]; auto].
  - rewrite map_app. simpl. apply NoDup_app; [exact Hn | repeat constructor; auto |].
    intros k Hk [<- | []]. apply E2, Hs, Hk.
  - apply Forall_app. split; [exact He | repeat constructor; exact E1].
Qed.

Lemma dedup_loop_inv (l : list str) (st : gset str * list str) :
  dedup_inv st -> dedup_inv (fold_left dedup_step l st).
Proof.
  revert st. induction l as [|s l IH]; intros st H; simpl; [exact H|].
  apply IH, dedup_step_inv, H.
Qed.

Lemma dedup_step_grows (st : gset str * list str) (s : str) :
  exists added, snd (dedup_step st s) = snd st ++ added.
Proof.
  destruct st as [seen unique]. unfold dedup_step.
  destruct (_ && _); simpl; [exists [s] | exists []; rewrite app_nil_r]; reflexivity.
Qed.

Lemma dedup_loop_grows (l : list str) (st : gset str * list str) :
  exists added, snd (fold_left dedup_step l st) = snd st ++ added.
Proof.
  revert st. induction l as [|s l IH]; intros st; simpl.
  - exists []. now rewrite app_nil_r.
  - destruct (IH (dedup_step st s)) as (a1 & ->).
    destruct (dedup_step_grows st s) as (a2 & ->).
    exists (a2 ++ a1). now rewrite app_assoc.
Qed.

(** The loop keeps nothing exactly when every sentence has an empty key. *)
Lemma dedup_loop_nil (l : list str) (st : gset str * list str) :
  dedup_inv st -> snd st = [] ->
  (snd (fold_left dedup_step l st) = [] <-> Forall (fun s => dedup_key s = []) l).
Proof.
  revert st. induction l as [|s l IH]; intros [seen unique] Hinv Hu;
    cbn [snd] in Hu; subst unique; cbn [fold_left].
  - split; [constructor | reflexivity].
  - destruct (is_empty (dedup_key s)) eqn:E1.
    + assert (E : dedup_step (seen, []) s = (seen, []))
        by (unfold dedup_step; now rewrite E1).
      rewrite E, (IH (seen, []) Hinv eq_refl). split.
      * intros H. constructor; [now destruct (dedup_key s) | exact H].
      * inversion 1; assumption.
    + assert (Hseen : dedup_key s ∉ seen).
      { intros H. now apply (proj1 Hinv) in H. }
      assert (E : dedup_step (seen, []) s = ({[dedup_key s]} ∪ seen, [s])).
      { unfold dedup_step. now rewrite E1, (bool_decide_eq_false_2 _ Hseen). }
      rewrite E.
      destruct (dedup_loop_grows l ({[dedup_key s]} ∪ seen, [s])) as (a & ->).
      simpl. split; [discriminate|]. inversion 1 as [|? ? K]; subst.
      now rewrite K in E1.
Qed.

Lemma dedup_inv_start : dedup_inv (∅, []).
Proof.
  repeat split; simpl; try constructor.
  - intros H. now apply not_elem_of_empty in H.
  - intros [].
Qed.

Lemma unique_sentences_keys (text : str) :
  NoDup (map dedup_key (unique_sentences text)).
Proof. apply (dedup_loop_inv _ _ dedup_inv_start). Qed.

Lemma unique_sentences_nil (text : str) :
  unique_sentences text = []
  <-> Forall (fun s => dedup_key s = []) (_split_sentences text).
Proof. apply dedup_loop_nil; [apply dedup_inv_start | reflexivity]. Qed.

Lemma pick_top_sentences_unfold (text : str) (n : nat) :
  _pick_top_sentences text n = top_by_score n (unique_sentences text).
Proof.
  unfold _pick_top_sentences, unique_sentences, top_by_score.
  destruct (fold_left dedup_step (_split_sentences text) (∅, [])); reflexivity.
Qed.

Lemma key_count_app (k : str) (l1 l2 : list str) :
  key_count k (l1 ++ l2) = key_count k l1 + key_count k l2.
Proof. unfold key_count. now rewrite map_app, count_occ_app. Qed.

Lemma key_count_perm (k : str) (l1 l2 : list str) :
  Permutation l1 l2 -> key_count k l1 = key_count k l2.
Proof.
  intros H. unfold key_count.
  apply (Permutation_count_occ str_eq_dec), Permutation_map, H.
Qed.

(** Keeping the best [n] never adds an occurrence of a key. *)
Lemma top_by_score_key_count (k : str) (n : nat) (l : list str) :
  key_count k (top_by_score n l) <= key_count k l.
Proof.
  destruct (top_by_score_sub n l) as (rest & H).
  rewrite (key_count_perm k _ _ H), key_count_app. lia.
Qed.

(** What one call of [_pick_top_sentences] returns: at most [n] sentences,
    sorted by score, with pairwise different keys. *)
Lemma pick_top_sentences_length (text : str) (n : nat) :
  length (_pick_top_sentences text n) <= n.
Proof. rewrite pick_top_sentences_unfold, top_by_score_length. lia. Qed.

Lemma pick_top_sentences_key_count (k : str) (text : str) (n : nat) :
  key_count k (_pick_top_sentences text n) <= 1.
Proof.
  rewrite pick_top_sentences_unfold.
  etransitivity; [apply top_by_score_key_count|].
  apply (NoDup_count_occ str_eq_dec), unique_sentences_keys.
Qed.

Lemma pick_top_sentences_NoDup (text : str) (n : nat) :
  NoDup (map dedup_key (_pick_top_sentences text n)).
Proof.
  apply (NoDup_count_occ str_eq_dec). intros k.
  apply pick_top_sentences_key_count.
Qed.

Lemma pick_top_sentences_nil (text : str) (n : nat) :
  0 < n ->
  (_pick_top_sentences text n = []
   <-> Forall (fun s => dedup_key s = []) (_split_sentences text)).
Proof.
  intros Hn. rewrite pick_top_sentences_unfold, <- unique_sentences_nil.
  rewrite <- !length_zero_iff_nil, top_by_score_length. lia.
Qed.


(* ------------------------------------------------------------------ *)
(** ** [summarize_text] *)
(* ------------------------------------------------------------------ *)

Lemma chunks_of_length (pages : list str) :
  length (chunks_of pages) = chunk_count pages.
Proof.
  unfold chunks_of, chunk_count. rewrite !length_map, length_seq.
  f_equal. lia.
Qed.

(** [chunk_count] is the number of pages divided by 3 and rounded up. *)
Lemma chunk_count_ceil (pages : list str) :
  length pages <= 3 * chunk_count pages < length pages + 3.
Proof.
  unfold chunk_count.
  pose proof (Nat.div_mod_eq (length pages + 2) 3).
  pose proof (Nat.mod_upper_bound (length pages + 2) 3). lia.
Qed.

(** [summarize_text] never raises, and [summarized] is its result.  The step
    of the range is the constant 3, and with at least one page there is at
    least one chunk, so the fallback on [pages[:3]] is never taken. *)
Lemma summarize_text_unfold (pages : list str) :
  summarize_text pages = Ok (summarized pages).
Proof.
  destruct pages as [|p pages]; [vm_compute; reflexivity|].
  unfold summarize_text, py_range. cbn [Nat.eqb bind].
  fold (chunks_of (p :: pages)). unfold summarized, lead_text.
  pose proof (chunks_of_length (p :: pages)) as L.
  destruct (chunks_of (p :: pages)) as [|c cs] eqn:E; [|reflexivity].
  exfalso. pose proof (chunk_count_ceil (p :: pages)) as C.
  simpl length in *. lia.
Qed.

Lemma flat_map_length_le {A B : Type} (f : A -> list B) (n : nat) (l : list A) :
  (forall a, length (f a) <= n) -> length (flat_map f l) <= n * length l.
Proof.
  intros H. induction l as [|a l IH]; simpl; [lia|].
  rewrite length_app. specialize (H a). lia.
Qed.

Lemma flat_map_key_count (k : str) (f : str -> list str) (l : list str) :
  (forall a, key_count k (f a) <= 1) -> key_count k (flat_map f l) <= length l.
Proof.
  intros H. induction l as [|a l IH]; simpl; [unfold key_count; simpl; lia|].
  rewrite key_count_app. specialize (H a). lia.
Qed.

Lemma key_points_length (pages : list str) :
  length (key_points (summarized pages)) <= Nat.min 12 (7 * chunk_count pages).
Proof.
  cbn [key_points summarized]. rewrite top_by_score_length, <- chunks_of_length.
  pose proof (flat_map_length_le (fun chunk => _pick_top_sentences chunk 7) 7
                (chunks_of pages) (fun c => pick_top_sentences_length c 7)).
  lia.
Qed.

Lemma key_points_key_count (k : str) (pages : list str) :
  key_count k (key_points (summarized pages)) <= chunk_count pages.
Proof.
  cbn [key_points summarized]. etransitivity; [apply top_by_score_key_count|].
  rewrite <- chunks_of_length. apply flat_map_key_count.
  intros c. apply pick_top_sentences_key_count.
Qed.

Lemma chunk_count_small (pages : list str) :
  length pages <= 3 -> chunk_count pages <= 1.
Proof.
  intros H. pose proof (chunk_count_ceil pages). lia.
Qed.

(** The sentences of a summary or of a chunk's picks are sentences of the
    text: they have at least 30 characters. *)
Lemma dedup_loop_incl (l : list str) (st : gset str * list str) (s : str) :
  In s (snd (fold_left dedup_step l st)) -> In s (snd st) \/ In s l.
Proof.
  revert st. induction l as [|x l IH]; intros [seen unique]; simpl; [auto|].
  intros H. apply IH in H as [H | H]; [|auto].
  unfold dedup_step in H. destruct (_ && _); simpl in H; [|auto].
  apply in_app_iff in H as [H | [<- | []]]; auto.
Qed.

Lemma pick_top_sentences_incl (text : str) (n : nat) (s : str) :
  In s (_pick_top_sentences text n) -> In s (_split_sentences text).
Proof.
  rewrite pick_top_sentences_unfold. intros H.
  destruct (top_by_score_sub n (unique_sentences text)) as (rest & P).
  assert (In s (unique_sentences text)).
  { apply (Permutation_in s (Permutation_sym P)), in_app_iff. now left. }
  apply dedup_loop_incl in H0 as [[] | H0]. exact H0.
Qed.

Lemma join_nil (sep : str) (l : list str) :
  Forall (fun s => s <> []) l -> (str_join sep l = [] <-> l = []).
Proof.
  intros H. split; [|now intros ->].
  destruct H as [|s l Hs _]; [reflexivity|].
  simpl. destruct l; intros E; [congruence|].
  apply app_eq_nil in E as [E _]. congruence.
Qed.

Lemma summary_nil (pages : list str) :
  summary (summarized pages) = []
  <-> Forall (fun s => dedup_key s = []) (_split_sentences (lead_text pages)).
Proof.
  cbn [summary summarized]. rewrite join_nil.
  - apply pick_top_sentences_nil. lia.
  - apply Forall_forall. intros s Hs. apply pick_top_sentences_incl in Hs.
    pose proof (split_sentences_Forall (lead_text pages)) as F.
    rewrite Forall_forall in F. destruct (F s Hs) as [L _].
    destruct s; simpl in L; [lia | discriminate].
Qed.

(* ------------------------------------------------------------------ *)
(** ** Blank text *)
(* ------------------------------------------------------------------ *)

Lemma strip_blank (s : str) : blank s -> str_strip s = [].
Proof.
  intros H. unfold str_strip, str_lstrip.
  rewrite <- (app_nil_r s), (drop_class_app isspace s [] H I). reflexivity.
Qed.

Lemma join_blank (sep : str) (l : list str) :
  blank sep -> Forall blank l -> blank (str_join sep l).
Proof.
  intros Hsep H. induction H as [|p ps Hp Hps IH]; [constructor|].
  simpl. destruct ps as [|q ps]; [exact Hp|].
  apply Forall_app. split; [exact Hp|]. apply Forall_app. split; [exact Hsep | exact IH].
Qed.

Lemma no_boundary_blank (ahead : ascii -> bool) (s : str) :
  blank s -> ~ has_boundary ahead s.
Proof.
  intros H (a & w & b & -> & (a' & t & -> & Ht) & _).
  apply Forall_app in H as [H _]. apply Forall_app in H as [_ H].
  inversion H; subst. apply is_terminal_not_space in Ht. congruence.
Qed.

(** A blank text holds no sentence. *)
Lemma split_sentences_blank (text : str) : blank text -> _split_sentences text = [].
Proof.
  intros H. unfold _split_sentences.
  rewrite (SplitAt_functional is_sentence_start sentence_start_not_space text
             (re_split_sentences is_sentence_start text) [text]).
  - cbn [map]. unfold clean_sentence, re_sub_run.
    rewrite strip_blank; [reflexivity|].
    apply sub_run_Forall; [repeat constructor | constructor | exact H].
  - apply re_split_sentences_spec, sentence_start_not_space.
  - apply SplitAt_last, no_boundary_blank, H.
Qed.

Lemma pick_top_sentences_blank (text : str) (n : nat) :
  blank text -> _pick_top_sentences text n = [].
Proof.
  intros H. rewrite pick_top_sentences_unfold. unfold unique_sentences.
  rewrite (split_sentences_blank text H). unfold top_by_score. cbn.
  now rewrite firstn_nil.
Qed.

Lemma chunks_of_blank (pages : list str) :
  Forall blank pages -> Forall blank (chunks_of pages).
Proof.
  intros H. unfold chunks_of. apply Forall_forall. intros c Hc.
  apply in_map_iff in Hc as (i & <- & _).
  apply join_blank; [repeat constructor|]. unfold slice.
  rewrite <- (firstn_skipn i pages) in H. apply Forall_app in H as [_ H].
  rewrite <- (firstn_skipn (i + 3 - i) (skipn i pages)) in H.
  now apply Forall_app in H as [H _].
Qed.

Lemma summarized_blank (pages : list str) :
  Forall blank pages -> summarized pages = empty_result.
Proof.
  intros H. pose proof (chunks_of_blank pages H) as C.
  unfold summarized, empty_result. f_equal.
  - rewrite pick_top_sentences_blank; [reflexivity|].
    apply join_blank; [repeat constructor|]. unfold lead_text.
    rewrite <- (firstn_skipn 3 (chunks_of pages)) in C.
    now apply Forall_app in C as [C _].
  - replace (flat_map _ (chunks_of pages)) with (@nil str); [reflexivity|].
    symmetry. induction C as [|c cs Hc _ IH]; [reflexivity|].
    simpl. now rewrite (pick_top_sentences_blank c 7 Hc), IH.
Qed.

(* ------------------------------------------------------------------ *)
(** ** The text of the summary: the first nine pages *)
(* ------------------------------------------------------------------ *)

Lemma firstn_chunks_of (pages : list str) :
  firstn 3 (chunks_of pages)
  = map (fun i => str_join PARAGRAPH (slice pages i (i + 3)))
        (map (fun k => 0 + k * 3) (seq 0 (Nat.min 3 (chunk_count pages)))).
Proof.
  unfold chunks_of. rewrite !firstn_map, take_seq. unfold chunk_count.
  replace (length pages - 0 + 3 - 1) with (length pages + 2) by lia.
  reflexivity.
Qed.

(** The first three chunks, joined by blank lines, are the first nine pages
    joined by blank lines. *)
Lemma lead_text_first_pages (pages : list str) :
  lead_text pages = str_join PARAGRAPH (firstn 9 pages).
Proof.
  unfold lead_text. rewrite firstn_chunks_of.
  destruct pages as [|p1 [|p2 [|p3 [|p4 [|p5 [|p6 [|p7 [|p8 [|p9 rest]]]]]]]]];
    try (cbn; repeat (rewrite <- app_assoc || rewrite <- app_comm_cons);
         reflexivity).
  replace (Nat.min 3 (chunk_count _)) with 3.
  - cbn. repeat (rewrite <- app_assoc || rewrite <- app_comm_cons).
    reflexivity.
  - pose proof (chunk_count_ceil (p1 :: p2 :: p3 :: p4 :: p5 :: p6 :: p7 :: p8 :: p9 :: rest)).
    simpl length in *. lia.
Qed.

(* ------------------------------------------------------------------ *)
(** ** Claim C9 *)
(* ------------------------------------------------------------------ *)

(** C9. For every list of pages, [summarize_text] returns a result and
    raises nothing: the only operation of it that can raise is the range of
    the chunk loop, whose step is 3.  Pages that are empty or hold spaces
    only give the empty result. *)
Theorem summarize_text_total (pages : list str) :
  exists r : SummaryResult,
    summarize_text pages = Ok r
    /\ (Forall blank pages -> r = empty_result).
Proof.
  exists (summarized pages). split; [apply summarize_text_unfold|].
  apply summarized_blank.
Qed.

Lemma summarize_text_total_witness :
  Forall blank blank_pages
  /\ exists r, summarize_text blank_pages = Ok r /\ r = empty_result.
Proof.
  assert (H : Forall blank blank_pages) by (repeat constructor).
  split; [exact H|].
  destruct (summarize_text_total blank_pages) as (r & E & B).
  exists r. split; [exact E | exact (B H)].
Defined.

(* ------------------------------------------------------------------ *)
(** ** Claim C10 *)
(* ------------------------------------------------------------------ *)

(** C10. The key points of a list of pages are at most 7 for each chunk of
    3 pages, that is at most [7 * ceil(len(pages) / 3)]; with 3 pages or
    fewer there are at most 7 of them. *)
Theorem key_points_chunk_bound (pages : list str) :
  exists r, summarize_text pages = Ok r
    /\ length pages <= 3 * chunk_count pages < length pages + 3
    /\ length (key_points r) <= 7 * chunk_count pages
    /\ (length pages <= 3 -> length (key_points r) <= 7).
Proof.
  exists (summarized pages). split; [apply summarize_text_unfold|].
  split; [apply chunk_count_ceil|].
  pose proof (key_points_length pages) as L.
  split; [lia|]. intros H. apply chunk_count_small in H. lia.
Qed.

Lemma key_points_chunk_bound_witness :
  length three_pages <= 3
  /\ exists r, summarize_text three_pages = Ok r /\ length (key_points r) <= 7.
Proof.
  assert (H : length three_pages <= 3) by (simpl; lia).
  split; [exact H|].
  destruct (key_points_chunk_bound three_pages) as (r & E & _ & _ & B).
  exists r. split; [exact E | exact (B H)].
Defined.

(* ------------------------------------------------------------------ *)
(** ** Claim C1 *)
(* ------------------------------------------------------------------ *)

(** What [summarize_text] returns for [repeated_pages]: the two chunks each
    give the sentence, and both copies are key points. *)
Example summarize_repeated_pages :
  summarize_text repeated_pages
  = Ok {| summary := repeated_sentence;
          key_points := [repeated_sentence; repeated_sentence] |}.
Proof. vm_compute. reflexivity. Qed.

(** C1, as stated, fails.  The deduplication runs inside
    [_pick_top_sentences], once for each chunk; the pool of all chunks is
    sorted and cut, and is not deduplicated again.  A sentence that stands
    on page 1 and on page 4 is in two chunks and comes out twice. *)
Lemma repeated_sentence_is_kept_twice : ~ key_points_distinct repeated_pages.
Proof.
  intros H.
  destruct (H _ summarize_repeated_pages) as (_ & _ & N).
  cbn [key_points map] in N. apply NoDup_cons_iff in N as [N _].
  apply N. left. reflexivity.
Qed.

(** C1, amended.  For every list of pages, [key_points] has at most 12
    entries and is sorted non-increasing by score; a normalized key occurs
    in it at most once for each chunk of 3 pages (the deduplication is per
    chunk), so with at most 3 pages no two entries share a key.  A sentence
    that occurs in different chunks can appear once for each of them. *)
Theorem key_points_capped_sorted_distinct_per_chunk (pages : list str) :
  exists r, summarize_text pages = Ok r
    /\ length (key_points r) <= 12
    /\ sorted_by_score (key_points r)
    /\ (forall k, key_count k (key_points r) <= chunk_count pages)
    /\ (length pages <= 3 -> NoDup (map dedup_key (key_points r))).
Proof.
  exists (summarized pages). split; [apply summarize_text_unfold|].
  pose proof (key_points_length pages) as L.
  split; [lia|]. split; [apply top_by_score_sorted|].
  split; [intros k; apply key_points_key_count|].
  intros H. apply chunk_count_small in H.
  apply (NoDup_count_occ str_eq_dec). intros k.
  pose proof (key_points_key_count k pages) as K. unfold key_count in K. lia.
Qed.

Lemma key_points_capped_sorted_distinct_per_chunk_witness :
  length three_pages <= 3
  /\ exists r, summarize_text three_pages = Ok r
       /\ NoDup (map dedup_key (key_points r)).
Proof.
  assert (H : length three_pages <= 3) by (simpl; lia).
  split; [exact H|].
  destruct (key_points_capped_sorted_distinct_per_chunk three_pages)
    as (r & E & _ & _ & _ & N).
  exists r. split; [exact E | exact (N H)].
Defined.

(* ------------------------------------------------------------------ *)
(** ** Claim C2 *)
(* ------------------------------------------------------------------ *)

(** C2, as stated, fails.  The one page [""] is a page list that is not
    empty, and its summary is empty: the page holds no sentence. *)
Lemma blank_page_gives_empty_summary : ~ summary_empty_iff_no_pages [[]].
Proof.
  intros H.
  assert (E : summarize_text [[]] = Ok {| summary := []; key_points := [] |})
    by (vm_compute; reflexivity).
  apply H in E. cbn [summary] in E. destruct E as [E _].
  specialize (E eq_refl). discriminate E.
Qed.

(** C2, amended.  An empty page list gives the empty summary and no key
    points.  In general the summary is empty exactly when the first nine
    pages, joined by blank lines, hold no candidate sentence with a
    non-empty normalized key; this is so for the empty page list and also
    for page lists that are not empty, such as the one page [""]. *)
Theorem summary_empty_iff_no_sentence (pages : list str) :
  exists r, summarize_text pages = Ok r
    /\ (pages = [] -> summary r = [] /\ key_points r = [])
    /\ (summary r = []
        <-> Forall (fun s => dedup_key s = [])
                   (_split_sentences (str_join PARAGRAPH (firstn 9 pages)))).
Proof.
  exists (summarized pages). split; [apply summarize_text_unfold|].
  split; [|rewrite <- lead_text_first_pages; apply summary_nil].
  intros ->. split; vm_compute; reflexivity.
Qed.

Lemma summary_empty_iff_no_sentence_witness :
  (@nil str) = [] /\ exists r, summarize_text [] = Ok r /\ summary r = [] /\ key_points r = [].
Proof.
  split; [reflexivity|].
  destruct (summary_empty_iff_no_sentence []) as (r & E & Z & _).
  exists r. split; [exact E | exact (Z eq_refl)].
Defined.


(* ------------------------------------------------------------------ *)
(** ** The keyword searches of the scorer *)
(* ------------------------------------------------------------------ *)

Lemma contains_ci_spec (p s : str) : contains_ci p s = true <-> OccursCI p s.
Proof.
  unfold OccursCI. induction s as [|c s IH].
  - simpl. rewrite orb_false_r, starts_with_ci_spec. split.
    + intros (k & b & E & L). exists [], k, b. split; assumption.
    + intros (a & k & b & E & L). destruct a; [|discriminate].
      exists k, b. split; assumption.
  - simpl. rewrite orb_true_iff, starts_with_ci_spec, IH. split.
    + intros [(k & b & E & L) | (a & k & b & E & L)].
      * exists [], k, b. split; assumption.
      * exists (c :: a), k, b. simpl. rewrite E. split; [reflexivity | assumption].
    + intros (a & k & b & E & L). destruct a as [|x a].
      * left. exists k, b. split; assumption.
      * right. injection E as -> E. exists a, k, b. split; assumption.
Qed.

Lemma re_search_any_ci_spec (alts : list str) (s : str) :
  re_search_any_ci alts s = true <-> has_term alts s.
Proof.
  unfold re_search_any_ci, has_term. rewrite existsb_exists.
  split; intros (t & Ht & H); exists t; (split; [exact Ht|]);
    now apply contains_ci_spec.
Qed.

(* ------------------------------------------------------------------ *)
(** ** Claim C4 *)
(* ------------------------------------------------------------------ *)

(** C4, as stated, fails.  [yoy_sentence] holds the term year-over-year,
    and its score has no domain-signal term: the pattern of the code lists
    [yoy], [qoq], [capex], [opex] and [free cash], not the spelled-out
    terms of the specification. *)
Lemma spelled_out_term_scores_nothing :
  ~ (has_term spec_domain_terms yoy_sentence -> adds_signal_term yoy_sentence).
Proof.
  intros H.
  assert (P : has_term spec_domain_terms yoy_sentence).
  { apply re_search_any_ci_spec. vm_compute. reflexivity. }
  apply H in P. unfold adds_signal_term in P. vm_compute in P. discriminate P.
Qed.

(** C4, amended.  For every sentence that contains, in any letter case, one
    of the strings yoy, qoq, guidance, margin, dividend, order book, backlog,
    capex, opex or free cash, [_score_sentence] adds the domain-signal term
    0.6 to the score of the earlier terms (the penalty term follows); for
    every other sentence the term is left out. *)
Theorem score_sentence_signal_term (s : str) :
  (has_term DOMAIN_SIGNALS s -> adds_signal_term s)
  /\ (~ has_term DOMAIN_SIGNALS s ->
      _score_sentence s = penalty_term s (score_before_signal s)).
Proof.
  unfold adds_signal_term, _score_sentence, score_before_signal, signal_term.
  rewrite <- re_search_any_ci_spec. cbv zeta.
  destruct (re_search_any_ci DOMAIN_SIGNALS s); split; intros H;
    try reflexivity; congruence.
Qed.

Lemma score_sentence_signal_term_witness :
  has_term DOMAIN_SIGNALS capex_sentence /\ adds_signal_term capex_sentence.
Proof.
  assert (P : has_term DOMAIN_SIGNALS capex_sentence).
  { apply re_search_any_ci_spec. vm_compute. reflexivity. }
  split; [exact P | exact (proj1 (score_sentence_signal_term capex_sentence) P)].
Defined.

(** The scores of the two sentences, as binary64 numbers: 1.7 for the first
    (1.0 for its 13 words and 0.7 for the word product), and 1.9 for the
    second (1.0 for its 15 words, 0.3 for the number 120 and 0.6 for capex
    and guidance). *)
Example score_yoy_sentence : _score_sentence yoy_sentence = decimal 17 1.
Proof. vm_compute. reflexivity. Qed.

Example score_capex_sentence : _score_sentence capex_sentence = decimal 19 1.
Proof. vm_compute. reflexivity. Qed.


(* ------------------------------------------------------------------ *)
(** ** [extract_pages_text]: the missing file (claim C6) *)
(* ------------------------------------------------------------------ *)

(** A [try] whose handler returns cannot raise. *)
Lemma io_try_returns {A : Type} (m : IO A) (a : A) :
  exists t b, io_try m (io_ret a) = (t, Ok b).
Proof.
  destruct m as [t [b|e]]; simpl; [exists t, b | exists (t ++ []), a]; reflexivity.
Qed.

(** With the file in place, [extract_pages_text] returns pages or raises
    [RuntimeError]. *)
Lemma extract_pages_text_outcome (w : World) (path : str) :
  isfile w path = true ->
  (exists pages, snd (extract_pages_text w path) = Ok pages /\ pages <> [])
  \/ snd (extract_pages_text w path) = Raise RuntimeError.
Proof.
  intros F. unfold extract_pages_text. rewrite F. cbn [negb].
  assert (S1 : exists t pages,
             (if is_some (fitz w)
              then io_try (_extract_text_pymupdf w path) (io_ret [])
              else io_ret []) = (t, Ok pages)).
  { destruct (is_some (fitz w)); [apply io_try_returns|].
    exists [], []. reflexivity. }
  destruct S1 as (t1 & pages1 & ->). cbn [io_bind].
  assert (S2 : exists t pages,
             (if no_pages pages1 && is_some (extract_pages w)
              then io_try (_extract_text_pdfminer w path) (io_ret [])
              else io_ret pages1) = (t, Ok pages)).
  { destruct (no_pages pages1 && is_some (extract_pages w));
      [apply io_try_returns|]. exists [], pages1. reflexivity. }
  destruct S2 as (t2 & pages2 & ->). cbn [io_bind].
  destruct pages2 as [|p ps]; simpl.
  - right. reflexivity.
  - left. exists (p :: ps). split; [reflexivity | discriminate].
Qed.

(** C6. For a path that names no regular file, [extract_pages_text] raises
    the assertion error at once: no backend is called and nothing is
    written, also when the call comes from [run].  For a path that names a
    regular file it never raises that error. *)
Theorem extract_pages_text_missing_file (w : World) (path : str) :
  (isfile w path = false ->
     extract_pages_text w path = ([], Raise AssertionError)
     /\ run w path = ([], Raise AssertionError))
  /\ (isfile w path = true ->
     snd (extract_pages_text w path) <> Raise AssertionError).
Proof.
  split.
  - intros F.
    assert (E : extract_pages_text w path = ([], Raise AssertionError)).
    { unfold extract_pages_text. now rewrite F. }
    split; [exact E|]. unfold run. now rewrite E.
  - intros F.
    destruct (extract_pages_text_outcome w path F) as [(pages & -> & _) | ->];
      discriminate.
Qed.

Lemma extract_pages_text_missing_file_witness :
  (isfile sample_world missing_pdf = false
   /\ run sample_world missing_pdf = ([], Raise AssertionError))
  /\ (isfile sample_world report_pdf = true
      /\ snd (extract_pages_text sample_world report_pdf) <> Raise AssertionError).
Proof.
  assert (F1 : isfile sample_world missing_pdf = false) by reflexivity.
  assert (F2 : isfile sample_world report_pdf = true) by reflexivity.
  destruct (extract_pages_text_missing_file sample_world missing_pdf) as [M _].
  destruct (extract_pages_text_missing_file sample_world report_pdf) as [_ R].
  split; split; [exact F1 | exact (proj2 (M F1)) | exact F2 | exact (R F2)].
Defined.

(** What [run] does in [sample_world] on the PDF that is there: one call of
    the layout backend, then the directory and the two reports. *)
Example run_sample_world :
  fst (run sample_world report_pdf)
  = [CallLayout report_pdf;
     Makedirs (txt "outputs/summaries");
     WriteFile (txt "outputs/summaries/acme.2023.summary.txt");
     WriteFile (txt "outputs/summaries/acme.2023.summary.json")].
Proof. vm_compute. reflexivity. Qed.

(* ================================================================== *)
(** * Part III: further properties of the functions *)
(* ================================================================== *)

(* ------------------------------------------------------------------ *)
(** ** [_normalize_whitespace]: what it keeps *)
(* ------------------------------------------------------------------ *)

Lemma visible_app (a b : str) : visible (a ++ b) = visible a ++ visible b.
Proof. apply filter_app. Qed.

Lemma visible_cons (c : ascii) (s : str) :
  visible (c :: s) = if isspace c then visible s else c :: visible s.
Proof. unfold visible. simpl. now destruct (isspace c). Qed.

Lemma visible_blank (s : str) : blank s -> visible s = [].
Proof.
  induction 1 as [|c s E _ IH]; [reflexivity|].
  unfold visible in *. simpl. rewrite E. exact IH.
Qed.

Lemma visible_nil_blank (s : str) : visible s = [] -> blank s.
Proof.
  induction s as [|c s IH]; intros H; [constructor|].
  unfold visible in H. simpl in H.
  destruct (isspace c) eqn:E; [|discriminate].
  constructor; [exact E | apply IH, H].
Qed.

Lemma visible_strip (s : str) : visible (str_strip s) = visible s.
Proof.
  destruct (strip_infix s) as (a & b & E & Ha & Hb).
  rewrite E at 2. rewrite !visible_app, (visible_blank a Ha), (visible_blank b Hb).
  now rewrite app_nil_r.
Qed.

Lemma strip_length (s : str) : length (str_strip s) <= length s.
Proof.
  destruct (strip_infix s) as (a & b & E & _ & _).
  rewrite E at 2. rewrite !length_app. lia.
Qed.

Lemma visible_sub_crlf (s : str) : visible (sub_crlf s) = visible s.
Proof.
  assert (H : forall n s, length s <= n -> visible (sub_crlf s) = visible s).
  { induction n as [|n IH]; intros [|c t] L; try reflexivity;
      cbn [length] in L; try lia.
    cbn [sub_crlf]. destruct (is_char CR c) eqn:E.
    - apply is_char_true in E. subst c.
      destruct t as [|c' t']; [reflexivity|].
      destruct (is_char LF c') eqn:E'.
      + apply is_char_true in E'. subst c'.
        rewrite !visible_cons. cbn [length] in L.
        change (isspace LF) with true. change (isspace CR) with true.
        cbv iota. apply IH. lia.
      + rewrite (visible_cons LF), (visible_cons CR).
        change (isspace LF) with true. change (isspace CR) with true.
        cbv iota. apply IH. lia.
    - rewrite !visible_cons, IH by lia. reflexivity. }
  apply (H (length s)). lia.
Qed.

Lemma sub_crlf_length (s : str) : length (sub_crlf s) <= length s.
Proof.
  assert (H : forall n s, length s <= n -> length (sub_crlf s) <= length s).
  { induction n as [|n IH]; intros [|c t] L; simpl in *; try lia.
    destruct (is_char CR c).
    - destruct t as [|c' t']; [simpl; lia|].
      destruct (is_char LF c'); simpl.
      + specialize (IH t'). simpl in L. lia.
      + specialize (IH (c' :: t')). simpl in IH. simpl in L. lia.
    - simpl. specialize (IH t). lia. }
  apply (H (length s)). lia.
Qed.

Section SubRunKeeps.
Variable p : ascii -> bool.
Variable least : nat.
Variable rep : str.
Hypothesis class_spaces : forall c, p c = true -> isspace c = true.
Hypothesis rep_blank : blank rep.

Lemma class_blank (run : str) : Forall (fun c => p c = true) run -> blank run.
Proof using class_spaces. apply Forall_impl, class_spaces. Qed.

Lemma visible_flush_run (run : str) :
  Forall (fun c => p c = true) run -> visible (flush_run least rep run) = [].
Proof using class_spaces rep_blank.
  intros H. apply visible_blank. destruct run as [|c run]; [constructor|].
  unfold flush_run. destruct (least <=? _); [exact rep_blank | apply class_blank, H].
Qed.

Lemma visible_sub_run (s run : str) :
  Forall (fun c => p c = true) run ->
  visible (sub_run p least rep run s) = visible s.
Proof using class_spaces rep_blank.
  revert run. induction s as [|c s IH]; intros run Hrun; cbn [sub_run].
  - now apply visible_flush_run.
  - destruct (p c) eqn:E.
    + rewrite IH.
      * now rewrite visible_cons, (class_spaces c E).
      * apply Forall_app. split; [exact Hrun | constructor; [exact E | constructor]].
    + rewrite visible_app, visible_flush_run by exact Hrun.
      rewrite !visible_cons, (IH []) by constructor. reflexivity.
Qed.

Hypothesis rep_short : length rep <= least.

Lemma flush_run_length (run : str) : length (flush_run least rep run) <= length run.
Proof using rep_short.
  destruct run as [|c run]; [simpl; lia|]. unfold flush_run.
  destruct (Nat.leb_spec least (length (c :: run))); lia.
Qed.

Lemma sub_run_length (s run : str) :
  length (sub_run p least rep run s) <= length run + length s.
Proof using rep_short.
  revert run. induction s as [|c s IH]; intros run; simpl.
  - pose proof (flush_run_length run). lia.
  - destruct (p c).
    + specialize (IH (run ++ [c])). rewrite length_app in IH. simpl in IH. lia.
    + rewrite length_app. simpl. pose proof (flush_run_length run).
      specialize (IH []). simpl in IH. lia.
Qed.

End SubRunKeeps.

Lemma tab_or_nbsp_space (c : ascii) : is_tab_or_nbsp c = true -> isspace c = true.
Proof.
  unfold is_tab_or_nbsp. intros H. apply orb_true_iff in H as [H|H];
    apply is_char_true in H; subst c; reflexivity.
Qed.

Lemma lf_space (c : ascii) : is_char LF c = true -> isspace c = true.
Proof. intros H. apply is_char_true in H. subst c. reflexivity. Qed.

Lemma normalize_whitespace_visible (s : str) :
  visible (_normalize_whitespace s) = visible s.
Proof.
  unfold _normalize_whitespace, re_sub_run.
  rewrite visible_strip.
  rewrite (visible_sub_run (is_char LF) 3 [LF; LF] lf_space);
    [|repeat constructor | constructor].
  rewrite (visible_sub_run is_tab_or_nbsp 1 [SPACE] tab_or_nbsp_space);
    [|repeat constructor | constructor].
  apply visible_sub_crlf.
Qed.

Lemma normalize_whitespace_length (s : str) :
  length (_normalize_whitespace s) <= length s.
Proof.
  unfold _normalize_whitespace, re_sub_run.
  etransitivity; [apply strip_length|].
  etransitivity; [apply (sub_run_length (is_char LF) 3 [LF; LF]); simpl; lia|].
  etransitivity; [apply (sub_run_length is_tab_or_nbsp 1 [SPACE]); simpl; lia|].
  simpl. apply sub_crlf_length.
Qed.

(** X1. The texts that [_normalize_whitespace] leaves as they are are the
    normalized ones, and every result is one of them: it holds no carriage
    return, tab or no-break space, no three line feeds in a row, and no space
    at its ends. *)
Theorem normalize_whitespace_normal_form (s : str) :
  normalized (_normalize_whitespace s)
  /\ (_normalize_whitespace s = s <-> normalized s).
Proof.
  split; [apply normalize_whitespace_normalized|]. split.
  - intros <-. apply normalize_whitespace_normalized.
  - apply normalize_whitespace_fixed.
Qed.

(** X2. [_normalize_whitespace] only touches spaces: the visible characters of
    the text stay, in their order, and the text does not grow. *)
Theorem normalize_whitespace_keeps_visible (s : str) :
  visible (_normalize_whitespace s) = visible s
  /\ length (_normalize_whitespace s) <= length s.
Proof.
  split; [apply normalize_whitespace_visible | apply normalize_whitespace_length].
Qed.

(** X3. On a text without carriage return, tab and no-break space, and without
    three line feeds in a row, [_normalize_whitespace] is [strip]: the runs
    of ordinary spaces inside the text are not collapsed. *)
Theorem normalize_whitespace_plain_text (s : str) :
  plain_spaces s -> runs_below (is_char LF) 3 s ->
  _normalize_whitespace s = str_strip s.
Proof.
  intros Hp Hl. unfold _normalize_whitespace, re_sub_run.
  rewrite (sub_crlf_id s) by (eapply Forall_impl, Hp; now intros c [H _]).
  rewrite (sub_run_id is_tab_or_nbsp 1 [SPACE] s []);
    [|constructor | apply runs_below_one; eapply Forall_impl, Hp; now intros c [_ H]].
  simpl. rewrite (sub_run_id (is_char LF) 3 [LF; LF] s []);
    [reflexivity | constructor | exact Hl].
Qed.

Lemma normalize_whitespace_plain_text_witness :
  plain_spaces spaced_text /\ runs_below (is_char LF) 3 spaced_text
  /\ _normalize_whitespace spaced_text
     = txt "Total  income " ++ [LF; LF] ++ txt "rose".
Proof.
  assert (Hp : plain_spaces spaced_text) by (repeat constructor).
  assert (Hl : runs_below (is_char LF) 3 spaced_text).
  { replace spaced_text with (sub_run (is_char LF) 3 [LF; LF] [] spaced_text)
      by reflexivity.
    apply sub_run_below; [lia | lia | apply runs_below_short; simpl; lia]. }
  split; [exact Hp|]. split; [exact Hl|].
  rewrite (normalize_whitespace_plain_text spaced_text Hp Hl). reflexivity.
Defined.

(* ------------------------------------------------------------------ *)
(** ** [_normalize_whitespace] and the spaces around a text *)
(* ------------------------------------------------------------------ *)

Lemma sub_run_cut (p : ascii -> bool) (least : nat) (rep a b run : str) (c : ascii) :
  p c = false ->
  sub_run p least rep run (a ++ c :: b)
  = sub_run p least rep run a ++ c :: sub_run p least rep [] b.
Proof.
  intros Hc. revert run. induction a as [|x a IH]; intros run; simpl.
  - now rewrite Hc.
  - destruct (p x); [apply IH|]. rewrite IH, <- app_assoc. reflexivity.
Qed.

Lemma sub_crlf_other (x : ascii) (s : str) :
  is_char CR x = false -> sub_crlf (x :: s) = x :: sub_crlf s.
Proof. intros H. simpl. now rewrite H. Qed.

Lemma sub_crlf_cr_lf (s : str) : sub_crlf (CR :: LF :: s) = LF :: sub_crlf s.
Proof. reflexivity. Qed.

Lemma sub_crlf_cr (y : ascii) (s : str) :
  is_char LF y = false -> sub_crlf (CR :: y :: s) = LF :: sub_crlf (y :: s).
Proof. intros H. cbn [sub_crlf]. change (is_char CR CR) with true. now rewrite H. Qed.

Lemma sub_crlf_cut (a b : str) (c : ascii) :
  isspace c = false -> sub_crlf (a ++ c :: b) = sub_crlf a ++ c :: sub_crlf b.
Proof.
  intros Hc.
  assert (Hcr : is_char CR c = false).
  { destruct (is_char CR c) eqn:E; [|reflexivity].
    apply is_char_true in E. subst c. discriminate. }
  assert (Hlf : is_char LF c = false).
  { destruct (is_char LF c) eqn:E; [|reflexivity].
    apply is_char_true in E. subst c. discriminate. }
  assert (H : forall n a, length a <= n ->
            sub_crlf (a ++ c :: b) = sub_crlf a ++ c :: sub_crlf b).
  { induction n as [|n IH]; intros [|x t] L; cbn [length] in L; try lia.
    - cbn [app]. now rewrite sub_crlf_other.
    - cbn [app]. now rewrite sub_crlf_other.
    - cbn [app]. destruct (is_char CR x) eqn:Ex.
      + apply is_char_true in Ex. subst x.
        destruct t as [|y t']; cbn [app].
        * rewrite (sub_crlf_cr c b Hlf), (sub_crlf_other c b Hcr). reflexivity.
        * cbn [length] in L. destruct (is_char LF y) eqn:Ey.
          -- apply is_char_true in Ey. subst y.
             rewrite !sub_crlf_cr_lf, IH by lia. reflexivity.
          -- rewrite !(sub_crlf_cr y _ Ey).
             change (y :: t' ++ c :: b) with ((y :: t') ++ c :: b).
             rewrite (IH (y :: t')) by (cbn [length]; lia). reflexivity.
      + rewrite !(sub_crlf_other x _ Ex), IH by lia. reflexivity. }
  apply (H (length a)). lia.
Qed.

Lemma has_core_ends (t : str) :
  has_core t ->
  exists c u, t = c :: u /\ isspace c = false
    /\ (u = [] \/ exists u' d, u = u' ++ [d] /\ isspace d = false).
Proof.
  intros (Hn & Hs & He). destruct t as [|c u]; [congruence|].
  exists c, u. split; [reflexivity|]. split; [exact Hs|].
  destruct u as [|x u] using rev_ind; [now left | right].
  exists u, x. split; [reflexivity|].
  unfold ends_clean in He. rewrite app_comm_cons, rev_app_distr in He. exact He.
Qed.

Lemma strip_padded (a t b : str) :
  blank a -> blank b -> starts_clean t -> ends_clean t ->
  str_strip (a ++ t ++ b) = t.
Proof.
  intros Ha Hb Hs He. unfold str_strip.
  assert (L : forall a t, blank a -> starts_clean t -> str_lstrip (a ++ t) = t).
  { intros a' t' Ha' Hs'. apply (drop_class_app isspace); assumption. }
  destruct t as [|c u].
  - simpl. rewrite <- (app_nil_r (a ++ b)), L;
      [|apply Forall_app; split; assumption | exact I].
    reflexivity.
  - rewrite (L a ((c :: u) ++ b) Ha Hs).
    unfold str_rstrip. rewrite rev_app_distr, L;
      [apply rev_involutive | apply Forall_rev, Hb | exact He].
Qed.

Section Pass.
Variable f : str -> str.
Hypothesis f_nil : f [] = [].
Hypothesis f_cut : forall a b c, isspace c = false -> f (a ++ c :: b) = f a ++ c :: f b.
Hypothesis f_visible : forall s, visible (f s) = visible s.

Lemma pass_blank (a : str) : blank a -> blank (f a).
Proof using f_visible.
  intros H. apply visible_nil_blank. rewrite f_visible. now apply visible_blank.
Qed.

Lemma pass_cons (c : ascii) (b : str) : isspace c = false -> f (c :: b) = c :: f b.
Proof using f_nil f_cut.
  intros Hc. pose proof (f_cut [] b c Hc) as E. now rewrite f_nil in E.
Qed.

Lemma pass_snoc (a : str) (d : ascii) : isspace d = false -> f (a ++ [d]) = f a ++ [d].
Proof using f_nil f_cut.
  intros Hd. now rewrite (f_cut a [] d Hd), f_nil.
Qed.

Lemma pass_core (t : str) : has_core t -> has_core (f t).
Proof using f_nil f_cut.
  intros H. destruct (has_core_ends t H) as (c & u & -> & Hc & [->|(u' & d & -> & Hd)]).
  - rewrite (pass_cons c [] Hc), f_nil. exact H.
  - rewrite (pass_cons c _ Hc), (pass_snoc u' d Hd).
    split; [discriminate|]. split; [exact Hc|].
    unfold ends_clean. rewrite app_comm_cons, rev_app_distr. exact Hd.
Qed.

Lemma pass_padded (a t b : str) :
  has_core t -> f (a ++ t ++ b) = f a ++ f t ++ f b.
Proof using f_nil f_cut.
  intros H. destruct (has_core_ends t H) as (c & u & -> & Hc & [->|(u' & d & -> & Hd)]).
  - cbn [app]. rewrite (f_cut a b c Hc), (pass_cons c [] Hc), f_nil. reflexivity.
  - cbn [app]. rewrite (f_cut a _ c Hc), (pass_cons c _ Hc), (pass_snoc u' d Hd).
    rewrite <- app_assoc. cbn [app]. rewrite (f_cut u' b d Hd).
    rewrite <- app_assoc. reflexivity.
Qed.

End Pass.

Lemma normalize_whitespace_padded (a t b : str) :
  blank a -> blank b -> has_core t ->
  _normalize_whitespace (a ++ t ++ b) = _normalize_whitespace t.
Proof.
  intros Ha Hb Ht.
  set (f1 := sub_crlf).
  set (f2 := sub_run is_tab_or_nbsp 1 [SPACE] []).
  set (f3 := sub_run (is_char LF) 3 [LF; LF] []).
  assert (N1 : f1 [] = []) by reflexivity.
  assert (N2 : f2 [] = []) by reflexivity.
  assert (N3 : f3 [] = []) by reflexivity.
  assert (C1 : forall a b c, isspace c = false -> f1 (a ++ c :: b) = f1 a ++ c :: f1 b)
    by (intros; now apply sub_crlf_cut).
  assert (C2 : forall a b c, isspace c = false -> f2 (a ++ c :: b) = f2 a ++ c :: f2 b).
  { intros x y c Hc. apply sub_run_cut.
    destruct (is_tab_or_nbsp c) eqn:E; [|reflexivity].
    apply tab_or_nbsp_space in E. congruence. }
  assert (C3 : forall a b c, isspace c = false -> f3 (a ++ c :: b) = f3 a ++ c :: f3 b).
  { intros x y c Hc. apply sub_run_cut.
    destruct (is_char LF c) eqn:E; [|reflexivity].
    apply lf_space in E. congruence. }
  assert (V1 : forall s, visible (f1 s) = visible s) by apply visible_sub_crlf.
  assert (V2 : forall s, visible (f2 s) = visible s).
  { intros s. apply (visible_sub_run _ _ _ tab_or_nbsp_space);
      [repeat constructor | constructor]. }
  assert (V3 : forall s, visible (f3 s) = visible s).
  { intros s. apply (visible_sub_run _ _ _ lf_space);
      [repeat constructor | constructor]. }
  assert (E : forall a b, blank a -> blank b ->
            _normalize_whitespace (a ++ t ++ b) = f3 (f2 (f1 t))).
  { intros x y Hx Hy. unfold _normalize_whitespace, re_sub_run.
    fold f1 f2 f3.
    rewrite (pass_padded f1 N1 C1 x t y Ht).
    rewrite (pass_padded f2 N2 C2 _ _ _ (pass_core f1 N1 C1 t Ht)).
    rewrite (pass_padded f3 N3 C3 _ _ _
               (pass_core f2 N2 C2 _ (pass_core f1 N1 C1 t Ht))).
    destruct (pass_core f3 N3 C3 _
               (pass_core f2 N2 C2 _ (pass_core f1 N1 C1 t Ht))) as (_ & Hs & He).
    apply strip_padded; [| |exact Hs|exact He].
    - apply (pass_blank f3 V3), (pass_blank f2 V2), (pass_blank f1 V1), Hx.
    - apply (pass_blank f3 V3), (pass_blank f2 V2), (pass_blank f1 V1), Hy. }
  rewrite (E a b Ha Hb).
  rewrite <- (E [] [] ltac:(constructor) ltac:(constructor)).
  now rewrite app_nil_r.
Qed.

Lemma normalize_whitespace_blank (s : str) : blank s -> _normalize_whitespace s = [].
Proof.
  intros H. pose proof (normalize_whitespace_visible s) as V.
  rewrite (visible_blank s H) in V. apply visible_nil_blank in V.
  destruct (normalize_whitespace_normalized s) as [_ _ _ Hs _].
  destruct (_normalize_whitespace s) as [|c t]; [reflexivity|].
  inversion V; subst. simpl in Hs. congruence.
Qed.

Lemma strip_core_or_blank (s : str) :
  (blank s /\ str_strip s = []) \/ has_core (str_strip s).
Proof.
  destruct (strip_clean s) as [Hs He].
  destruct (strip_infix s) as (a & b & E & Ha & Hb).
  destruct (str_strip s) as [|c t] eqn:Et.
  - left. split; [|reflexivity]. rewrite E. simpl.
    apply Forall_app. split; assumption.
  - right. split; [discriminate|]. split; assumption.
Qed.

Lemma normalize_whitespace_strip_eq (s : str) :
  _normalize_whitespace (str_strip s) = _normalize_whitespace s.
Proof.
  destruct (strip_core_or_blank s) as [[Hb E]|Hc].
  - rewrite E, (normalize_whitespace_blank s Hb). reflexivity.
  - destruct (strip_infix s) as (a & b & E & Ha & Hb).
    rewrite E at 2. symmetry. now apply normalize_whitespace_padded.
Qed.

Lemma normalize_whitespace_margins (a s b : str) :
  blank a -> blank b ->
  _normalize_whitespace (a ++ s ++ b) = _normalize_whitespace s.
Proof.
  intros Ha Hb.
  rewrite <- (normalize_whitespace_strip_eq (a ++ s ++ b)).
  rewrite <- (normalize_whitespace_strip_eq s).
  f_equal.
  destruct (strip_infix s) as (x & y & E & Hx & Hy).
  destruct (strip_clean s) as [Hs He].
  rewrite E at 1. rewrite <- !app_assoc, !app_assoc, <- app_assoc.
  rewrite <- (app_assoc (a ++ x)).
  apply strip_padded; try assumption; apply Forall_app; split; assumption.
Qed.

(** X4. The spaces around a text do not count: [_normalize_whitespace] gives the
    same result on a text, on the text stripped, and on the text with any
    spaces put around it. *)
Theorem normalize_whitespace_ignores_margins (a s b : str) :
  blank a -> blank b ->
  _normalize_whitespace (a ++ s ++ b) = _normalize_whitespace s
  /\ _normalize_whitespace (str_strip s) = _normalize_whitespace s.
Proof.
  intros Ha Hb. split; [now apply normalize_whitespace_margins|].
  apply normalize_whitespace_strip_eq.
Qed.

Lemma normalize_whitespace_ignores_margins_witness :
  blank [TAB; LF] /\ blank [CR; LF]
  /\ _normalize_whitespace ([TAB; LF] ++ spaced_text ++ [CR; LF])
     = _normalize_whitespace spaced_text.
Proof.
  assert (Ha : blank [TAB; LF]) by (repeat constructor).
  assert (Hb : blank [CR; LF]) by (repeat constructor).
  split; [exact Ha|]. split; [exact Hb|].
  exact (proj1 (normalize_whitespace_ignores_margins [TAB; LF] spaced_text [CR; LF] Ha Hb)).
Defined.

(* ------------------------------------------------------------------ *)
(** ** [_strip_headers_footers]: the result is a block of the page *)
(* ------------------------------------------------------------------ *)

Lemma split_nonempty (sep : ascii) (s : str) : str_split sep s <> [].
Proof.
  induction s as [|c s IH]; simpl; [discriminate|].
  destruct (is_char sep c); [discriminate|].
  destruct (str_split sep s); discriminate.
Qed.

(** Joining the pieces of a split gives the text back. *)
Lemma join_split (sep : ascii) (s : str) : str_join [sep] (str_split sep s) = s.
Proof.
  induction s as [|c s IH]; [reflexivity|]. cbn [str_split].
  destruct (is_char sep c) eqn:E.
  - apply is_char_true in E. subst c.
    destruct (str_split sep s) as [|p ps] eqn:Es; [now apply split_nonempty in Es|].
    cbn [str_join]. cbn [str_join] in IH. rewrite IH. reflexivity.
  - destruct (str_split sep s) as [|p ps] eqn:Es; [now apply split_nonempty in Es|].
    cbn [str_join] in *. destruct ps; rewrite <- IH; reflexivity.
Qed.

Lemma join_app (sep : str) (l m : list str) :
  l <> [] -> m <> [] ->
  str_join sep (l ++ m) = str_join sep l ++ sep ++ str_join sep m.
Proof.
  intros Hl Hm. induction l as [|p l IH]; [congruence|].
  destruct l as [|q l].
  - destruct m; [congruence | reflexivity].
  - change (str_join sep ((p :: q :: l) ++ m))
      with (p ++ sep ++ str_join sep ((q :: l) ++ m)).
    rewrite IH by discriminate.
    change (str_join sep (p :: q :: l)) with (p ++ sep ++ str_join sep (q :: l)).
    now rewrite <- !app_assoc.
Qed.

Lemma Infix_refl (s : str) : Infix s s.
Proof. exists [], []. now rewrite app_nil_r. Qed.

Lemma Infix_trans (a b c : str) : Infix a b -> Infix b c -> Infix a c.
Proof.
  intros (x & y & ->) (x' & y' & ->). exists (x' ++ x), (y ++ y').
  now rewrite <- !app_assoc.
Qed.

Lemma join_infix (sep : str) (l1 k l3 : list str) :
  Infix (str_join sep k) (str_join sep (l1 ++ k ++ l3)).
Proof.
  destruct k as [|p k]; [exists [], (str_join sep (l1 ++ l3)); reflexivity|].
  destruct l1 as [|q l1], l3 as [|r l3].
  - rewrite app_nil_r. apply Infix_refl.
  - change ([] ++ (p :: k) ++ r :: l3) with ((p :: k) ++ r :: l3).
    rewrite (join_app sep (p :: k) (r :: l3)) by discriminate.
    now exists [], (sep ++ str_join sep (r :: l3)).
  - rewrite app_nil_r, (join_app sep (q :: l1) (p :: k)) by discriminate.
    exists (str_join sep (q :: l1) ++ sep), []. now rewrite app_nil_r, <- app_assoc.
  - rewrite (join_app sep (q :: l1)) by discriminate.
    rewrite (join_app sep (p :: k) (r :: l3)) by discriminate.
    exists (str_join sep (q :: l1) ++ sep), (sep ++ str_join sep (r :: l3)).
    now rewrite <- !app_assoc.
Qed.

Lemma kept_lines_block (rt rb : bool) (lines : list str) :
  exists l1 l3, lines = l1 ++ kept_lines rt rb lines ++ l3.
Proof.
  unfold kept_lines.
  set (j := length lines - (if rb then 4 else 0)).
  set (i := if rt then 4 else 0).
  exists (firstn i (firstn j lines)), (skipn j lines).
  now rewrite app_assoc, (firstn_skipn i), (firstn_skipn j).
Qed.

(** The result is the page, or a stripped block of it. *)
Lemma strip_headers_footers_cases (text : str) :
  _strip_headers_footers text = text
  \/ exists block, Infix block text /\ _strip_headers_footers text = str_strip block.
Proof.
  destruct (Nat.le_gt_cases (line_count text) 8) as [L|L].
  - left. now apply strip_headers_footers_short.
  - right. rewrite (strip_headers_footers_long text L).
    eexists. split; [|reflexivity].
    remember (kept_lines
                (forallb removable_line (firstn 4 (str_split LF text)))
                (forallb removable_line
                   (skipn (length (str_split LF text) - 4) (str_split LF text)))
                (str_split LF text)) as k eqn:Hk.
    assert (E : exists l1 l3, str_split LF text = l1 ++ k ++ l3)
      by (rewrite Hk; apply kept_lines_block).
    destruct E as (l1 & l3 & E). clear Hk.
    pose proof (join_split LF text) as J. rewrite E in J.
    rewrite <- J. apply join_infix.
Qed.

Lemma normalized_infix (a s b : str) :
  normalized (a ++ s ++ b) -> starts_clean s -> ends_clean s -> normalized s.
Proof.
  intros [H1 H2 H3 _ _] Hs He. split; try assumption.
  - eapply Forall_infix, H1.
  - eapply Forall_infix, H2.
  - eapply runs_below_infix, H3.
Qed.

Lemma strip_headers_footers_keeps_normalized (text : str) :
  normalized text -> normalized (_strip_headers_footers text).
Proof.
  intros H. destruct (strip_headers_footers_cases text) as [->|(block & Hb & ->)];
    [exact H|].
  destruct (strip_infix block) as (a & b & E & _).
  destruct Hb as (x & y & Ht).
  destruct (strip_clean block) as [Hs He].
  apply (normalized_infix (x ++ a) _ (b ++ y)); try assumption.
  rewrite Ht, E in H. now rewrite <- !app_assoc in *.
Qed.

(** X5. The result of [_strip_headers_footers] is a block of consecutive
    characters of the page: nothing is added, replaced or reordered. *)
Theorem strip_headers_footers_infix (text : str) :
  Infix (_strip_headers_footers text) text.
Proof.
  destruct (strip_headers_footers_cases text) as [->|(block & Hb & ->)];
    [apply Infix_refl|].
  eapply Infix_trans; [|exact Hb].
  destruct (strip_infix block) as (a & b & E & _). now exists a, b.
Qed.

(** X6. The two cleaning steps compose: on a normalized page
    [_strip_headers_footers] gives a normalized page, so the cleaned page
    [_strip_headers_footers(_normalize_whitespace(raw))] is a fixed point
    of [_normalize_whitespace]. *)
Theorem strip_headers_footers_normalized (raw : str) :
  (normalized raw -> normalized (_strip_headers_footers raw))
  /\ _normalize_whitespace (_strip_headers_footers (_normalize_whitespace raw))
     = _strip_headers_footers (_normalize_whitespace raw).
Proof.
  split; [apply strip_headers_footers_keeps_normalized|].
  apply normalize_whitespace_fixed, strip_headers_footers_keeps_normalized,
    normalize_whitespace_normalized.
Qed.

(* ------------------------------------------------------------------ *)
(** ** [_split_sentences]: sentences are cleaned blocks of the text *)
(* ------------------------------------------------------------------ *)

Lemma clean_sentence_visible (s : str) : visible (clean_sentence s) = visible s.
Proof.
  unfold clean_sentence, re_sub_run. rewrite visible_strip.
  apply (visible_sub_run isspace 1 [SPACE] (fun _ H => H)); [repeat constructor | constructor].
Qed.

Lemma clean_sentence_length (s : str) : length (clean_sentence s) <= length s.
Proof.
  unfold clean_sentence, re_sub_run.
  etransitivity; [apply strip_length|].
  etransitivity; [apply (sub_run_length isspace 1 [SPACE]); simpl; lia|].
  simpl. lia.
Qed.

Section SplitParts.
Variable ahead : ascii -> bool.

(** The pieces of a split lie in the text one after the other, and none
    holds a boundary. *)
Lemma SplitAt_length (text : str) (parts : list str) :
  SplitAt ahead text parts -> length (concat parts) <= length text.
Proof.
  induction 1 as [s _ | a w b parts _ _ _ _ _ IH]; simpl.
  - rewrite app_nil_r. lia.
  - rewrite !length_app. lia.
Qed.

Lemma SplitAt_infix (text : str) (parts : list str) :
  SplitAt ahead text parts -> Forall (fun p => Infix p text) parts.
Proof.
  induction 1 as [s _ | a w b parts _ _ _ _ _ IH].
  - constructor; [apply Infix_refl | constructor].
  - constructor; [now exists [], (w ++ b)|].
    eapply Forall_impl, IH. intros p (x & y & ->).
    exists (a ++ w ++ x), y. now rewrite <- !app_assoc.
Qed.

Lemma SplitAt_no_boundary (text : str) (parts : list str) :
  SplitAt ahead text parts -> Forall (fun p => ~ has_boundary ahead p) parts.
Proof.
  induction 1 as [s Hs | a w b parts _ _ _ Hn _ IH]; constructor; auto.
Qed.

Lemma has_boundary_infix (s x : str) :
  Infix s x -> has_boundary ahead s -> has_boundary ahead x.
Proof.
  intros (l & r & ->) (a & w & b & -> & (a' & t & -> & Ht) & Hw & (c & b' & -> & Hc)).
  exists (l ++ a' ++ [t]), w, ((c :: b') ++ r). split; [now rewrite <- !app_assoc|].
  split; [exists (l ++ a'), t; now rewrite <- app_assoc|].
  split; [exact Hw|]. now exists c, (b' ++ r).
Qed.

Lemma has_boundary_terminal (s : str) :
  has_boundary ahead s -> Exists (fun c => is_terminal c = true) s.
Proof.
  intros (a & w & b & -> & (a' & t & -> & Ht) & _).
  apply Exists_app. left. apply Exists_app. right. now constructor.
Qed.

End SplitParts.

Lemma long_sentences_length (l : list str) :
  30 * length (List.filter (fun s => 30 <=? length s) l) <= length (concat l).
Proof.
  induction l as [|s l IH]; [simpl; lia|].
  cbn [List.filter concat]. rewrite length_app.
  destruct (30 <=? length s) eqn:E; [|lia].
  apply Nat.leb_le in E. cbn [length]. lia.
Qed.

Lemma concat_clean_length (parts : list str) :
  length (concat (map clean_sentence parts)) <= length (concat parts).
Proof.
  induction parts as [|p parts IH]; simpl; [lia|].
  rewrite !length_app. pose proof (clean_sentence_length p). lia.
Qed.

Lemma split_sentences_parts (text : str) :
  SplitAt is_sentence_start text (re_split_sentences is_sentence_start text).
Proof. apply re_split_sentences_spec, sentence_start_not_space. Qed.

Lemma split_sentences_count (text : str) :
  30 * length (_split_sentences text) <= length text.
Proof.
  unfold _split_sentences.
  etransitivity; [apply long_sentences_length|].
  etransitivity; [apply concat_clean_length|].
  apply (SplitAt_length is_sentence_start), split_sentences_parts.
Qed.

Lemma split_sentences_part (text s : str) :
  In s (_split_sentences text) ->
  exists part, In part (re_split_sentences is_sentence_start text)
    /\ s = clean_sentence part /\ 30 <= length s.
Proof.
  unfold _split_sentences. intros H.
  apply List.filter_In in H as [H L]. apply Nat.leb_le in L.
  apply in_map_iff in H as (part & <- & H). now exists part.
Qed.

(** X7. A text of [n] characters gives at most [n / 30] sentences, and a text of
    fewer than 30 characters gives none. *)
Theorem split_sentences_length_bound (text : str) :
  30 * length (_split_sentences text) <= length text
  /\ (length text < 30 -> _split_sentences text = []).
Proof.
  pose proof (split_sentences_count text) as H. split; [exact H|].
  intros L. destruct (_split_sentences text); [reflexivity | simpl in H; lia].
Qed.

Lemma split_sentences_length_bound_witness :
  length (txt "Too short. To count.") < 30
  /\ _split_sentences (txt "Too short. To count.") = [].
Proof.
  split; [simpl; lia|].
  apply (proj2 (split_sentences_length_bound (txt "Too short. To count."))).
  simpl; lia.
Defined.

(** X8. Every sentence is a block of the text with its spaces collapsed: the
    visible characters of a sentence stand in the text, in a row and in the
    same order. *)
Theorem split_sentences_blocks (text s : str) :
  In s (_split_sentences text) ->
  exists part, Infix part text /\ s = clean_sentence part
    /\ visible s = visible part /\ length s <= length part.
Proof.
  intros H. destruct (split_sentences_part text s H) as (part & Hp & -> & _).
  exists part. split.
  - pose proof (SplitAt_infix _ _ _ (split_sentences_parts text)) as F.
    rewrite Forall_forall in F. now apply F.
  - split; [reflexivity|].
    split; [apply clean_sentence_visible | apply clean_sentence_length].
Qed.

Lemma split_sentences_blocks_witness :
  In (txt "Management discussion and analysis of Results 2023")
     (_split_sentences heading_text)
  /\ exists part,
       Infix part heading_text
       /\ txt "Management discussion and analysis of Results 2023" = clean_sentence part
       /\ visible (txt "Management discussion and analysis of Results 2023") = visible part
       /\ length (txt "Management discussion and analysis of Results 2023") <= length part.
Proof.
  assert (H : In (txt "Management discussion and analysis of Results 2023")
                 (_split_sentences heading_text)) by (left; reflexivity).
  split; [exact H|].
  exact (split_sentences_blocks heading_text _ H).
Defined.

(** X9. A text without a full stop, exclamation mark or question mark is not
    cut: it gives its cleaned form as the one sentence, when that has 30
    characters, and nothing otherwise. *)
Theorem split_sentences_no_terminal (text : str) :
  Forall (fun c => is_terminal c = false) text ->
  _split_sentences text
  = if 30 <=? length (clean_sentence text) then [clean_sentence text] else [].
Proof.
  intros H.
  assert (E : re_split_sentences is_sentence_start text = [text]).
  { apply (SplitAt_functional is_sentence_start sentence_start_not_space text).
    - apply split_sentences_parts.
    - apply SplitAt_last. intros Hb. apply has_boundary_terminal in Hb.
      apply Exists_exists in Hb as (c & Hc & Ht).
      rewrite Forall_forall in H. rewrite (H c Hc) in Ht. discriminate. }
  unfold _split_sentences. rewrite E. reflexivity.
Qed.

Lemma split_sentences_no_terminal_witness :
  Forall (fun c => is_terminal c = false) heading_text
  /\ _split_sentences heading_text
     = [txt "Management discussion and analysis of Results 2023"].
Proof.
  assert (H : Forall (fun c => is_terminal c = false) heading_text)
    by (repeat constructor).
  split; [exact H|].
  rewrite (split_sentences_no_terminal heading_text H). reflexivity.
Defined.

(* ------------------------------------------------------------------ *)
(** ** [_split_sentences]: a sentence is not cut again *)
(* ------------------------------------------------------------------ *)

(** A text is a run of spaces, or a run of spaces, a visible character and
    a rest. *)
Lemma leading_spaces (s : str) :
  blank s \/ exists g c rest, s = g ++ c :: rest /\ blank g /\ isspace c = false.
Proof.
  destruct (drop_class_prefix isspace s) as (g & E & Hg).
  pose proof (drop_class_head isspace s) as Hh.
  destruct (drop_class isspace s) as [|c rest].
  - left. rewrite E, app_nil_r. exact Hg.
  - right. now exists g, c, rest.
Qed.

Lemma blank_prefix_unique (w1 w2 b1 b2 : str) (c1 c2 : ascii) :
  w1 ++ c1 :: b1 = w2 ++ c2 :: b2 -> blank w1 -> blank w2 ->
  isspace c1 = false -> isspace c2 = false ->
  w1 = w2 /\ c1 = c2 /\ b1 = b2.
Proof.
  intros E H1 H2 N1 N2. revert w2 E H2.
  induction H1 as [|x w1 Hx _ IH]; intros w2 E H2.
  - destruct w2 as [|y w2]; simpl in E; injection E as -> E; [auto|].
    inversion H2; congruence.
  - destruct w2 as [|y w2]; simpl in E; injection E as -> E; [congruence|].
    inversion H2; subst. destruct (IH w2 E) as (-> & -> & ->); auto.
Qed.

Section Collapse.
Variable least : nat.
Variable rep : str.

Lemma sub_run_class (run g : str) :
  blank g -> sub_run isspace least rep run g = flush_run least rep (run ++ g).
Proof.
  intros H. revert run. induction H as [|x g Hx _ IH]; intros run; simpl.
  - now rewrite app_nil_r.
  - rewrite Hx, IH, <- app_assoc. reflexivity.
Qed.

(** The substitution on a run of spaces followed by a visible character. *)
Lemma sub_run_token (g rest : str) (c : ascii) :
  blank g -> isspace c = false ->
  sub_run isspace least rep [] (g ++ c :: rest)
  = flush_run least rep g ++ c :: sub_run isspace least rep [] rest.
Proof.
  intros Hg Hc. rewrite (sub_run_cut isspace least rep g rest [] c Hc).
  now rewrite (sub_run_class [] g Hg).
Qed.

End Collapse.

Lemma flush_run_blank (least : nat) (rep g : str) :
  blank rep -> blank g -> blank (flush_run least rep g).
Proof.
  intros Hr Hg. destruct g as [|x g]; [constructor|].
  unfold flush_run. now destruct (least <=? _).
Qed.

Section Resplit.
Variable ahead : ascii -> bool.
Hypothesis ahead_not_space : forall c, ahead c = true -> isspace c = false.

(** Collapsing the spaces of a text makes no boundary. *)
Lemma collapse_boundary (s : str) :
  has_boundary ahead (sub_run isspace 1 [SPACE] [] s) -> has_boundary ahead s.
Proof using ahead_not_space.
  assert (H : forall n s, length s <= n ->
            has_boundary ahead (sub_run isspace 1 [SPACE] [] s) ->
            has_boundary ahead s).
  { clear s. induction n as [|n IH]; intros s L Hb.
    - destruct s; [|simpl in L; lia]. exact Hb.
    - destruct (leading_spaces s) as [Hs | (g & c & rest & -> & Hg & Hc)].
      + exfalso. revert Hb. apply no_boundary_blank.
        rewrite (sub_run_class 1 [SPACE] [] s Hs).
        apply flush_run_blank; [repeat constructor | exact Hs].
      + rewrite (sub_run_token 1 [SPACE] g rest c Hg Hc) in Hb.
        rewrite length_app in L. cbn [length] in L.
        destruct Hb as (a & w & b & E & (a' & t & -> & Ht) & Hw & (x & b' & -> & Hx)).
        pose proof (is_terminal_not_space t Ht) as Nt.
        rewrite <- app_assoc in E. cbn [app] in E.
        destruct (class_prefix_before_cut isspace (flush_run 1 [SPACE] g)
                    (c :: sub_run isspace 1 [SPACE] [] rest) a' (w ++ x :: b') t E)
          as (m & ->);
          [apply flush_run_blank; [repeat constructor | exact Hg] | exact Nt |].
        rewrite <- app_assoc in E. apply app_inv_head in E.
        destruct m as [|y m]; cbn [app] in E; injection E as <- E.
        * (* the terminal mark is [c] *)
          destruct (leading_spaces rest) as [Hr | (g2 & d & rest2 & -> & Hg2 & Hd)].
          -- exfalso.
             assert (Hbl : blank (sub_run isspace 1 [SPACE] [] rest)).
             { rewrite (sub_run_class 1 [SPACE] [] rest Hr).
               apply flush_run_blank; [repeat constructor | exact Hr]. }
             rewrite E in Hbl. apply Forall_app in Hbl as [_ Hbl].
             inversion Hbl; subst. apply ahead_not_space in Hx. congruence.
          -- rewrite (sub_run_token 1 [SPACE] g2 rest2 d Hg2 Hd) in E.
             destruct (blank_prefix_unique _ _ _ _ _ _ E) as (Ew & -> & _);
               [apply flush_run_blank; [repeat constructor | exact Hg2]
               | apply Hw | exact Hd | now apply ahead_not_space |].
             exists (g ++ [c]), g2, (x :: rest2).
             split; [now rewrite <- app_assoc|].
             split; [now exists g, c|].
             split; [|now exists x, rest2].
             split; [|exact Hg2]. intros ->. simpl in Ew.
             destruct Hw as [Hw _]. congruence.
        * (* the boundary lies after [c] *)
          apply (has_boundary_infix ahead rest); [now exists (g ++ [c]), []; rewrite app_nil_r, <- app_assoc|].
          apply IH; [lia|].
          exists (m ++ [t]), w, (x :: b'). rewrite <- app_assoc. cbn [app].
          split; [exact E|]. split; [now exists m, t|].
          split; [exact Hw | now exists x, b']. }
  apply (H (length s)). lia.
Qed.

Lemma clean_sentence_no_boundary (s : str) :
  ~ has_boundary ahead s -> ~ has_boundary ahead (clean_sentence s).
Proof using ahead_not_space.
  intros Hn Hb. apply Hn, collapse_boundary.
  apply (has_boundary_infix ahead (clean_sentence s)); [|exact Hb].
  unfold clean_sentence, re_sub_run.
  destruct (strip_infix (sub_run isspace 1 [SPACE] [] s)) as (a & b & E & _).
  now exists a, b.
Qed.

End Resplit.

(** A sentence in normal form is left as it is by the cleaning step. *)
Lemma collapse_fixed (s : str) :
  Forall (fun c => isspace c = true -> c = SPACE) s -> runs_below isspace 2 s ->
  sub_run isspace 1 [SPACE] [] s = s.
Proof.
  assert (F : forall g, Forall (fun c => isspace c = true -> c = SPACE) g ->
              runs_below isspace 2 g -> blank g -> flush_run 1 [SPACE] g = g).
  { intros g Hp Hr Hg. destruct g as [|x g]; [reflexivity|].
    specialize (Hr [] (x :: g) [] ltac:(now rewrite app_nil_r) Hg).
    destruct g; [|simpl in Hr; lia].
    inversion Hp; inversion Hg; subst. unfold flush_run. simpl.
    f_equal. symmetry. auto. }
  assert (H : forall n s, length s <= n ->
            Forall (fun c => isspace c = true -> c = SPACE) s ->
            runs_below isspace 2 s -> sub_run isspace 1 [SPACE] [] s = s).
  { clear s. induction n as [|n IH]; intros s L Hp Hr.
    - destruct s; [reflexivity | simpl in L; lia].
    - destruct (leading_spaces s) as [Hs | (g & c & rest & -> & Hg & Hc)].
      + rewrite (sub_run_class 1 [SPACE] [] s Hs). cbn [app]. now apply F.
      + rewrite (sub_run_token 1 [SPACE] g rest c Hg Hc).
        rewrite length_app in L. cbn [length] in L.
        apply Forall_app in Hp as [Hpg Hpr]. inversion Hpr; subst.
        rewrite F, IH; auto; try lia.
        * apply (runs_below_infix isspace 2 (g ++ [c]) rest []).
          now rewrite app_nil_r, <- app_assoc.
        * apply (runs_below_infix isspace 2 [] g (c :: rest)). exact Hr. }
  apply (H (length s)). lia.
Qed.

Lemma clean_sentence_fixed (s : str) : Collapsed s -> clean_sentence s = s.
Proof.
  intros [H1 H2 H3 H4]. unfold clean_sentence, re_sub_run.
  rewrite (collapse_fixed s H1 H2). now apply strip_clean_id.
Qed.

Lemma split_sentences_again (text s : str) :
  In s (_split_sentences text) -> _split_sentences s = [s].
Proof.
  intros H. destruct (split_sentences_part text s H) as (part & Hp & E & L).
  assert (Hn : ~ has_boundary is_sentence_start s).
  { rewrite E. apply clean_sentence_no_boundary; [apply sentence_start_not_space|].
    pose proof (SplitAt_no_boundary _ _ _ (split_sentences_parts text)) as F.
    rewrite Forall_forall in F. now apply F. }
  assert (Es : re_split_sentences is_sentence_start s = [s]).
  { apply (SplitAt_functional is_sentence_start sentence_start_not_space s).
    - apply split_sentences_parts.
    - now apply SplitAt_last. }
  unfold _split_sentences. rewrite Es. cbn [map List.filter].
  rewrite (clean_sentence_fixed s) by (rewrite E; apply clean_sentence_collapsed).
  apply Nat.leb_le in L. now rewrite L.
Qed.

(** X10. A sentence that [_split_sentences] returns is in normal form: cleaning
    it changes nothing, and segmenting it again gives the sentence itself. *)
Theorem split_sentences_stable (text s : str) :
  In s (_split_sentences text) ->
  clean_sentence s = s /\ _split_sentences s = [s].
Proof.
  intros H. split; [|now apply (split_sentences_again text)].
  destruct (split_sentences_part text s H) as (part & _ & -> & _).
  apply clean_sentence_fixed, clean_sentence_collapsed.
Qed.

Lemma split_sentences_stable_witness :
  In (txt "The first sentence of the page ends here.") (_split_sentences paren_text)
  /\ _split_sentences (txt "The first sentence of the page ends here.")
     = [txt "The first sentence of the page ends here."].
Proof.
  assert (H : In (txt "The first sentence of the page ends here.")
                 (_split_sentences paren_text)) by (left; reflexivity).
  split; [exact H|].
  exact (proj2 (split_sentences_stable paren_text _ H)).
Defined.

(* ------------------------------------------------------------------ *)
(** ** [_split_sentences]: texts joined at a sentence boundary *)
(* ------------------------------------------------------------------ *)

Lemma SplitAt_app (ahead : ascii -> bool) (a w b : str) (pa pb : list str) :
  SplitAt ahead a pa -> SplitAt ahead b pb ->
  ends_with_terminal a -> Gap w -> starts_with_class ahead b ->
  SplitAt ahead (a ++ w ++ b) (pa ++ pb).
Proof.
  intros Ha Hb. induction Ha as [s Hs | a1 w1 b1 parts Ha1 Hw1 Hb1 Hn1 Hp IH];
    intros Ht Hw Hc.
  - now apply SplitAt_cut.
  - rewrite <- !app_assoc. cbn [app]. apply SplitAt_cut; try assumption.
    + destruct Hb1 as (c & b' & -> & Hc1). now exists c, (b' ++ w ++ b).
    + apply IH; try assumption.
      rewrite app_assoc in Ht. apply ends_with_terminal_app in Ht; [exact Ht|].
      destruct Hb1 as (c & b' & -> & _). discriminate.
Qed.

(** X11. Two texts joined at a sentence boundary are segmented one by one:
    when [a] ends with a terminal mark, [w] is a run of spaces (the blank
    line between two pages, for one) and [b] starts with a character of the
    look-ahead class, the sentences of [a ++ w ++ b] are those of [a]
    followed by those of [b]. *)
Theorem split_sentences_app (a w b : str) :
  ends_with_terminal a -> Gap w -> starts_with_class is_sentence_start b ->
  _split_sentences (a ++ w ++ b) = _split_sentences a ++ _split_sentences b.
Proof.
  intros Ha Hw Hb. unfold _split_sentences.
  rewrite (SplitAt_functional is_sentence_start sentence_start_not_space (a ++ w ++ b)
             (re_split_sentences is_sentence_start (a ++ w ++ b))
             (re_split_sentences is_sentence_start a
              ++ re_split_sentences is_sentence_start b)).
  - now rewrite map_app, filter_app.
  - apply split_sentences_parts.
  - apply SplitAt_app; try assumption; apply split_sentences_parts.
Qed.

Lemma split_sentences_app_witness :
  ends_with_terminal costs_sentence /\ Gap PARAGRAPH
  /\ starts_with_class is_sentence_start profit_sentence
  /\ _split_sentences (costs_sentence ++ PARAGRAPH ++ profit_sentence)
     = _split_sentences costs_sentence ++ _split_sentences profit_sentence.
Proof.
  assert (Ha : ends_with_terminal costs_sentence).
  { exists (txt "Costs fell to 11 million in the second half"), "."%char.
    split; reflexivity. }
  assert (Hw : Gap PARAGRAPH) by (split; [discriminate | repeat constructor]).
  assert (Hb : starts_with_class is_sentence_start profit_sentence).
  { exists "P"%char, (txt "rofit rose to 12 million in the first half.").
    split; reflexivity. }
  split; [exact Ha|]. split; [exact Hw|]. split; [exact Hb|].
  exact (split_sentences_app costs_sentence PARAGRAPH profit_sentence Ha Hw Hb).
Defined.

(* ------------------------------------------------------------------ *)
(** ** [_score_sentence] does not look at the letter case *)
(* ------------------------------------------------------------------ *)

















(* ------------------------------------------------------------------ *)
(** ** Floating point: rounding in the normal range *)
(* ------------------------------------------------------------------ *)

Section Rounding.
Local Open Scope Z_scope.

(** Linear arithmetic with the powers taken as unknowns. *)
Ltac pow_lia :=
  repeat match goal with
         | |- context [Z.pow ?a ?b] =>
             let x := fresh "pw" in set (x := Z.pow a b) in *; clearbody x
         | H : context [Z.pow ?a ?b] |- _ =>
             let x := fresh "pw" in set (x := Z.pow a b) in *; clearbody x
         end;
  lia.

(** The number of binary digits of a positive number. *)
Lemma digits2_pos_bounds (p : positive) :
  2 ^ (Zpos (digits2_pos p) - 1) <= Zpos p < 2 ^ Zpos (digits2_pos p).
Proof.
  induction p as [p IH|p IH|]; cbn [digits2_pos]; [| |simpl; lia].
  - rewrite Pos2Z.inj_succ, (Pos2Z.inj_xI p).
    replace (Z.succ (Zpos (digits2_pos p)) - 1) with (Z.succ (Zpos (digits2_pos p) - 1)) by lia.
    rewrite !Z.pow_succ_r by lia. pow_lia.
  - rewrite Pos2Z.inj_succ, (Pos2Z.inj_xO p).
    replace (Z.succ (Zpos (digits2_pos p)) - 1) with (Z.succ (Zpos (digits2_pos p) - 1)) by lia.
    rewrite !Z.pow_succ_r by lia. pow_lia.
Qed.

Lemma digits2_pos_unique (p : positive) (n : Z) :
  2 ^ (n - 1) <= Zpos p < 2 ^ n -> Zpos (digits2_pos p) = n.
Proof.
  intros [L U]. destruct (digits2_pos_bounds p) as [L' U'].
  assert (0 < n).
  { destruct (Z.le_gt_cases n 0) as [H|H]; [|exact H].
    assert (2 ^ n <= 2 ^ 0) by (destruct n; simpl; try lia; discriminate).
    simpl in *. lia. }
  destruct (Z.lt_trichotomy (Zpos (digits2_pos p)) n) as [H1 | [H1 | H1]]; [|exact H1|].
  - assert (2 ^ Zpos (digits2_pos p) <= 2 ^ (n - 1)) by (apply Z.pow_le_mono_r; lia). lia.
  - assert (2 ^ n <= 2 ^ (Zpos (digits2_pos p) - 1)) by (apply Z.pow_le_mono_r; lia). lia.
Qed.

Lemma digits2_pos_range (p : positive) (a b : Z) :
  0 <= a -> 2 ^ a <= Zpos p < 2 ^ b -> a < Zpos (digits2_pos p) <= b.
Proof.
  intros Ha [L U]. destruct (digits2_pos_bounds p) as [L' U']. split.
  - destruct (Z.le_gt_cases (Zpos (digits2_pos p)) a) as [H|H]; [|lia].
    assert (2 ^ Zpos (digits2_pos p) <= 2 ^ a) by (apply Z.pow_le_mono_r; lia). lia.
  - destruct (Z.le_gt_cases (Zpos (digits2_pos p)) b) as [H|H]; [exact H|].
    assert (2 ^ b <= 2 ^ (Zpos (digits2_pos p) - 1)) by (apply Z.pow_le_mono_r; lia). lia.
Qed.

Lemma shr_1_half (mrs : shr_record) :
  0 <= shr_m mrs -> shr_m (shr_1 mrs) = shr_m mrs / 2.
Proof.
  destruct mrs as [m r s]. cbn [shr_m]. intros H.
  destruct m as [|[p|p|]|p]; cbn [shr_1 shr_m]; try lia; try reflexivity.
  - rewrite (Pos2Z.inj_xI p). apply Z.div_unique with (r := 1); lia.
  - rewrite (Pos2Z.inj_xO p). apply Z.div_unique with (r := 0); lia.
Qed.

Lemma iter_shr_1_div (n : positive) (mrs : shr_record) :
  0 <= shr_m mrs -> shr_m (iter_pos shr_1 n mrs) = shr_m mrs / 2 ^ Zpos n.
Proof.
  revert mrs. induction n as [n IH|n IH|]; intros mrs H; cbn [iter_pos].
  - rewrite IH, IH, shr_1_half by
      (try apply iter_shr_1_nonneg; try apply shr_1_nonneg; exact H).
    rewrite !Z.div_div by lia. f_equal.
    rewrite (Pos2Z.inj_xI n), Z.pow_add_r, Z.pow_mul_r by lia.
    change (2 ^ 2) with 4. rewrite Z.pow_1_r.
    replace 4 with (2 * 2) by reflexivity. rewrite Z.pow_mul_l. lia.
  - rewrite IH, IH by (try apply iter_shr_1_nonneg; exact H).
    rewrite !Z.div_div by lia. f_equal.
    rewrite (Pos2Z.inj_xO n), Z.pow_mul_r by lia.
    change (2 ^ 2) with 4. replace 4 with (2 * 2) by reflexivity.
    rewrite Z.pow_mul_l. lia.
  - rewrite shr_1_half by exact H. reflexivity.
Qed.

Lemma round_nearest_even_step (m : Z) (l : location) :
  round_nearest_even m l = m \/ round_nearest_even m l = m + 1.
Proof.
  destruct l as [|[]]; cbn [round_nearest_even]; auto.
  destruct (Z.even m); auto.
Qed.

Lemma fexp_normal (e : Z) : -1074 <= e - 53 -> fexp prec emax e = e - 53.
Proof. unfold fexp, emin, prec, emax. lia. Qed.

(** A number of 53 digits with an exponent in range is a float as it is. *)
Lemma binary_round_aux_exact (m : positive) (e : Z) :
  Zpos (digits2_pos m) = 53 -> -1074 <= e <= 971 ->
  binary_round_aux prec emax false (Zpos m) e loc_Exact = S754_finite false m e.
Proof.
  intros D E. unfold binary_round_aux, shr_fexp.
  cbn [Zdigits2 shr_record_of_loc]. rewrite D, fexp_normal by lia.
  replace (53 + e - 53 - e) with 0 by lia. cbn [shr shr_m loc_of_shr_record round_nearest_even].
  cbn [Zdigits2 shr_record_of_loc]. rewrite D, fexp_normal by lia.
  replace (53 + e - 53 - e) with 0 by lia. cbn [shr shr_m].
  unfold emax, prec. destruct (Z.leb_spec e (1024 - 53)); [reflexivity | lia].
Qed.

(** A number of more than 53 digits in the normal range is rounded to a
    float of 53 digits whose exponent is not lower than that of the
    truncation, or to infinity. *)
Lemma binary_round_aux_normal (mx : positive) (ex : Z) :
  54 <= Zpos (digits2_pos mx) -> -1074 <= Zpos (digits2_pos mx) + ex - 53 ->
  binary_round_aux prec emax false (Zpos mx) ex loc_Exact = S754_infinity false
  \/ exists m e,
       binary_round_aux prec emax false (Zpos mx) ex loc_Exact = S754_finite false m e
       /\ Zpos (digits2_pos m) = 53
       /\ Zpos (digits2_pos mx) + ex - 53 <= e.
Proof.
  intros D N. set (d := Zpos (digits2_pos mx)) in *.
  destruct (digits2_pos_bounds mx) as [L U]. fold d in L, U.
  unfold binary_round_aux, shr_fexp. cbn [Zdigits2 shr_record_of_loc]. fold d.
  rewrite fexp_normal by lia.
  replace (d + ex - 53 - ex) with (d - 53) by lia.
  destruct (d - 53) as [|k|k] eqn:Ek; try lia. cbn [shr].
  set (mrs := iter_pos shr_1 k _).
  assert (M : shr_m mrs = Zpos mx / 2 ^ Zpos k)
    by (apply iter_shr_1_div; cbn [shr_m]; lia).
  assert (P : 2 ^ d = 2 ^ 53 * 2 ^ Zpos k)
    by (rewrite <- Z.pow_add_r by lia; f_equal; lia).
  assert (P' : 2 ^ (d - 1) = 2 ^ 52 * 2 ^ Zpos k)
    by (rewrite <- Z.pow_add_r by lia; f_equal; lia).
  assert (K : 0 < 2 ^ Zpos k) by (apply Z.pow_pos_nonneg; lia).
  assert (B : 2 ^ 52 <= shr_m mrs < 2 ^ 53).
  { rewrite M. split.
    - apply Z.div_le_lower_bound; [exact K|]. rewrite Z.mul_comm. lia.
    - apply Z.div_lt_upper_bound; [exact K|]. rewrite Z.mul_comm. lia. }
  set (r := round_nearest_even (shr_m mrs) (loc_of_shr_record mrs)).
  assert (R : 2 ^ 52 <= r <= 2 ^ 53).
  { subst r. destruct (round_nearest_even_step (shr_m mrs) (loc_of_shr_record mrs))
      as [-> | ->]; lia. }
  change (2 ^ 52) with 4503599627370496 in *.
  change (2 ^ 53) with 9007199254740992 in *.
  destruct r as [|rp|rp] eqn:Er; try lia.
  replace (Zpos k) with (d - 53) by lia.
  destruct (Z.eq_dec (Zpos rp) 9007199254740992) as [Top|Top].
  - (* the mantissa was rounded up to 2^53 *)
    injection Top as ->. change (Zdigits2 9007199254740992) with 54.
    cbn [shr_record_of_loc]. rewrite fexp_normal by lia.
    replace (54 + (ex + (d - 53)) - 53 - (ex + (d - 53))) with 1 by lia.
    cbn [shr iter_pos shr_1 shr_m].
    unfold emax, prec. destruct (Z.leb_spec (ex + (d - 53) + 1) (1024 - 53)); [right | now left].
    eexists _, _. split; [reflexivity|]. split; [reflexivity | lia].
  - assert (Dr : Zpos (digits2_pos rp) = 53)
      by (apply digits2_pos_unique; change (2 ^ (53 - 1)) with 4503599627370496;
          change (2 ^ 53) with 9007199254740992; lia).
    cbn [Zdigits2 shr_record_of_loc]. rewrite Dr, fexp_normal by lia.
    replace (53 + (ex + (d - 53)) - 53 - (ex + (d - 53))) with 0 by lia.
    cbn [shr shr_m].
    unfold emax, prec. destruct (Z.leb_spec (ex + (d - 53)) (1024 - 53)); [right | now left].
    exists rp, (ex + (d - 53)). split; [reflexivity|]. split; [exact Dr | lia].
Qed.

Lemma iter_xO_mul (p k : positive) :
  Zpos (Pos.iter xO p k) = Zpos p * 2 ^ Zpos k.
Proof.
  rewrite <- Pos2Z.inj_pow. rewrite <- Pos2Z.inj_mul. f_equal.
  revert p. induction k as [|k IH] using Pos.peano_ind; intros p.
  - simpl. lia.
  - rewrite Pos.iter_succ, IH, Pos.pow_succ_r. lia.
Qed.

(** [float(n)] for a number from 16 on: 53 digits and an exponent of -48 at
    least, or infinity. *)
Lemma float_of_nat_large (n : nat) :
  (16 <= n)%nat ->
  float_of_nat n = S754_infinity false
  \/ exists m e, float_of_nat n = S754_finite false m e
       /\ Zpos (digits2_pos m) = 53 /\ -48 <= e.
Proof.
  intros H. unfold float_of_nat, float_of_Z, binary_normalize.
  destruct (Z.of_nat n) as [|p|p] eqn:Ep; try lia.
  assert (Hp : 2 ^ 4 <= Zpos p) by (change (2 ^ 4) with 16; lia).
  destruct (digits2_pos_bounds p) as [L U].
  assert (D : 4 < Zpos (digits2_pos p)).
  { destruct (Z.le_gt_cases (Zpos (digits2_pos p)) 4) as [G|G]; [|exact G].
    assert (2 ^ Zpos (digits2_pos p) <= 2 ^ 4) by (apply Z.pow_le_mono_r; lia). lia. }
  set (d := Zpos (digits2_pos p)) in *.
  unfold binary_round. rewrite Z.add_0_r. fold d. rewrite fexp_normal by lia.
  unfold shl_align. rewrite Z.sub_0_r.
  destruct (d - 53) as [|k|k] eqn:Ek.
  - right. exists p, 0. rewrite binary_round_aux_exact by (fold d; lia).
    split; [reflexivity|]. split; [fold d; lia | lia].
  - destruct (binary_round_aux_normal p 0) as [E | (m & e & E & Dm & He)];
      fold d; try lia; [now left | right].
    exists m, e. split; [exact E|]. split; [exact Dm | fold d in He; lia].
  - right. exists (Pos.iter xO p k), (d - 53).
    assert (Dk : Zpos (digits2_pos (Pos.iter xO p k)) = 53).
    { apply digits2_pos_unique. rewrite iter_xO_mul.
      assert (K : 0 < 2 ^ Zpos k) by (apply Z.pow_pos_nonneg; lia).
      assert (E1 : 2 ^ (53 - 1) = 2 ^ (d - 1) * 2 ^ Zpos k)
        by (rewrite <- Z.pow_add_r by lia; f_equal; lia).
      assert (E2 : 2 ^ 53 = 2 ^ d * 2 ^ Zpos k)
        by (rewrite <- Z.pow_add_r by lia; f_equal; lia).
      rewrite E1, E2. split.
      - apply Z.mul_le_mono_nonneg_r; lia.
      - apply Z.mul_lt_mono_pos_r; lia. }
    rewrite <- Ek. rewrite binary_round_aux_exact by (try exact Dk; lia).
    split; [reflexivity|]. split; [exact Dk | lia].
Qed.

End Rounding.

(* ------------------------------------------------------------------ *)
(** ** [_score_sentence]: the range of the score *)
(* ------------------------------------------------------------------ *)

Lemma f0_3_value : f0_3 = S754_finite false 5404319552844595 (-54).
Proof. vm_compute. reflexivity. Qed.

Lemma f3_0_value : f3_0 = S754_finite false 6755399441055744 (-51).
Proof. vm_compute. reflexivity. Qed.

(** [0.3 * x] is not below 3.0 for a float [x] of 53 digits from 16 on. *)
Lemma fmul_large (m : positive) (e : Z) :
  Zpos (digits2_pos m) = 53%Z -> (-48 <= e)%Z ->
  fltb (fmul f0_3 (S754_finite false m e)) f3_0 = false.
Proof.
  intros D E. rewrite f0_3_value, f3_0_value. unfold fmul. cbn [SFmul xorb].
  destruct (digits2_pos_bounds m) as [L U]. rewrite D in L, U.
  change (2 ^ (53 - 1))%Z with 4503599627370496%Z in L.
  change (2 ^ 53)%Z with 9007199254740992%Z in U.
  assert (B : (2 ^ 104 <= Zpos (5404319552844595 * m) < 2 ^ 106)%Z).
  { rewrite Pos2Z.inj_mul.
    change (2 ^ 104)%Z with 20282409603651670423947251286016%Z.
    change (2 ^ 106)%Z with 81129638414606681695789005144064%Z. lia. }
  apply digits2_pos_range in B; [|lia].
  destruct (binary_round_aux_normal (5404319552844595 * m) (-54 + e))
    as [-> | (m' & e' & -> & _ & He)]; try lia; [reflexivity|].
  unfold fltb, SFltb, SFcompare.
  destruct (Z.compare_spec e' (-51)); try lia; reflexivity.
Qed.

(** From ten numbers on the numeric term is 3.0. *)
Lemma numeric_value_saturates (n : nat) : 10 <= n -> numeric_value n = f3_0.
Proof.
  intros H. destruct (le_lt_dec 16 n) as [G|G].
  - unfold numeric_value, py_min.
    destruct (float_of_nat_large n G) as [-> | (m & e & -> & D & E)].
    + rewrite f0_3_value, f3_0_value. reflexivity.
    + now rewrite (fmul_large m e D E).
  - assert (C : n = 10 \/ n = 11 \/ n = 12 \/ n = 13 \/ n = 14 \/ n = 15) by lia.
    destruct C as [-> | [-> | [-> | [-> | [-> | ->]]]]]; vm_compute; reflexivity.
Qed.

Lemma with_option_In (add : float -> float) (l : list float) (x : float) (b : bool) :
  In x l -> In (if b then add x else x) (with_option add l).
Proof.
  intros H. unfold with_option. apply in_or_app. destruct b; [right | now left].
  now apply in_map.
Qed.

Lemma score_sentence_possible (s : str) : In (_score_sentence s) possible_scores.
Proof.
  unfold _score_sentence, possible_scores, penalty_term, signal_term, topical_term.
  cbn [fold_left SECTION_PATTERNS snd].
  apply (with_option_In (fun x => fsub x f0_8)).
  apply (with_option_In (fun x => fadd x f0_6)).
  do 3 apply (with_option_In (fun x => fadd x f0_7)).
  apply in_flat_map. exists (length_term s f0_0). split.
  - unfold length_term. destruct (_ && _); [right; left; reflexivity|].
    destruct (_ <? _); [right; right; left; reflexivity | left; reflexivity].
  - unfold numeric_term. fold (numeric_value (count_numerics None 0 s)).
    set (n := count_numerics None 0 s).
    apply in_map_iff. destruct (le_lt_dec 10 n) as [G|G].
    + exists 10. split; [|apply in_seq; lia].
      now rewrite (numeric_value_saturates n G), (numeric_value_saturates 10).
    + exists n. split; [reflexivity | apply in_seq; lia].
Qed.

Lemma possible_scores_range :
  forallb (fun x => is_finite x && fleb (decimal (-8) 1) x && fleb x (decimal 67 1))
          possible_scores = true.
Proof. vm_compute. reflexivity. Qed.

(** X13. The score of a sentence is a finite number between -0.8 and 6.7, and
    both bounds are reached. *)
Theorem score_sentence_range (s : str) :
  is_finite (_score_sentence s) = true
  /\ fleb (decimal (-8) 1) (_score_sentence s) = true
  /\ fleb (_score_sentence s) (decimal 67 1) = true
  /\ _score_sentence worst_sentence = decimal (-8) 1
  /\ _score_sentence best_sentence = decimal 67 1.
Proof.
  pose proof possible_scores_range as R. rewrite forallb_forall in R.
  specialize (R _ (score_sentence_possible s)).
  apply andb_true_iff in R as [R R3]. apply andb_true_iff in R as [R1 R2].
  repeat split; try assumption; vm_compute; reflexivity.
Qed.

(* ------------------------------------------------------------------ *)
(** ** The sort is stable, and leaves a sorted list as it is *)
(* ------------------------------------------------------------------ *)

Lemma before_cons {A : Type} (a b x : A) (l : list A) :
  before a b l -> before a b (x :: l).
Proof. intros (l1 & l2 & l3 & ->). now exists (x :: l1), l2, l3. Qed.

Lemma before_head {A : Type} (a b : A) (l : list A) : In b l -> before a b (a :: l).
Proof.
  intros H. apply in_split in H as (l2 & l3 & ->). now exists [], l2, l3.
Qed.

Lemma before_cons_inv {A : Type} (a b x : A) (l : list A) :
  before a b (x :: l) -> (a = x /\ In b l) \/ before a b l.
Proof.
  intros ([|y l1] & l2 & l3 & E); simpl in E; injection E as -> ->.
  - left. split; [reflexivity|]. apply in_or_app. right. now left.
  - right. now exists l1, l2, l3.
Qed.

Lemma before_In {A : Type} (a b : A) (l : list A) : before a b l -> In a l /\ In b l.
Proof.
  intros (l1 & l2 & l3 & ->). split.
  - apply in_or_app. right. now left.
  - apply in_or_app. right. right. apply in_or_app. right. now left.
Qed.

Lemma before_length {A : Type} (a b : A) (l : list A) : before a b l -> 2 <= length l.
Proof.
  intros (l1 & l2 & l3 & ->). rewrite length_app. cbn [length].
  rewrite length_app. cbn [length]. lia.
Qed.

Lemma before_app_l {A : Type} (a b : A) (l m : list A) :
  before a b l -> before a b (l ++ m).
Proof.
  intros (l1 & l2 & l3 & ->). exists l1, l2, (l3 ++ m).
  now rewrite <- app_assoc, <- app_comm_cons, <- app_assoc.
Qed.

Lemma before_map {A B : Type} (f : A -> B) (a b : A) (l : list A) :
  before a b l -> before (f a) (f b) (map f l).
Proof.
  intros (l1 & l2 & l3 & ->). exists (map f l1), (map f l2), (map f l3).
  now rewrite map_app, map_cons, map_app, map_cons.
Qed.

Lemma before_map_inv {A B : Type} (f : A -> B) (x y : B) (l : list A) :
  before x y (map f l) -> exists a b, x = f a /\ y = f b /\ before a b l.
Proof.
  intros (l1 & l2 & l3 & E).
  apply map_eq_app in E as (m1 & m2 & -> & <- & E).
  apply map_eq_cons in E as (a & m3 & -> & <- & E).
  apply map_eq_app in E as (m4 & m5 & -> & <- & E).
  apply map_eq_cons in E as (b & m6 & -> & <- & <-).
  exists a, b. repeat split. now exists m1, m4, m6.
Qed.

Lemma before_sublist {A : Type} (a b : A) (l m : list A) :
  sublist l m -> before a b l -> before a b m.
Proof.
  induction 1 as [|x l m S IH|x l m S IH]; intros H.
  - apply before_length in H. simpl in H. lia.
  - apply before_cons_inv in H as [[-> H]|H].
    + apply before_head. apply list_elem_of_In.
      eapply elem_of_sublist; [apply list_elem_of_In, H | exact S].
    + apply before_cons, IH, H.
  - apply before_cons, IH, H.
Qed.

Section SortStable.
Context {A : Type}.
Variable key : A -> float.

Lemma insert_desc_before (a b x : A) (l : list A) :
  before a b (insert_desc key x l) ->
  before a b l \/ (a = x /\ In b l) \/ (b = x /\ fltb (key x) (key a) = true).
Proof.
  induction l as [|y l IH]; simpl.
  - intros H. apply before_length in H. simpl in H. lia.
  - destruct (fltb (key x) (key y)) eqn:E; intros H.
    + apply before_cons_inv in H as [[-> H]|H].
      * apply (Permutation_in _ (Permutation_sym (insert_desc_perm key x l))) in H.
        destruct H as [<- | H]; [right; right; now split|].
        left. now apply before_head.
      * destruct (IH H) as [H' | [[-> H'] | H']].
        -- left. now apply before_cons.
        -- right. left. split; [reflexivity | now right].
        -- right. right. exact H'.
    + apply before_cons_inv in H as [[-> H]|H]; [right; left; now split | now left].
Qed.

(** Two elements that tie keep the order they had before the sort. *)
Lemma sort_desc_stable (a b : A) (l : list A) :
  before a b (sort_desc key l) -> fltb (key b) (key a) = false -> before a b l.
Proof.
  intros H T. induction l as [|x l IH]; simpl in H.
  - apply before_length in H. simpl in H. lia.
  - apply insert_desc_before in H as [H | [[-> H] | [-> H]]].
    + apply before_cons, IH, H.
    + apply before_head.
      apply (Permutation_in _ (Permutation_sym (sort_desc_perm key l))), H.
    + congruence.
Qed.

Lemma insert_desc_front (x : A) (l : list A) :
  Forall (fun y => fltb (key x) (key y) = false) l -> insert_desc key x l = x :: l.
Proof. intros H. destruct H as [|y l E _]; simpl; [reflexivity | now rewrite E]. Qed.

End SortStable.

Lemma lex_compare_antisym (p q : Z * Z * Z) :
  lex_compare q p = CompOpp (lex_compare p q).
Proof.
  destruct p as [[a b] c], q as [[a' b'] c']. simpl.
  rewrite (Z.compare_antisym a a'), (Z.compare_antisym b b'), (Z.compare_antisym c c').
  destruct (a ?= a')%Z, (b ?= b')%Z, (c ?= c')%Z; reflexivity.
Qed.

Lemma fleb_not_fltb (x y : float) :
  is_nan x = false -> is_nan y = false -> fleb y x = true -> fltb x y = false.
Proof.
  intros Nx Ny H. apply (fleb_rank y x Ny Nx) in H.
  destruct (fltb x y) eqn:E; [|reflexivity].
  apply (fltb_rank x y Nx Ny) in E.
  rewrite lex_compare_antisym, E in H. now contradiction H.
Qed.

(** A list that is sorted already is left as it is. *)
Lemma sort_desc_sorted_id {A : Type} (key : A -> float) (l : list A) :
  Forall (fun y => is_nan (key y) = false) l ->
  StronglySorted (key_ge key) l -> sort_desc key l = l.
Proof.
  intros Hn Hs. induction Hs as [|x l Hs IH Hx]; [reflexivity|].
  inversion Hn as [|? ? Nx Nl]; subst. simpl. rewrite (IH Nl).
  apply insert_desc_front. rewrite Forall_forall in *. intros y Hy.
  apply fleb_not_fltb; auto. apply Hx, Hy.
Qed.

Lemma StronglySorted_app_inv {A : Type} (R : A -> A -> Prop) (l m : list A) :
  StronglySorted R (l ++ m) -> forall a b, In a l -> In b m -> R a b.
Proof.
  induction l as [|x l IH]; intros H a b Ha Hb; [destruct Ha|].
  simpl in H. inversion H as [|? ? Hs Hx]; subst.
  destruct Ha as [<- | Ha].
  - rewrite Forall_forall in Hx. apply Hx, in_or_app. now right.
  - now apply IH.
Qed.

(* ------------------------------------------------------------------ *)
(** ** [_pick_top_sentences]: the best sentences, first occurrences first *)
(* ------------------------------------------------------------------ *)

Lemma scored_sorted (l : list str) :
  StronglySorted (key_ge snd) (sort_desc snd (map (fun s => (s, _score_sentence s)) l)).
Proof.
  apply sort_desc_sorted, Forall_forall. intros p Hp.
  apply in_map_iff in Hp as (s & <- & _). apply score_sentence_not_nan.
Qed.

(** The sentences left out score no more than the ones kept. *)
Lemma top_by_score_best (n : nat) (l : list str) (s t : str) :
  In s l -> ~ In s (top_by_score n l) -> In t (top_by_score n l) ->
  fleb (_score_sentence s) (_score_sentence t) = true.
Proof.
  unfold top_by_score.
  set (sorted := sort_desc snd (map (fun s => (s, _score_sentence s)) l)).
  intros Hs Hout Ht.
  apply in_map_iff in Ht as ([t' kt] & Et & Ht). simpl in Et. subst t'.
  assert (Hin : In (s, _score_sentence s) sorted).
  { apply (Permutation_in _ (sort_desc_perm snd _)), in_map_iff. now exists s. }
  rewrite <- (firstn_skipn n sorted) in Hin. apply in_app_or in Hin as [Hin|Hin].
  - exfalso. apply Hout, in_map_iff. now exists (s, _score_sentence s).
  - pose proof (scored_sorted l) as S. fold sorted in S.
    rewrite <- (firstn_skipn n sorted) in S.
    pose proof (StronglySorted_app_inv _ _ _ S _ _ Ht Hin) as G.
    unfold key_ge in G. simpl in G.
    assert (E : kt = _score_sentence t).
    { pose proof (scored_pairs l) as P. fold sorted in P.
      rewrite Forall_forall in P. apply (P (t, kt)).
      rewrite <- (firstn_skipn n sorted). apply in_or_app. now left. }
    now rewrite <- E.
Qed.

Lemma top_by_score_stable (n : nat) (l : list str) (s t : str) :
  before s t (top_by_score n l) ->
  fltb (_score_sentence t) (_score_sentence s) = false -> before s t l.
Proof.
  unfold top_by_score.
  set (sorted := sort_desc snd (map (fun s => (s, _score_sentence s)) l)).
  intros H T.
  apply before_map_inv in H as ([s' ks] & [t' kt] & Es & Et & H).
  simpl in Es, Et. subst s' t'.
  assert (Hb : before (s, ks) (t, kt) sorted).
  { rewrite <- (firstn_skipn n sorted). now apply before_app_l. }
  pose proof (scored_pairs l) as P. fold sorted in P. rewrite Forall_forall in P.
  destruct (before_In _ _ _ Hb) as [Is It].
  pose proof (P _ Is) as Ks. pose proof (P _ It) as Kt. simpl in Ks, Kt. subst ks kt.
  apply (sort_desc_stable snd) in Hb; [|exact T].
  apply before_map_inv in Hb as (a & b & Ea & Eb & Hb).
  injection Ea as <-. injection Eb as <-. exact Hb.
Qed.

Lemma top_by_score_prefix (n m : nat) (l : list str) :
  n <= m -> top_by_score n l = firstn n (top_by_score m l).
Proof.
  intros H. unfold top_by_score.
  rewrite <- !firstn_map, firstn_firstn.
  now rewrite (Nat.min_l n m H).
Qed.

Lemma top_by_score_all (n : nat) (l : list str) :
  length l <= n -> sorted_by_score l -> top_by_score n l = l.
Proof.
  intros L S. unfold top_by_score.
  rewrite sort_desc_sorted_id.
  - rewrite firstn_all2 by now rewrite length_map.
    rewrite map_map. simpl. apply map_id.
  - apply Forall_forall. intros p Hp. apply in_map_iff in Hp as (s & <- & _).
    apply score_sentence_not_nan.
  - clear L. induction S as [|x l S IH Hx]; simpl; constructor; [exact IH|].
    rewrite Forall_forall in *. intros p Hp.
    apply in_map_iff in Hp as (s & <- & Hs). apply Hx, Hs.
Qed.

(** The loop over the sentences appends some of them, in their order. *)
Lemma dedup_loop_sublist (l : list str) (st : gset str * list str) :
  exists added, snd (fold_left dedup_step l st) = snd st ++ added /\ sublist added l.
Proof.
  revert st. induction l as [|s l IH]; intros st; simpl.
  - exists []. split; [now rewrite app_nil_r | constructor].
  - destruct (IH (dedup_step st s)) as (a1 & -> & S1).
    destruct st as [seen unique]. unfold dedup_step.
    destruct (_ && _); cbn [snd].
    + exists (s :: a1). split; [now rewrite <- app_assoc | now constructor].
    + exists a1. split; [reflexivity | now constructor].
Qed.

(** A sentence with a key that is new when its turn comes is kept. *)
Lemma dedup_loop_first (pre post : list str) (s : str) (st : gset str * list str) :
  dedup_key s <> [] -> dedup_key s ∉ fst st ->
  Forall (fun p => dedup_key p <> dedup_key s) pre ->
  In s (snd (fold_left dedup_step (pre ++ s :: post) st)).
Proof.
  intros Hk. revert st. induction pre as [|p pre IH]; intros [seen unique] Hs Hpre.
  - cbn [app fold_left].
    assert (E : dedup_step (seen, unique) s = ({[dedup_key s]} ∪ seen, unique ++ [s])).
    { unfold dedup_step. apply is_empty_false in Hk.
      now rewrite Hk, (bool_decide_eq_false_2 _ Hs). }
    rewrite E. destruct (dedup_loop_grows post ({[dedup_key s]} ∪ seen, unique ++ [s]))
      as (a & ->).
    cbn [snd]. apply in_or_app. left. apply in_or_app. right. now left.
  - inversion Hpre as [|? ? Hp Hpre']; subst. cbn [app fold_left]. apply IH; [|exact Hpre'].
    unfold dedup_step. destruct (_ && _); cbn [fst]; [|exact Hs].
    cbn [fst] in Hs. rewrite elem_of_union, elem_of_singleton. intros [E|E]; auto.
Qed.

Lemma unique_sentences_sublist (text : str) :
  sublist (unique_sentences text) (_split_sentences text).
Proof.
  unfold unique_sentences.
  destruct (dedup_loop_sublist (_split_sentences text) (∅, [])) as (a & -> & S).
  exact S.
Qed.

(** X14. The deduplication of [_pick_top_sentences] keeps the first sentence of
    every key that is not empty: the list [unique] holds sentences of the
    text in their order, with pairwise different keys, none of them empty,
    and it holds every sentence whose key is not empty and is not the key of
    an earlier sentence. *)
Theorem dedup_keeps_first_occurrences (text : str) :
  sublist (unique_sentences text) (_split_sentences text)
  /\ NoDup (map dedup_key (unique_sentences text))
  /\ Forall (fun s => dedup_key s <> []) (unique_sentences text)
  /\ (forall pre s post,
        _split_sentences text = pre ++ s :: post ->
        dedup_key s <> [] ->
        Forall (fun p => dedup_key p <> dedup_key s) pre ->
        In s (unique_sentences text)).
Proof.
  split; [apply unique_sentences_sublist|].
  destruct (dedup_loop_inv (_split_sentences text) _ dedup_inv_start) as (_ & Hn & He).
  split; [exact Hn|]. split; [exact He|].
  intros pre s post E Hk Hpre. unfold unique_sentences. rewrite E.
  apply dedup_loop_first; auto. cbn [fst]. apply not_elem_of_empty.
Qed.

(** X15. [_pick_top_sentences] returns [max_sentences] sentences of the text,
    or all the sentences of [unique] when there are fewer, with pairwise
    different keys that are not empty, by non-increasing score; and asking
    for fewer sentences gives a prefix of the longer answer. *)
Theorem pick_top_sentences_sound (text : str) (n m : nat) :
  length (_pick_top_sentences text n) = Nat.min n (length (unique_sentences text))
  /\ Forall (fun s => In s (_split_sentences text) /\ dedup_key s <> [])
            (_pick_top_sentences text n)
  /\ NoDup (map dedup_key (_pick_top_sentences text n))
  /\ sorted_by_score (_pick_top_sentences text n)
  /\ _pick_top_sentences text (Nat.min n m) = firstn (Nat.min n m) (_pick_top_sentences text m).
Proof.
  split; [rewrite pick_top_sentences_unfold; apply top_by_score_length|].
  split; [|split; [apply pick_top_sentences_NoDup|split]].
  - apply Forall_forall. intros s Hs. split; [now apply pick_top_sentences_incl in Hs|].
    rewrite pick_top_sentences_unfold in Hs.
    destruct (top_by_score_sub n (unique_sentences text)) as (rest & P).
    assert (Hu : In s (unique_sentences text)).
    { apply (Permutation_in _ (Permutation_sym P)), in_or_app. now left. }
    destruct (dedup_loop_inv (_split_sentences text) _ dedup_inv_start) as (_ & _ & He).
    rewrite Forall_forall in He. now apply He.
  - rewrite pick_top_sentences_unfold. apply top_by_score_sorted.
  - rewrite !pick_top_sentences_unfold. apply top_by_score_prefix. lia.
Qed.

(** X16. [_pick_top_sentences] keeps the best: a sentence of [unique] that is
    left out scores no more than any sentence that is returned. *)
Theorem pick_top_sentences_best (text : str) (n : nat) (s t : str) :
  In s (unique_sentences text) -> ~ In s (_pick_top_sentences text n) ->
  In t (_pick_top_sentences text n) ->
  fleb (_score_sentence s) (_score_sentence t) = true.
Proof.
  rewrite pick_top_sentences_unfold. apply top_by_score_best.
Qed.

(** X17. Ties keep the order of the text: when [s] comes before [t] in the result
    although [t] does not score less, [s] comes before [t] in the text. *)
Theorem pick_top_sentences_stable (text : str) (n : nat) (s t : str) :
  before s t (_pick_top_sentences text n) ->
  fltb (_score_sentence t) (_score_sentence s) = false ->
  before s t (_split_sentences text).
Proof.
  rewrite pick_top_sentences_unfold. intros H T.
  apply (before_sublist s t _ _ (unique_sentences_sublist text)).
  now apply (top_by_score_stable n).
Qed.

Lemma pick_top_sentences_best_witness :
  In sales_sentence (unique_sentences tie_text)
  /\ ~ In sales_sentence (_pick_top_sentences tie_text 2)
  /\ In profit_sentence (_pick_top_sentences tie_text 2)
  /\ fleb (_score_sentence sales_sentence) (_score_sentence profit_sentence) = true.
Proof.
  assert (U : unique_sentences tie_text
              = [costs_sentence; profit_sentence; sales_sentence])
    by (vm_compute; reflexivity).
  assert (E : _pick_top_sentences tie_text 2 = [profit_sentence; costs_sentence])
    by (vm_compute; reflexivity).
  assert (H1 : In sales_sentence (unique_sentences tie_text))
    by (rewrite U; right; right; left; reflexivity).
  assert (H2 : ~ In sales_sentence (_pick_top_sentences tie_text 2))
    by (rewrite E; intros [H|[H|[]]]; discriminate H).
  assert (H3 : In profit_sentence (_pick_top_sentences tie_text 2))
    by (rewrite E; left; reflexivity).
  split; [exact H1|]. split; [exact H2|]. split; [exact H3|].
  exact (pick_top_sentences_best tie_text 2 sales_sentence profit_sentence H1 H2 H3).
Defined.

Lemma pick_top_sentences_stable_witness :
  before costs_sentence sales_sentence (_pick_top_sentences tie_text 3)
  /\ fltb (_score_sentence sales_sentence) (_score_sentence costs_sentence) = false
  /\ before costs_sentence sales_sentence (_split_sentences tie_text).
Proof.
  assert (E : _pick_top_sentences tie_text 3
              = [profit_sentence; costs_sentence; sales_sentence])
    by (vm_compute; reflexivity).
  assert (H1 : before costs_sentence sales_sentence (_pick_top_sentences tie_text 3))
    by (rewrite E; now exists [profit_sentence], [], []).
  assert (H2 : fltb (_score_sentence sales_sentence) (_score_sentence costs_sentence)
               = false) by (vm_compute; reflexivity).
  split; [exact H1|]. split; [exact H2|].
  exact (pick_top_sentences_stable tie_text 3 costs_sentence sales_sentence H1 H2).
Defined.

(* ------------------------------------------------------------------ *)
(** ** [summarize_text]: where the summary and the key points come from *)
(* ------------------------------------------------------------------ *)

Lemma summary_of_lead (pages : list str) :
  summary (summarized pages)
  = str_join [SPACE] (_pick_top_sentences (str_join PARAGRAPH (firstn 9 pages)) 8).
Proof. cbn [summary summarized]. now rewrite lead_text_first_pages. Qed.

(** X18. The summary is drawn from the first nine pages only: two documents with
    the same first nine pages have the same summary. *)
Theorem summary_first_nine_pages (pages pages' : list str) (r r' : SummaryResult) :
  summarize_text pages = Ok r -> summarize_text pages' = Ok r' ->
  firstn 9 pages = firstn 9 pages' ->
  summary r = summary r'.
Proof.
  rewrite !summarize_text_unfold. intros [= <-] [= <-] E.
  now rewrite !summary_of_lead, E.
Qed.

Lemma summary_first_nine_pages_witness :
  summarize_text (ten_pages capex_sentence) = Ok (summarized (ten_pages capex_sentence))
  /\ summarize_text (ten_pages yoy_sentence) = Ok (summarized (ten_pages yoy_sentence))
  /\ firstn 9 (ten_pages capex_sentence) = firstn 9 (ten_pages yoy_sentence)
  /\ summary (summarized (ten_pages capex_sentence))
     = summary (summarized (ten_pages yoy_sentence)).
Proof.
  pose proof (summarize_text_unfold (ten_pages capex_sentence)) as H1.
  pose proof (summarize_text_unfold (ten_pages yoy_sentence)) as H2.
  assert (H3 : firstn 9 (ten_pages capex_sentence) = firstn 9 (ten_pages yoy_sentence))
    by reflexivity.
  split; [exact H1|]. split; [exact H2|]. split; [exact H3|].
  exact (summary_first_nine_pages _ _ _ _ H1 H2 H3).
Defined.

Lemma chunks_of_small (pages : list str) :
  length pages <= 3 ->
  chunks_of pages = match pages with [] => [] | _ :: _ => [str_join PARAGRAPH pages] end.
Proof.
  destruct pages as [|a [|b [|c [|d rest]]]]; intros H;
    try reflexivity. simpl in H. lia.
Qed.

Lemma pick_top_sentences_sorted (text : str) (n : nat) :
  sorted_by_score (_pick_top_sentences text n).
Proof. rewrite pick_top_sentences_unfold. apply top_by_score_sorted. Qed.

Lemma pick_top_sentences_prefix (text : str) (n m : nat) :
  n <= m -> _pick_top_sentences text n = firstn n (_pick_top_sentences text m).
Proof. intros H. rewrite !pick_top_sentences_unfold. now apply top_by_score_prefix. Qed.

(** X19. With three pages or fewer there is one chunk, and the second sort has
    nothing to do: the key points are the seven best sentences of the whole
    text, which are the first seven sentences of the summary. *)
Theorem summarize_text_small_document (pages : list str) (r : SummaryResult) :
  summarize_text pages = Ok r -> length pages <= 3 ->
  summary r = str_join [SPACE] (_pick_top_sentences (str_join PARAGRAPH pages) 8)
  /\ key_points r = firstn 7 (_pick_top_sentences (str_join PARAGRAPH pages) 8).
Proof.
  rewrite summarize_text_unfold. intros [= <-] L. split.
  - rewrite summary_of_lead. now rewrite firstn_all2 by lia.
  - cbn [key_points summarized]. rewrite (chunks_of_small pages L).
    rewrite <- (pick_top_sentences_prefix _ 7 8) by lia.
    destruct pages as [|p pages].
    + change (str_join PARAGRAPH []) with (@nil ascii).
      rewrite (pick_top_sentences_blank [] 7); [reflexivity | constructor].
    + cbn [flat_map]. rewrite app_nil_r. apply top_by_score_all.
      * pose proof (pick_top_sentences_length (str_join PARAGRAPH (p :: pages)) 7). lia.
      * apply pick_top_sentences_sorted.
Qed.

Lemma summarize_text_small_document_witness :
  summarize_text three_pages = Ok (summarized three_pages)
  /\ length three_pages <= 3
  /\ key_points (summarized three_pages)
     = firstn 7 (_pick_top_sentences (str_join PARAGRAPH three_pages) 8).
Proof.
  pose proof (summarize_text_unfold three_pages) as H1.
  assert (H2 : length three_pages <= 3) by (simpl; lia).
  split; [exact H1|]. split; [exact H2|].
  exact (proj2 (summarize_text_small_document three_pages _ H1 H2)).
Defined.

Lemma in_chunks_of (pages : list str) (chunk : str) :
  In chunk (chunks_of pages) ->
  exists k, 3 * k < length pages
    /\ chunk = str_join PARAGRAPH (slice pages (3 * k) (3 * k + 3)).
Proof.
  unfold chunks_of. intros H.
  apply in_map_iff in H as (i & <- & H).
  apply in_map_iff in H as (k & <- & H). apply in_seq in H.
  exists k. replace (0 + k * 3) with (3 * k) by lia. split; [|reflexivity].
  pose proof (Nat.div_mod_eq (length pages - 0 + 3 - 1) 3).
  pose proof (Nat.mod_upper_bound (length pages - 0 + 3 - 1) 3). lia.
Qed.

Lemma has_core_join (sep : str) (l : list str) :
  l <> [] -> Forall has_core l -> has_core (str_join sep l).
Proof.
  intros Hl H. induction H as [|s l Hs _ IH]; [congruence|].
  destruct l as [|t l]; [exact Hs|].
  change (str_join sep (s :: t :: l)) with (s ++ sep ++ str_join sep (t :: l)).
  destruct Hs as (Hn & Hs & _). destruct (IH ltac:(discriminate)) as (Hn' & _ & He').
  split; [|split].
  - destruct s; [congruence | discriminate].
  - destruct s; [congruence | exact Hs].
  - unfold ends_clean in *. rewrite !rev_app_distr.
    destruct (rev (str_join sep (t :: l))) as [|c u] eqn:E; [|exact He'].
    apply (f_equal (@rev ascii)) in E. rewrite rev_involutive in E. now rewrite E in Hn'.
Qed.

Lemma sentence_has_core (s : str) : 30 <= length s -> Collapsed s -> has_core s.
Proof.
  intros L [_ _ Hs He]. split; [|split; assumption].
  destruct s; [simpl in L; lia | discriminate].
Qed.

Lemma summary_clean (pages : list str) :
  Forall (fun c => isspace c = true -> c = SPACE) (summary (summarized pages))
  /\ str_strip (summary (summarized pages)) = summary (summarized pages).
Proof.
  rewrite summary_of_lead.
  set (picks := _pick_top_sentences _ 8).
  assert (F : Forall (fun s => 30 <= length s /\ Collapsed s) picks).
  { apply Forall_forall. intros s Hs. apply pick_top_sentences_incl in Hs.
    pose proof (split_sentences_Forall (str_join PARAGRAPH (firstn 9 pages))) as G.
    rewrite Forall_forall in G. now apply G. }
  split.
  - clearbody picks. induction F as [|s l [_ [Hs _ _ _]] _ IH]; [constructor|].
    destruct l as [|t l]; [exact Hs|].
    change (str_join [SPACE] (s :: t :: l)) with (s ++ [SPACE] ++ str_join [SPACE] (t :: l)).
    apply Forall_app. split; [exact Hs|]. apply Forall_app. split; [|exact IH].
    repeat constructor.
  - destruct picks as [|s l] eqn:E; [reflexivity|]. rewrite <- E in *.
    destruct (has_core_join [SPACE] picks) as (_ & Hs & He).
    + rewrite E. discriminate.
    + eapply Forall_impl, F. intros x [L C]. now apply sentence_has_core.
    + now apply strip_clean_id.
Qed.

(** X20. Every key point is a sentence of one chunk of three pages, so it has at
    least 30 characters and no space but single ordinary spaces; and the
    summary, which joins such sentences by single spaces, holds no line
    break and no space at its ends. *)
Theorem summarize_text_sentences (pages : list str) :
  exists r, summarize_text pages = Ok r
    /\ Forall (fun s =>
                 30 <= length s /\ Collapsed s
                 /\ exists k, 3 * k < length pages
                      /\ In s (_split_sentences
                                 (str_join PARAGRAPH (slice pages (3 * k) (3 * k + 3)))))
              (key_points r)
    /\ Forall (fun c => isspace c = true -> c = SPACE) (summary r)
    /\ str_strip (summary r) = summary r.
Proof.
  exists (summarized pages). split; [apply summarize_text_unfold|].
  split; [|apply summary_clean].
  apply Forall_forall. intros s Hs. cbn [key_points summarized] in Hs.
  destruct (top_by_score_sub 12
              (flat_map (fun chunk => _pick_top_sentences chunk 7) (chunks_of pages)))
    as (rest & P).
  apply (fun H => Permutation_in s (Permutation_sym P) (in_or_app _ _ _ (or_introl H)))
    in Hs.
  apply in_flat_map in Hs as (chunk & Hc & Hs).
  apply pick_top_sentences_incl in Hs.
  pose proof (split_sentences_Forall chunk) as G. rewrite Forall_forall in G.
  destruct (G s Hs) as [L C]. split; [exact L|]. split; [exact C|].
  destruct (in_chunks_of pages chunk Hc) as (k & Hk & ->). now exists k.
Qed.

(** X21. The key points are the best of the sentences picked in the chunks: a
    pick of a chunk that is no key point scores no more than any key
    point. *)
Theorem key_points_best (pages : list str) (r : SummaryResult) (chunk s t : str) :
  summarize_text pages = Ok r ->
  In chunk (chunks_of pages) -> In s (_pick_top_sentences chunk 7) ->
  ~ In s (key_points r) -> In t (key_points r) ->
  fleb (_score_sentence s) (_score_sentence t) = true.
Proof.
  rewrite summarize_text_unfold. intros [= <-] Hc Hs Hout Ht.
  cbn [key_points summarized] in Hout, Ht.
  apply (top_by_score_best 12
           (flat_map (fun chunk => _pick_top_sentences chunk 7) (chunks_of pages)));
    try assumption.
  apply in_flat_map. now exists chunk.
Qed.

Lemma key_points_best_witness :
  summarize_text long_report = Ok (summarized long_report)
  /\ In (str_join PARAGRAPH [board_page; []; []]) (chunks_of long_report)
  /\ In (board_sentence "7") (_pick_top_sentences (str_join PARAGRAPH [board_page; []; []]) 7)
  /\ ~ In (board_sentence "7") (key_points (summarized long_report))
  /\ In (unit_sentence "1") (key_points (summarized long_report))
  /\ fleb (_score_sentence (board_sentence "7")) (_score_sentence (unit_sentence "1")) = true.
Proof.
  pose proof (summarize_text_unfold long_report) as H1.
  assert (H2 : In (str_join PARAGRAPH [board_page; []; []]) (chunks_of long_report))
    by (left; reflexivity).
  assert (H3 : In (board_sentence "7")
                  (_pick_top_sentences (str_join PARAGRAPH [board_page; []; []]) 7)).
  { replace (_pick_top_sentences (str_join PARAGRAPH [board_page; []; []]) 7)
      with (map board_sentence seven_digits) by (vm_compute; reflexivity).
    apply in_map. simpl. tauto. }
  assert (K : key_points (summarized long_report)
              = map unit_sentence seven_digits
                ++ map board_sentence (firstn 5 seven_digits))
    by (vm_compute; reflexivity).
  assert (H4 : ~ In (board_sentence "7") (key_points (summarized long_report))).
  { rewrite K. simpl. intros H.
    repeat (destruct H as [H|H]; [discriminate H|]). exact H. }
  assert (H5 : In (unit_sentence "1") (key_points (summarized long_report)))
    by (rewrite K; left; reflexivity).
  split; [exact H1|]. split; [exact H2|]. split; [exact H3|].
  split; [exact H4|]. split; [exact H5|].
  exact (key_points_best long_report _ _ _ _ H1 H2 H3 H4 H5).
Defined.

(* ------------------------------------------------------------------ *)
(** ** [extract_pages_text]: the backends and their fallback *)
(* ------------------------------------------------------------------ *)

Lemma cleaned_page_normalized (raw : str) : normalized (cleaned_page raw).
Proof.
  apply strip_headers_footers_keeps_normalized, normalize_whitespace_normalized.
Qed.

Lemma ocr_condition (w : World) (page : NativePage) :
  (is_empty (get_text page) || (length (str_strip (get_text page)) <? 20))
  && ocr_available w = true
  <-> short_text_layer page /\ ocr_available w = true.
Proof.
  unfold short_text_layer. rewrite andb_true_iff, orb_true_iff, Nat.ltb_lt.
  split; intros [H O]; (split; [|exact O]); [|now right].
  destruct H as [H|H]; [|exact H].
  destruct (get_text page); [simpl; lia | discriminate].
Qed.

(** One page of a document: the OCR is called when it is there and the text
    layer is short, and the page text never raises. *)
Lemma native_page_text_cases (w : World) (i : nat) (page : NativePage) :
  (short_text_layer page /\ ocr_available w = true
   /\ exists raw, native_page_text w i page = ([CallOcr i], Ok (cleaned_page raw))
        /\ match recognize page with
           | Ok ocr_text =>
               raw = str_strip (get_text page)
                     ++ (if is_empty ocr_text then [] else LF :: str_strip ocr_text)
           | Raise _ => raw = get_text page
           end)
  \/ (~ (short_text_layer page /\ ocr_available w = true)
      /\ native_page_text w i page = ([], Ok (cleaned_page (get_text page)))).
Proof.
  unfold native_page_text.
  destruct ((is_empty (get_text page) || (length (str_strip (get_text page)) <? 20))
            && ocr_available w) eqn:C.
  - left. apply ocr_condition in C as [Hsh O]. split; [exact Hsh|]. split; [exact O|].
    destruct (recognize page) as [ocr_text|e]; eexists; split; reflexivity.
  - right. split; [|reflexivity]. intros H. apply ocr_condition in H. congruence.
Qed.

Lemma native_pages_spec (w : World) (doc : list NativePage) (i : nat) :
  exists t pages,
    native_pages w i doc = (t, Ok pages)
    /\ length pages = length doc
    /\ Forall normalized pages
    /\ (forall j, In (CallOcr j) t <->
          ocr_available w = true
          /\ exists page, i <= j /\ nth_error doc (j - i) = Some page
               /\ short_text_layer page)
    /\ Forall is_ocr_event t.
Proof.
  revert i. induction doc as [|page doc IH]; intros i.
  - exists [], []. split; [reflexivity|]. split; [reflexivity|].
    split; [constructor|]. split; [|constructor].
    intros j. split; [intros []|]. intros (_ & page & _ & H & _).
    now destruct (j - i).
  - destruct (IH (S i)) as (t2 & pages & E2 & L & N & O & B).
    cbn [native_pages].
    destruct (native_page_text_cases w i page)
      as [(Hsh & A & raw & -> & _) | (Hsh & ->)]; cbn [io_bind]; rewrite E2;
      cbn [io_bind io_ret app].
    + exists (CallOcr i :: t2 ++ []), (cleaned_page raw :: pages).
      split; [reflexivity|]. split; [simpl; now rewrite L|].
      split; [constructor; [apply cleaned_page_normalized | exact N]|].
      rewrite app_nil_r. split; [|constructor; [exact I | exact B]].
      intros j. cbn [In]. rewrite O. split.
      * intros [[= <-] | (_ & p & Hj & Hp & Hs)]; (split; [exact A|]).
        -- exists page. rewrite Nat.sub_diag. now repeat split.
        -- exists p. split; [lia|]. split; [|exact Hs].
           replace (j - i) with (S (j - S i)) by lia. exact Hp.
      * intros (_ & p & Hj & Hp & Hs).
        destruct (Nat.eq_dec i j) as [<- | Hne]; [now left | right].
        split; [exact A|]. exists p. split; [lia|]. split; [|exact Hs].
        replace (j - i) with (S (j - S i)) in Hp by lia. exact Hp.
    + exists (t2 ++ []), (cleaned_page (get_text page) :: pages).
      split; [reflexivity|]. split; [simpl; now rewrite L|].
      split; [constructor; [apply cleaned_page_normalized | exact N]|].
      rewrite app_nil_r. split; [|exact B].
      intros j. rewrite O. split.
      * intros (A & p & Hj & Hp & Hs). split; [exact A|].
        exists p. split; [lia|]. split; [|exact Hs].
        replace (j - i) with (S (j - S i)) by lia. exact Hp.
      * intros (A & p & Hj & Hp & Hs). split; [exact A|].
        destruct (Nat.eq_dec i j) as [<- | Hne].
        -- rewrite Nat.sub_diag in Hp. injection Hp as <-. exfalso. now apply Hsh.
        -- exists p. split; [lia|]. split; [|exact Hs].
           replace (j - i) with (S (j - S i)) in Hp by lia. exact Hp.
Qed.

Lemma layout_pages_normalized (layouts : list (list LayoutElement)) :
  Forall normalized (map layout_page_text layouts).
Proof.
  apply Forall_forall. intros p Hp. apply in_map_iff in Hp as (l & <- & _).
  apply cleaned_page_normalized.
Qed.

(** The PyMuPDF step of [extract_pages_text]: pages and no error, whatever
    the library does. *)
Lemma native_step (w : World) (path : str) :
  exists t pages,
    (if is_some (fitz w)
     then io_try (_extract_text_pymupdf w path) (io_ret [])
     else io_ret []) = (t, Ok pages)
    /\ Forall normalized pages
    /\ match fitz w with
       | Some open_document =>
           match open_document path with
           | Ok doc =>
               length pages = length doc
               /\ exists t', t = CallNative path :: t' /\ Forall is_ocr_event t'
                    /\ (forall j, In (CallOcr j) t' <->
                          ocr_available w = true
                          /\ exists page, nth_error doc j = Some page
                               /\ short_text_layer page)
           | Raise _ => pages = [] /\ t = [CallNative path]
           end
       | None => pages = [] /\ t = []
       end.
Proof.
  unfold _extract_text_pymupdf.
  destruct (fitz w) as [open_document|]; cbn [is_some].
  - destruct (open_document path) as [doc|e] eqn:E; cbn [io_emit io_lift io_bind].
    + destruct (native_pages_spec w doc 0) as (t & pages & -> & L & N & O & B).
      exists (CallNative path :: [] ++ t), pages. cbn [io_try app].
      split; [reflexivity|]. split; [exact N|]. split; [exact L|].
      exists t. split; [reflexivity|]. split; [exact B|].
      intros j. rewrite O, Nat.sub_0_r. split.
      * intros (A & p & _ & H). split; [exact A | now exists p].
      * intros (A & p & H). split; [exact A|]. exists p. split; [lia | exact H].
    + exists [CallNative path], []. cbn. repeat split; constructor.
  - exists [], []. repeat split; constructor.
Qed.

Lemma layout_step (w : World) (path : str) (pages1 : list str) :
  exists t pages,
    (if no_pages pages1 && is_some (extract_pages w)
     then io_try (_extract_text_pdfminer w path) (io_ret [])
     else io_ret pages1) = (t, Ok pages)
    /\ match pages1 with
       | _ :: _ => pages = pages1 /\ t = []
       | [] =>
           match extract_pages w with
           | Some extract =>
               t = [CallLayout path]
               /\ pages = match extract path with
                          | Ok layouts => map layout_page_text layouts
                          | Raise _ => []
                          end
           | None => pages = [] /\ t = []
           end
       end.
Proof.
  destruct pages1 as [|p ps]; cbn [no_pages andb].
  - unfold _extract_text_pdfminer.
    destruct (extract_pages w) as [extract|]; cbn [is_some].
    + destruct (extract path) as [layouts|e]; cbn.
      * exists [CallLayout path], (map layout_page_text layouts). now repeat split.
      * exists [CallLayout path], []. now repeat split.
    + exists [], []. now repeat split.
  - exists [], (p :: ps). now repeat split.
Qed.

(** X22. [extract_pages_text] returns pages, not an empty list, each of them
    normalized, or raises one of its own two errors: what the libraries
    raise never leaves the function. *)
Theorem extract_pages_text_result (w : World) (path : str) :
  match snd (extract_pages_text w path) with
  | Ok pages => isfile w path = true /\ pages <> [] /\ Forall normalized pages
  | Raise e => e = if isfile w path then RuntimeError else AssertionError
  end.
Proof.
  unfold extract_pages_text. destruct (isfile w path); cbn [negb]; [|reflexivity].
  destruct (native_step w path) as (t1 & pages1 & -> & N1 & _). cbn [io_bind].
  destruct (layout_step w path pages1) as (t2 & pages2 & -> & H2). cbn [io_bind].
  destruct pages2 as [|p ps]; cbn; [reflexivity|].
  split; [reflexivity|]. split; [discriminate|].
  destruct pages1 as [|q qs].
  - destruct (extract_pages w) as [extract|]; [|now destruct H2].
    destruct H2 as [_ E]. destruct (extract path) as [layouts|]; [|discriminate].
    rewrite E. apply layout_pages_normalized.
  - destruct H2 as [-> _]. exact N1.
Qed.







(** X26. An OCR that fails, or that reads nothing but spaces, changes nothing:
    the page text is the cleaned text layer, as without OCR. *)
Theorem native_page_text_ocr_nothing (w : World) (i : nat) (page : NativePage) :
  match recognize page with
  | Ok ocr_text => blank ocr_text
  | Raise _ => True
  end ->
  snd (native_page_text w i page) = Ok (cleaned_page (get_text page)).
Proof.
  intros H.
  destruct (native_page_text_cases w i page)
    as [(_ & _ & raw & -> & Hr) | (_ & ->)]; [|reflexivity].
  cbn [snd]. f_equal. unfold cleaned_page. f_equal.
  destruct (recognize page) as [ocr_text|e]; [|now rewrite Hr].
  rewrite Hr, (strip_blank ocr_text H).
  destruct (is_empty ocr_text).
  - rewrite app_nil_r. apply normalize_whitespace_strip_eq.
  - rewrite <- (normalize_whitespace_strip_eq (get_text page)).
    apply (normalize_whitespace_margins [] (str_strip (get_text page)) [LF]);
      repeat constructor.
Qed.

Lemma native_page_text_ocr_nothing_witness :
  match recognize unreadable_page with
  | Ok ocr_text => blank ocr_text
  | Raise _ => True
  end
  /\ snd (native_page_text full_world 0 unreadable_page)
     = Ok (cleaned_page (get_text unreadable_page)).
Proof.
  split; [exact I|].
  exact (native_page_text_ocr_nothing full_world 0 unreadable_page I).
Defined.

(* ------------------------------------------------------------------ *)
(** ** [run]: what it writes, and where *)
(* ------------------------------------------------------------------ *)



Lemma split_app_sep (sep : ascii) (a b : str) :
  str_split sep (a ++ sep :: b) = str_split sep a ++ str_split sep b.
Proof.
  induction a as [|c a IH]; cbn [app str_split].
  - now rewrite (proj2 (is_char_true sep sep) eq_refl).
  - rewrite IH. destruct (is_char sep c); [reflexivity|].
    destruct (str_split sep a) as [|p ps] eqn:E; [now apply split_nonempty in E|].
    reflexivity.
Qed.

Lemma split_no_sep (sep : ascii) (s : str) :
  count_char sep s = 0 -> str_split sep s = [s].
Proof.
  induction s as [|c s IH]; [reflexivity|]. rewrite count_char_cons. cbn [str_split].
  destruct (is_char sep c); [lia|]. intros H. now rewrite IH.
Qed.

Lemma split_other (sep c : ascii) (s : str) :
  count_char c s = 0 -> Forall (fun p => count_char c p = 0) (str_split sep s).
Proof.
  induction s as [|x s IH]; [repeat constructor|].
  rewrite count_char_cons. intros H.
  assert (Hx : is_char c x = false) by (destruct (is_char c x); [lia | reflexivity]).
  rewrite Hx in H. specialize (IH H). cbn [str_split].
  destruct (is_char sep x); [constructor; [reflexivity | exact IH]|].
  destruct (str_split sep s) as [|p ps].
  - constructor; [|constructor]. rewrite count_char_cons, Hx. reflexivity.
  - inversion IH as [|? ? Hp Hps]; subst.
    constructor; [|exact Hps]. rewrite count_char_cons, Hx. exact Hp.
Qed.

Lemma join_other (sep : str) (c : ascii) (l : list str) :
  count_char c sep = 0 -> Forall (fun p => count_char c p = 0) l ->
  count_char c (str_join sep l) = 0.
Proof.
  intros Hs H. induction H as [|p ps Hp _ IH]; [reflexivity|].
  cbn [str_join]. destruct ps; [exact Hp|].
  rewrite !count_char_app. lia.
Qed.

Lemma Forall_removelast {A : Type} (P : A -> Prop) (l : list A) :
  Forall P l -> Forall P (removelast l).
Proof.
  induction 1 as [|x l Hx H IH]; [constructor|]. simpl.
  destruct l; [constructor | now constructor].
Qed.

Lemma basename_no_slash (p : str) : count_char "/"%char (basename p) = 0.
Proof.
  unfold basename. pose proof (split_pieces "/"%char p) as F.
  destruct (exists_last (split_nonempty "/"%char p)) as (l & x & E).
  rewrite E, last_last. rewrite E in F. apply Forall_app in F as [_ F].
  now inversion F.
Qed.

Lemma basename_of_dir (dir name : str) :
  count_char "/"%char name = 0 -> basename (dir ++ "/"%char :: name) = name.
Proof.
  intros H. unfold basename.
  now rewrite split_app_sep, (split_no_sep _ name H), last_last.
Qed.

Lemma splitext_root_no_slash (q : str) :
  count_char "/"%char q = 0 -> count_char "/"%char (splitext_root q) = 0.
Proof.
  intros H. unfold splitext_root. destruct (existsb _ _); [|exact H].
  apply join_other; [reflexivity|].
  apply Forall_removelast, split_other, H.
Qed.

Lemma all_empty_dots (l : list str) :
  existsb (fun piece => negb (is_empty piece)) l = false ->
  Forall (fun c => c = "."%char) (str_join (txt ".") l).
Proof.
  induction l as [|p ps IH]; [constructor|]. cbn [existsb]. intros H.
  apply orb_false_iff in H as [Hp H]. destruct p; [|discriminate].
  cbn [str_join]. destruct ps; [constructor|].
  cbn [app]. constructor; [reflexivity | apply IH, H].
Qed.

Lemma splitext_root_of_name (name ext : str) :
  count_char "."%char ext = 0 -> Exists (fun c => c <> "."%char) name ->
  splitext_root (name ++ "."%char :: ext) = name.
Proof.
  intros He Hn. unfold splitext_root.
  rewrite split_app_sep, (split_no_sep _ ext He), removelast_last.
  destruct (existsb _ _) eqn:E; [apply (join_split "."%char)|].
  exfalso. apply all_empty_dots in E.
  change (txt ".") with ["."%char] in E. rewrite (join_split "."%char) in E.
  apply Exists_exists in Hn as (c & Hc & Hne).
  rewrite Forall_forall in E. now apply Hne, E.
Qed.

Lemma run_result_paths (w : World) (path : str) (t : list event) (r : RunResult) :
  run w path = (t, Ok r) ->
  summary_txt r
  = txt "outputs/summaries/" ++ splitext_root (basename path) ++ txt ".summary.txt"
  /\ summary_json r
     = txt "outputs/summaries/" ++ splitext_root (basename path) ++ txt ".summary.json".
Proof.
  unfold run. destruct (extract_pages_text w path) as [t1 [pages|e]]; [|discriminate].
  cbn [io_bind]. rewrite summarize_text_unfold. cbn. intros [= _ <-]. now split.
Qed.

Lemma split_report_path (x : str) :
  count_char "/"%char x = 0 ->
  str_split "/"%char (txt "outputs/summaries/" ++ x)
  = [txt "outputs"; txt "summaries"; x].
Proof.
  intros H.
  change (txt "outputs/summaries/" ++ x)
    with (txt "outputs" ++ "/"%char :: (txt "summaries" ++ "/"%char :: x)).
  rewrite !split_app_sep, (split_no_sep _ x H). reflexivity.
Qed.

(** X28. The two reports are always written directly into [outputs/summaries],
    whatever directories the path of the PDF names: the stem taken from the
    path holds no slash. *)
Theorem run_report_paths (w : World) (path : str) (t : list event) (r : RunResult) :
  run w path = (t, Ok r) ->
  exists stem,
    count_char "/"%char stem = 0
    /\ str_split "/"%char (summary_txt r)
       = [txt "outputs"; txt "summaries"; stem ++ txt ".summary.txt"]
    /\ str_split "/"%char (summary_json r)
       = [txt "outputs"; txt "summaries"; stem ++ txt ".summary.json"].
Proof.
  intros H. destruct (run_result_paths w path t r H) as [-> ->].
  exists (splitext_root (basename path)).
  assert (S : count_char "/"%char (splitext_root (basename path)) = 0)
    by apply splitext_root_no_slash, basename_no_slash.
  split; [exact S|].
  split; apply split_report_path; rewrite count_char_app, S; reflexivity.
Qed.

(** X29. The reports of [dir/name.ext] are named after [name]: the directories
    and the last extension are dropped, and dots inside the name are kept. *)
Theorem run_report_name (w : World) (dir name ext : str) (t : list event) (r : RunResult) :
  count_char "/"%char name = 0 -> Exists (fun c => c <> "."%char) name ->
  count_char "/"%char ext = 0 -> count_char "."%char ext = 0 ->
  run w (dir ++ txt "/" ++ name ++ txt "." ++ ext) = (t, Ok r) ->
  summary_txt r = txt "outputs/summaries/" ++ name ++ txt ".summary.txt"
  /\ summary_json r = txt "outputs/summaries/" ++ name ++ txt ".summary.json".
Proof.
  intros Hn Hd He1 He2 H. destruct (run_result_paths _ _ _ _ H) as [-> ->].
  change (txt "/" ++ name ++ txt "." ++ ext) with ("/"%char :: name ++ "."%char :: ext).
  rewrite basename_of_dir by (rewrite count_char_app, count_char_cons, Hn, He1; reflexivity).
  rewrite (splitext_root_of_name name ext He2 Hd). now split.
Qed.

Lemma run_sample_world_result :
  run sample_world report_pdf = (sample_run_events, Ok sample_run_result).
Proof. vm_compute. reflexivity. Qed.

Lemma run_report_paths_witness :
  run sample_world report_pdf = (sample_run_events, Ok sample_run_result)
  /\ exists stem,
       count_char "/"%char stem = 0
       /\ str_split "/"%char (summary_txt sample_run_result)
          = [txt "outputs"; txt "summaries"; stem ++ txt ".summary.txt"]
       /\ str_split "/"%char (summary_json sample_run_result)
          = [txt "outputs"; txt "summaries"; stem ++ txt ".summary.json"].
Proof.
  split; [exact run_sample_world_result|].
  exact (run_report_paths sample_world report_pdf _ _ run_sample_world_result).
Defined.

Lemma run_report_name_witness :
  count_char "/"%char (txt "acme.2023") = 0
  /\ Exists (fun c => c <> "."%char) (txt "acme.2023")
  /\ run sample_world (txt "reports" ++ txt "/" ++ txt "acme.2023" ++ txt "." ++ txt "pdf")
     = (sample_run_events, Ok sample_run_result)
  /\ summary_txt sample_run_result
     = txt "outputs/summaries/" ++ txt "acme.2023" ++ txt ".summary.txt".
Proof.
  assert (H1 : count_char "/"%char (txt "acme.2023") = 0) by reflexivity.
  assert (H2 : Exists (fun c => c <> "."%char) (txt "acme.2023"))
    by (left; discriminate).
  split; [exact H1|]. split; [exact H2|]. split; [exact run_sample_world_result|].
  exact (proj1 (run_report_name sample_world (txt "reports") (txt "acme.2023") (txt "pdf")
                  _ _ H1 H2 eq_refl eq_refl run_sample_world_result)).
Defined.

(* ------------------------------------------------------------------ *)
(** ** The command line *)
(* ------------------------------------------------------------------ *)

